(** * OpenClaw worker: the Cirra AI MCP scripts

    A shallow embedding of the two command-line scripts of the
    [cirra-mcp] skill and the properties of their token and session
    lifecycle:

    - [call-tool.js], the Tool Invoker (module [Invoker]);
    - [oauth-flow.js], the Authorizer (module [Authorizer]).

    Conventions of the embedding.

    - JavaScript values are the type [value]; numbers are the integers
      [Z] together with [VNaN] (epoch milliseconds, lifetimes in seconds
      and request ids are integers; fractions and infinities are not
      represented).
    - Strings are [string], read as the bytes of the text; on ASCII text
      every string operation below agrees with JavaScript's.
    - The outside world (environment variables, file system, clock,
      network, the browser, incoming callback requests) is the record
      [world]; the scripts run in the monad [M] over it, which carries
      thrown exceptions and [process.exit].  Every call on the outside
      world is logged in [trace].
    - The built-ins whose result is fixed by the platform and not by the
      scripts ([JSON.parse], [JSON.stringify], [path.join], the SHA-256
      digest) are the fields of the class [Platform]; every theorem holds
      for all platforms.  [node] is a concrete platform used to run the
      scripts on examples. *)

From Stdlib Require Import ZArith String Ascii List Lia Bool.
From stdpp Require Import base gmap strings pretty.
Import ListNotations.

Set Warnings "-register-all".

Open Scope string_scope.
Open Scope Z_scope.

(** ** Strings *)

(** [s.startsWith(p)] *)
Definition startsWith (s p : string) : bool := String.prefix p s.

(** [s.slice(n)] for [0 <= n] *)
Fixpoint slice (n : nat) (s : string) : string :=
  match n, s with
  | O, _ => s
  | S _, EmptyString => EmptyString
  | S n', String _ s' => slice n' s'
  end.

(** [s.includes(sub)] *)
Fixpoint includes (s sub : string) : bool :=
  String.prefix sub s ||
  match s with
  | EmptyString => false
  | String _ s' => includes s' sub
  end.

(** [s.split(c)] for a one-character separator [c] *)
Fixpoint split (c : ascii) (s : string) : list string :=
  match s with
  | EmptyString => [EmptyString]
  | String a s' =>
      if Ascii.eqb a c then EmptyString :: split c s'
      else match split c s' with
           | [] => [String a EmptyString]
           | w :: ws => String a w :: ws
           end
  end.

(** [parts.join(sep)] on strings *)
Fixpoint join (sep : string) (parts : list string) : string :=
  match parts with
  | [] => EmptyString
  | [p] => p
  | p :: ps => p ++ sep ++ join sep ps
  end.

(** White space and line terminators of [String.prototype.trim] and of
    the numeric-string grammar (the ASCII ones). *)
Definition is_js_space (a : ascii) : bool :=
  let n := nat_of_ascii a in
  (Nat.eqb n 9 || Nat.eqb n 10 || Nat.eqb n 11 || Nat.eqb n 12 ||
   Nat.eqb n 13 || Nat.eqb n 32)%bool.

Fixpoint trimStart (s : string) : string :=
  match s with
  | EmptyString => EmptyString
  | String a s' => if is_js_space a then trimStart s' else s
  end.

Fixpoint trimEnd (s : string) : string :=
  match s with
  | EmptyString => EmptyString
  | String a s' =>
      match trimEnd s' with
      | EmptyString => if is_js_space a then EmptyString else String a EmptyString
      | t => String a t
      end
  end.

(** [s.trim()] *)
Definition trim (s : string) : string := trimEnd (trimStart s).

Definition newline : ascii := ascii_of_nat 10.

(** The text of one newline and of one double quote. *)
Definition nl : string := String newline EmptyString.
Definition dquote : string := String (ascii_of_nat 34) EmptyString.

(** ** JavaScript values *)

Inductive value : Type :=
| VUndef
| VNull
| VBool (b : bool)
| VNum (n : Z)
| VNaN
| VStr (s : string)
| VArr (items : list value)
| VObj (props : list (string * value)).

(** Exceptions: the constructor name and the message. *)
Inductive exn : Type :=
| JsError (name message : string).

(** [new Error(msg)] *)
Definition Error (msg : string) : exn := JsError "Error" msg.
Definition TypeError (msg : string) : exn := JsError "TypeError" msg.
Definition SyntaxError (msg : string) : exn := JsError "SyntaxError" msg.

Definition message (e : exn) : string :=
  match e with JsError _ m => m end.

(** ToBoolean *)
Definition truthy (v : value) : bool :=
  match v with
  | VUndef | VNull | VNaN => false
  | VBool b => b
  | VNum n => negb (n =? 0)
  | VStr s => negb (String.eqb s EmptyString)
  | VArr _ | VObj _ => true
  end.

(** [v === s] for a string [s] *)
Definition strict_eq_str (v : value) (s : string) : bool :=
  match v with
  | VStr t => String.eqb t s
  | _ => false
  end.

(** [v !== undefined] *)
Definition is_defined (v : value) : bool :=
  match v with
  | VUndef => false
  | _ => true
  end.

Fixpoint lookup_prop (k : string) (props : list (string * value)) : value :=
  match props with
  | [] => VUndef
  | (k', v) :: rest => if String.eqb k' k then v else lookup_prop k rest
  end.

(** [v.k] for the property names the scripts read (none of them is a
    property of a primitive wrapper, of [Array.prototype] or of
    [Object.prototype]): reading from [null] or [undefined] throws. *)
Definition get_prop (v : value) (k : string) : exn + value :=
  match v with
  | VUndef =>
      inl (TypeError ("Cannot read properties of undefined (reading '" ++ k ++ "')"))
  | VNull =>
      inl (TypeError ("Cannot read properties of null (reading '" ++ k ++ "')"))
  | VObj props => inr (lookup_prop k props)
  | _ => inr VUndef
  end.

(** Digits of an array index: own properties whose name is a canonical
    array index are enumerated first, in ascending order. *)
Definition is_digit (a : ascii) : bool :=
  let n := nat_of_ascii a in (Nat.leb 48 n && Nat.leb n 57)%bool.

Fixpoint digits_value (acc : Z) (s : string) : option Z :=
  match s with
  | EmptyString => Some acc
  | String a s' =>
      if is_digit a
      then digits_value (10 * acc + Z.of_nat (nat_of_ascii a - 48)) s'
      else None
  end.

Definition array_index (k : string) : option Z :=
  match k with
  | EmptyString => None
  | String a rest =>
      if (Ascii.eqb a "0" && negb (String.eqb rest EmptyString))%bool then None
      else match digits_value 0 k with
           | Some n => if n <? 4294967295 then Some n else None
           | None => None
           end
  end.

Fixpoint insert_prop (k : string) (v : value) (props : list (string * value))
  : list (string * value) :=
  match props with
  | [] => [(k, v)]
  | (k', v') :: rest =>
      if String.eqb k' k then (k, v) :: rest
      else
        match array_index k, array_index k' with
        | Some n, Some n' =>
            if n <? n' then (k, v) :: props else (k', v') :: insert_prop k v rest
        | Some _, None =>
            if existsb (fun p => String.eqb (fst p) k) rest
            then (k', v') :: insert_prop k v rest
            else (k, v) :: props
        | None, _ => (k', v') :: insert_prop k v rest
        end
  end.

(** [o.k = v] in strict mode (both scripts are modules): assignment to a
    property of [null], [undefined] or a primitive throws.  Named
    properties of arrays are not represented. *)
Definition set_prop (o : value) (k : string) (v : value) : exn + value :=
  match o with
  | VObj props => inr (VObj (insert_prop k v props))
  | VArr items => inr (VArr items)
  | VUndef =>
      inl (TypeError ("Cannot set properties of undefined (setting '" ++ k ++ "')"))
  | VNull =>
      inl (TypeError ("Cannot set properties of null (setting '" ++ k ++ "')"))
  | _ => inl (TypeError ("Cannot create property '" ++ k ++ "'"))
  end.

(** ToString.  Array elements [null] and [undefined] print as the empty
    string. *)
Fixpoint to_string (v : value) : string :=
  match v with
  | VUndef => "undefined"
  | VNull => "null"
  | VBool b => if b then "true" else "false"
  | VNum n => pretty n
  | VNaN => "NaN"
  | VStr s => s
  | VArr items =>
      (fix elems (l : list value) : string :=
         match l with
         | [] => EmptyString
         | x :: r =>
             let sx := match x with VUndef | VNull => EmptyString | _ => to_string x end in
             match r with
             | [] => sx
             | _ :: _ => sx ++ "," ++ elems r
             end
         end) items
  | VObj _ => "[object Object]"
  end.

(** StringToNumber on the decimal integers: an optional sign and digits
    between optional white space, and the empty string, which is [0].
    Every other string is read as [NaN]. *)
Definition string_to_number (s : string) : option Z :=
  match trim s with
  | EmptyString => Some 0
  | String a rest =>
      if Ascii.eqb a "-" then
        match rest with
        | EmptyString => None
        | _ => option_map Z.opp (digits_value 0 rest)
        end
      else if Ascii.eqb a "+" then
        match rest with
        | EmptyString => None
        | _ => digits_value 0 rest
        end
      else digits_value 0 (String a rest)
  end.

(** ToNumber; [None] is [NaN]. *)
Definition to_number (v : value) : option Z :=
  match v with
  | VUndef | VNaN => None
  | VNull => Some 0
  | VBool b => Some (if b then 1 else 0)
  | VNum n => Some n
  | VStr s => string_to_number s
  | VArr _ | VObj _ => string_to_number (to_string v)
  end.

Definition of_number (n : option Z) : value :=
  match n with
  | Some z => VNum z
  | None => VNaN
  end.

(** ** The platform *)

Class Platform : Type := {
  (** [JSON.parse(text)]: the value, or the message of the [SyntaxError] *)
  JSON_parse : string -> string + value;
  (** [JSON.stringify(v, null, indent)]; [None] is [undefined] *)
  JSON_stringify : nat -> value -> option string;
  (** [path.join(...segments)] *)
  path_join : list string -> string;
  (** [createHash('sha256').update(s).digest('base64url')] *)
  sha256_base64url : string -> string
}.

(** ** The outside world *)

(** A file-system entry: a regular file with its read and write
    permissions and its content, or a directory. *)
Inductive fs_node : Type :=
| FsFile (readable writable : bool) (data : string)
| FsDir.

Record http_request : Type := mkRequest {
  rq_url : string;
  rq_method : string;
  rq_headers : list (string * string);
  rq_body : option string
}.

(** A response as [fetch] presents it: the header names are lower-case
    and unique (the [Headers] object). *)
Record http_response : Type := mkResponse {
  rs_status : Z;
  rs_headers : list (string * string);
  rs_body : string
}.

(** What the network answers to one [fetch]: a failure of the transport
    (the promise is rejected) or a response. *)
Inductive net_reply : Type :=
| NetError (msg : string)
| NetResponse (r : http_response).

(** A request received by the Authorizer's callback listener: the path
    and the query parameters of the parsed URL, in order. *)
Record callback_request : Type := mkCallback {
  cb_pathname : string;
  cb_searchParams : list (string * string)
}.

Inductive event : Type :=
| EFetch (rq : http_request) (rp : net_reply)
| EWriteFile (path data : string)
| EMkdir (path : string)
| EStdout (args : list value)
| EStderr (args : list value)
| EExec (cmd : string)
| EListen (port : Z)
| EReply (status : Z) (headers : list (string * string)) (body : string)
| EServerClose.

Record world : Type := mkWorld {
  (** [process.env] *)
  env : gmap string string;
  (** the file system *)
  fs : gmap string fs_node;
  (** successive readings of [Date.now()] and the number taken so far *)
  clock : nat -> Z;
  ticks : nat;
  (** the answers of the network to successive [fetch] calls and the
      number consumed so far *)
  net : nat -> net_reply;
  fetched : nat;
  (** [process.argv.slice(2)] *)
  argv : list string;
  (** [process.platform] *)
  os_platform : string;
  (** whether the command that opens the browser succeeds *)
  browser_ok : bool;
  (** successive results of [crypto.randomBytes] *)
  entropy : nat -> string;
  drawn : nat;
  (** requests arriving at the callback listener before the timeout *)
  inbox : list callback_request;
  (** the calls made on the outside world, oldest first *)
  trace : list event
}.

Definition set_fs (f : gmap string fs_node) (w : world) : world :=
  mkWorld (env w) f (clock w) (ticks w) (net w) (fetched w) (argv w)
          (os_platform w) (browser_ok w) (entropy w) (drawn w) (inbox w) (trace w).

Definition set_ticks (n : nat) (w : world) : world :=
  mkWorld (env w) (fs w) (clock w) n (net w) (fetched w) (argv w)
          (os_platform w) (browser_ok w) (entropy w) (drawn w) (inbox w) (trace w).

Definition set_fetched (n : nat) (w : world) : world :=
  mkWorld (env w) (fs w) (clock w) (ticks w) (net w) n (argv w)
          (os_platform w) (browser_ok w) (entropy w) (drawn w) (inbox w) (trace w).

Definition set_drawn (n : nat) (w : world) : world :=
  mkWorld (env w) (fs w) (clock w) (ticks w) (net w) (fetched w) (argv w)
          (os_platform w) (browser_ok w) (entropy w) n (inbox w) (trace w).

Definition set_inbox (l : list callback_request) (w : world) : world :=
  mkWorld (env w) (fs w) (clock w) (ticks w) (net w) (fetched w) (argv w)
          (os_platform w) (browser_ok w) (entropy w) (drawn w) l (trace w).

Definition set_trace (t : list event) (w : world) : world :=
  mkWorld (env w) (fs w) (clock w) (ticks w) (net w) (fetched w) (argv w)
          (os_platform w) (browser_ok w) (entropy w) (drawn w) (inbox w) t.

Definition emit (e : event) (w : world) : world :=
  set_trace (trace w ++ [e]) w.

(** ** The monad of the scripts *)

(** How a computation ends: with a value, with a thrown exception, or
    with [process.exit(code)]. *)
Inductive outcome (A : Type) : Type :=
| Ret (a : A)
| Throw (e : exn)
| Exit (code : Z).

Arguments Ret {A} a.
Arguments Throw {A} e.
Arguments Exit {A} code.

(** The state of a process: its own variables and the outside world. *)
Record st (G : Type) : Type := St {
  globals : G;
  outside : world
}.

Arguments St {G} _ _.
Arguments globals {G} _.
Arguments outside {G} _.

Definition M (G A : Type) : Type := st G -> outcome A * st G.

Definition ret {G A} (a : A) : M G A := fun s => (Ret a, s).

Definition bind {G A B} (m : M G A) (k : A -> M G B) : M G B :=
  fun s =>
    match m s with
    | (Ret a, s') => k a s'
    | (Throw e, s') => (Throw e, s')
    | (Exit c, s') => (Exit c, s')
    end.

Definition throw {G A} (e : exn) : M G A := fun s => (Throw e, s).

(** [process.exit(code)] *)
Definition process_exit {G A} (code : Z) : M G A := fun s => (Exit code, s).

(** [try { m } catch (e) { h e }]; [process.exit] is not an exception. *)
Definition try_catch {G A} (m : M G A) (h : exn -> M G A) : M G A :=
  fun s =>
    match m s with
    | (Throw e, s') => h e s'
    | r => r
    end.

Definition lift {G A} (r : exn + A) : M G A :=
  match r with
  | inl e => throw e
  | inr a => ret a
  end.

Notation "x <- c ;; k" := (bind c (fun x => k))
  (at level 100, c at next level, right associativity).
Notation "c ;; k" := (bind c (fun _ => k))
  (at level 100, right associativity).

Definition get_globals {G} : M G G := fun s => (Ret (globals s), s).
Definition put_globals {G} (g : G) : M G unit :=
  fun s => (Ret tt, St g (outside s)).
Definition get_world {G} : M G world := fun s => (Ret (outside s), s).
Definition put_world {G} (w : world) : M G unit :=
  fun s => (Ret tt, St (globals s) w).

(** [process.env.NAME] *)
Definition process_env {G} (name : string) : M G value :=
  w <- get_world ;;
  ret (match env w !! name with Some v => VStr v | None => VUndef end).

(** [Date.now()] *)
Definition Date_now {G} : M G Z :=
  w <- get_world ;;
  put_world (set_ticks (S (ticks w)) w) ;;
  ret (clock w (ticks w)).

Definition log_event {G} (e : event) : M G unit :=
  w <- get_world ;; put_world (emit e w).

Definition console_log {G} (args : list value) : M G unit := log_event (EStdout args).
Definition console_error {G} (args : list value) : M G unit := log_event (EStderr args).

(** [fetch(url, {method, headers, body})]: the next answer of the
    network; a transport failure rejects with a [TypeError]. *)
Definition fetch {G} (rq : http_request) : M G http_response :=
  w <- get_world ;;
  let rp := net w (fetched w) in
  put_world (emit (EFetch rq rp) (set_fetched (S (fetched w)) w)) ;;
  match rp with
  | NetError msg => throw (TypeError msg)
  | NetResponse r => ret r
  end.

(** [response.ok] *)
Definition rs_ok (r : http_response) : bool :=
  (200 <=? rs_status r) && (rs_status r <=? 299).

Fixpoint assoc (k : string) (l : list (string * string)) : option string :=
  match l with
  | [] => None
  | (k', v) :: rest => if String.eqb k' k then Some v else assoc k rest
  end.

(** [response.headers.get(name)] for a lower-case [name]; also
    [url.searchParams.get(name)] *)
Definition headers_get (l : list (string * string)) (name : string) : value :=
  match assoc name l with
  | Some v => VStr v
  | None => VNull
  end.

(** [fs.existsSync(path)] *)
Definition existsSync {G} (path : string) : M G bool :=
  w <- get_world ;;
  ret (match fs w !! path with Some _ => true | None => false end).

(** [fs.readFileSync(path, 'utf8')] *)
Definition readFileSync {G} (path : string) : M G string :=
  w <- get_world ;;
  match fs w !! path with
  | Some (FsFile true _ data) => ret data
  | Some (FsFile false _ _) =>
      throw (Error ("EACCES: permission denied, open '" ++ path ++ "'"))
  | Some FsDir => throw (Error "EISDIR: illegal operation on a directory, read")
  | None => throw (Error ("ENOENT: no such file or directory, open '" ++ path ++ "'"))
  end.

(** [fs.writeFileSync(path, data)]; the directory of [path] exists and
    can be written. *)
Definition writeFileSync {G} (path data : string) : M G unit :=
  log_event (EWriteFile path data) ;;
  w <- get_world ;;
  match fs w !! path with
  | Some (FsFile r true _) => put_world (set_fs (<[path := FsFile r true data]> (fs w)) w)
  | Some (FsFile _ false _) =>
      throw (Error ("EACCES: permission denied, open '" ++ path ++ "'"))
  | Some FsDir =>
      throw (Error ("EISDIR: illegal operation on a directory, open '" ++ path ++ "'"))
  | None => put_world (set_fs (<[path := FsFile true true data]> (fs w)) w)
  end.

(** [fs.mkdirSync(path, { recursive: true })] *)
Definition mkdirSync {G} (path : string) : M G unit :=
  log_event (EMkdir path) ;;
  w <- get_world ;;
  match fs w !! path with
  | Some FsDir => ret tt
  | Some (FsFile _ _ _) =>
      throw (Error ("EEXIST: file already exists, mkdir '" ++ path ++ "'"))
  | None => put_world (set_fs (<[path := FsDir]> (fs w)) w)
  end.

(** [child_process.execSync(cmd)] *)
Definition execSync {G} (cmd : string) : M G unit :=
  log_event (EExec cmd) ;;
  w <- get_world ;;
  if browser_ok w then ret tt else throw (Error ("Command failed: " ++ cmd)).

(** [crypto.randomBytes(n)], the bytes as a string *)
Definition randomBytes {G} (n : nat) : M G string :=
  w <- get_world ;;
  put_world (set_drawn (S (drawn w)) w) ;;
  ret (entropy w (drawn w)).

(** The exit status of a script whose top level runs [m]: normal
    completion is [0], and an exception that nothing catches ends the
    process with status [1]. *)
Definition exit_status {A} (o : outcome A) : Z :=
  match o with
  | Ret _ => 0
  | Throw _ => 1
  | Exit c => c
  end.

Definition MCP_BASE : string := "https://mcp.cirra.ai".

(** [path.join(process.env.HOME, ...segments)]: a [TypeError] when
    [HOME] is not set. *)
Definition home_path {G} `{P : Platform} (segments : list string) : M G string :=
  home <- process_env "HOME" ;;
  match home with
  | VStr h => ret (path_join (h :: segments))
  | _ => throw (TypeError "The path argument must be of type string. Received undefined")
  end.

(** ** [URLSearchParams]

    The [application/x-www-form-urlencoded] serializer: letters, digits
    and [*-._] are kept, a space becomes [+], every other byte is
    percent-encoded. *)

Definition hex_digit (n : nat) : ascii :=
  ascii_of_nat (if Nat.ltb n 10 then 48 + n else 55 + n).

Definition is_alnum (a : ascii) : bool :=
  let n := nat_of_ascii a in
  ((Nat.leb 48 n && Nat.leb n 57) || (Nat.leb 65 n && Nat.leb n 90) ||
   (Nat.leb 97 n && Nat.leb n 122))%bool.

Definition form_encode_byte (a : ascii) : string :=
  let n := nat_of_ascii a in
  if (is_alnum a || Nat.eqb n 42 || Nat.eqb n 45 || Nat.eqb n 46 || Nat.eqb n 95)%bool
  then String a EmptyString
  else if Nat.eqb n 32 then "+"
  else String "%" (String (hex_digit (Nat.div n 16))
                     (String (hex_digit (Nat.modulo n 16)) EmptyString)).

Fixpoint form_encode (s : string) : string :=
  match s with
  | EmptyString => EmptyString
  | String a s' => form_encode_byte a ++ form_encode s'
  end.

(** [new URLSearchParams(pairs).toString()] *)
Definition URLSearchParams_toString (pairs : list (string * string)) : string :=
  join "&" (map (fun p => form_encode (fst p) ++ "=" ++ form_encode (snd p)) pairs).

(** ** [Buffer] encodings *)

Definition lower_hex_digit (n : nat) : ascii :=
  ascii_of_nat (if Nat.ltb n 10 then 48 + n else 87 + n).

(** [buf.toString('hex')] *)
Fixpoint to_hex (s : string) : string :=
  match s with
  | EmptyString => EmptyString
  | String a s' =>
      let n := nat_of_ascii a in
      String (lower_hex_digit (Nat.div n 16))
        (String (lower_hex_digit (Nat.modulo n 16)) (to_hex s'))
  end.

Definition base64url_digit (n : nat) : ascii :=
  ascii_of_nat
    (if Nat.ltb n 26 then 65 + n
     else if Nat.ltb n 52 then 71 + n
     else if Nat.ltb n 62 then n - 4
     else if Nat.eqb n 62 then 45 else 95).

(** [buf.toString('base64url')]: no padding *)
Fixpoint to_base64url (s : string) : string :=
  match s with
  | EmptyString => EmptyString
  | String a EmptyString =>
      let x := nat_of_ascii a in
      String (base64url_digit (Nat.div x 4))
        (String (base64url_digit (Nat.modulo x 4 * 16)) EmptyString)
  | String a (String b EmptyString) =>
      let x := nat_of_ascii a in
      let y := nat_of_ascii b in
      String (base64url_digit (Nat.div x 4))
        (String (base64url_digit (Nat.modulo x 4 * 16 + Nat.div y 16))
           (String (base64url_digit (Nat.modulo y 16 * 4)) EmptyString))
  | String a (String b (String c rest)) =>
      let x := nat_of_ascii a in
      let y := nat_of_ascii b in
      let z := nat_of_ascii c in
      String (base64url_digit (Nat.div x 4))
        (String (base64url_digit (Nat.modulo x 4 * 16 + Nat.div y 16))
           (String (base64url_digit (Nat.modulo y 16 * 4 + Nat.div z 64))
              (String (base64url_digit (Nat.modulo z 64)) (to_base64url rest))))
  end.

(** * The Tool Invoker, [call-tool.js] *)

Module Invoker.

(** The module-level variables [sessionId] and [messageId], and the
    object that [main] binds to [tokens]: every function that takes a
    [tokens] argument receives a reference to this one object, that
    [refreshTokens] updates in place. *)
Record vars : Type := mkVars {
  sessionId : value;
  messageId : Z;
  tokens : value
}.

Definition initial_vars : vars := mkVars VNull 0 VUndef.

Definition I (A : Type) : Type := M vars A.

Definition get_tokens : I value := g <- get_globals ;; ret (tokens g).
Definition set_tokens (t : value) : I unit :=
  g <- get_globals ;; put_globals (mkVars (sessionId g) (messageId g) t).
Definition get_sessionId : I value := g <- get_globals ;; ret (sessionId g).
Definition set_sessionId (v : value) : I unit :=
  g <- get_globals ;; put_globals (mkVars v (messageId g) (tokens g)).

(** [++messageId] *)
Definition next_messageId : I Z :=
  g <- get_globals ;;
  put_globals (mkVars (sessionId g) (messageId g + 1) (tokens g)) ;;
  ret (messageId g + 1).

(** [tokens.k = v] on the shared object *)
Definition tokens_set (k : string) (v : value) : I unit :=
  t <- get_tokens ;;
  t' <- lift (set_prop t k v) ;;
  set_tokens t'.

Section WithPlatform.
Context `{P : Platform}.

(** [JSON.parse(text)], throwing *)
Definition JSON_parse_throw {G} (text : string) : M G value :=
  match JSON_parse text with
  | inl msg => throw (SyntaxError msg)
  | inr v => ret v
  end.

Definition tokenPath : I string :=
  home_path [".mcporter"; "cirra-tokens.json"].

(** [Some v] records a [return v] from inside a block. *)
Definition loadTokens : I value :=
  cache <- process_env "CIRRA_OAUTH_CACHE" ;;
  returned <-
    (if truthy cache then
       match JSON_parse (to_string cache) with
       | inr v => ret (Some v)
       | inl msg =>
           console_error [VStr "Failed to parse CIRRA_OAUTH_CACHE:"; VStr msg] ;;
           ret None
       end
     else ret None) ;;
  match returned with
  | Some v => ret v
  | None =>
      tokenPath <- tokenPath ;;
      present <- existsSync tokenPath ;;
      returned <-
        (if present then
           try_catch
             (data <- readFileSync tokenPath ;;
              v <- JSON_parse_throw data ;;
              ret (Some v))
             (fun e =>
                console_error [VStr "Failed to read tokens file:"; VStr (message e)] ;;
                ret None)
         else ret None) ;;
      match returned with
      | Some v => ret v
      | None => ret VNull
      end
  end.

Definition refreshTokens : I value :=
  tokens <- get_tokens ;;
  refresh_token <- lift (get_prop tokens "refresh_token") ;;
  if negb (truthy refresh_token) then throw (Error "No refresh token available")
  else
    client_id <- lift (get_prop tokens "client_id") ;;
    let params := URLSearchParams_toString
                    [("grant_type", "refresh_token");
                     ("refresh_token", to_string refresh_token);
                     ("client_id", to_string client_id)] in
    response <- fetch (mkRequest (MCP_BASE ++ "/token") "POST"
                         [("Content-Type", "application/x-www-form-urlencoded")]
                         (Some params)) ;;
    if negb (rs_ok response)
    then throw (Error ("Token refresh failed: " ++ pretty (rs_status response)))
    else
      newTokens <- JSON_parse_throw (rs_body response) ;;
      (* Update token data *)
      access_token <- lift (get_prop newTokens "access_token") ;;
      tokens_set "access_token" access_token ;;
      new_refresh_token <- lift (get_prop newTokens "refresh_token") ;;
      (if truthy new_refresh_token
       then tokens_set "refresh_token" new_refresh_token
       else ret tt) ;;
      expires_in <- lift (get_prop newTokens "expires_in") ;;
      expires_at <-
        (if truthy expires_in
         then now <- Date_now ;;
              ret (of_number (option_map (fun n => now + n * 1000)
                                         (to_number expires_in)))
         else ret VNull) ;;
      tokens_set "expires_at" expires_at ;;
      (* Save updated tokens (only if running locally) *)
      cache <- process_env "CIRRA_OAUTH_CACHE" ;;
      (if negb (truthy cache) then
         tokenPath <- tokenPath ;;
         tokens <- get_tokens ;;
         match JSON_stringify 2 tokens with
         | Some data => writeFileSync tokenPath data
         | None => throw (TypeError "The data argument must be of type string")
         end
       else ret tt) ;;
      get_tokens.

(** [try { JSON.parse(v) } catch { v }], the value stored for an
    argument; [v] is [undefined] when the argument list ends after a
    [--key]. *)
Definition parse_or_raw (v : value) : value :=
  match JSON_parse (to_string v) with
  | inr parsed => parsed
  | inl _ => v
  end.

(** [params[key] = v]: assigning to [__proto__] creates no own
    property. *)
Definition assign_param (key : string) (v : value) (params : list (string * value))
  : list (string * value) :=
  if String.eqb key "__proto__" then params else insert_prop key v params.

(** The loop of [parseArgs], on [args[1..]]. *)
Fixpoint parseArgs_loop (args : list string) (params : list (string * value))
  : list (string * value) :=
  match args with
  | [] => params
  | arg :: rest =>
      if startsWith arg "--" then
        let key := slice 2 arg in
        match rest with
        | [] => assign_param key (parse_or_raw VUndef) params
        | value :: rest' =>
            parseArgs_loop rest' (assign_param key (parse_or_raw (VStr value)) params)
        end
      else if includes arg ":" then
        match split ":" arg with
        | key :: valueParts =>
            parseArgs_loop rest
              (assign_param key (parse_or_raw (VStr (join ":" valueParts))) params)
        | [] => parseArgs_loop rest params
        end
      else parseArgs_loop rest params
  end.

(** [parseArgs(args)]: the pair [{ toolName, params }] *)
Definition parseArgs (args : list string) : value * value :=
  match args with
  | [] => (VUndef, VObj [])
  | toolName :: rest => (VStr toolName, VObj (parseArgs_loop rest []))
  end.

(** One iteration of the loop of [parseSSEResponse]. *)
Definition sse_step (result : value) (line : string) : value :=
  if startsWith line "data: " then
    let data := slice 6 line in
    if truthy (VStr (trim data)) then
      match JSON_parse data with
      | inr parsed =>
          (* Look for the response message *)
          match get_prop parsed "jsonrpc", get_prop parsed "id" with
          | inr jsonrpc, inr id =>
              if strict_eq_str jsonrpc "2.0" && is_defined id then parsed else result
          | _, _ => result
          end
      | inl _ => result
      end
    else result
  else result.

Definition parseSSEResponse (text : string) : value :=
  fold_left sse_step (split newline text) VNull.

(** The object [{ jsonrpc: '2.0', id, method, params }]. *)
Definition jsonrpc_request (id : Z) (method : string) (params : value) : value :=
  VObj [("jsonrpc", VStr "2.0"); ("id", VNum id); ("method", VStr method);
        ("params", params)].

(** The headers of an MCP request. *)
Definition mcp_headers (access_token : value) (isInitialize : bool) (sessionId : value)
  : list (string * string) :=
  [("Content-Type", "application/json");
   ("Accept", "application/json, text/event-stream");
   ("Authorization", "Bearer " ++ to_string access_token)] ++
  (* Add session ID for non-initialize calls *)
  (if negb isInitialize && truthy sessionId
   then [("Mcp-Session-Id", to_string sessionId)]
   else []).

(** [mcpCall(tokens, method, params, isInitialize)] *)
Definition mcpCall (method : string) (params : value) (isInitialize : bool) : I value :=
  (* Check if token is expired *)
  tokens <- get_tokens ;;
  expires_at <- lift (get_prop tokens "expires_at") ;;
  expired <-
    (if truthy expires_at
     then now <- Date_now ;;
          ret (match to_number expires_at with
               | Some e => now >? e - 60000
               | None => false
               end)
     else ret false) ;;
  (if expired : bool
   then console_error [VStr "Token expired, refreshing..."] ;;
        _ <- refreshTokens ;; ret tt
   else ret tt) ;;
  id <- next_messageId ;;
  let request := jsonrpc_request id method params in
  tokens <- get_tokens ;;
  access_token <- lift (get_prop tokens "access_token") ;;
  sessionId <- get_sessionId ;;
  let headers := mcp_headers access_token isInitialize sessionId in
  response <- fetch (mkRequest (MCP_BASE ++ "/mcp") "POST" headers
                       (JSON_stringify 0 request)) ;;
  (* Capture session ID from response header *)
  let newSessionId := headers_get (rs_headers response) "mcp-session-id" in
  (if truthy newSessionId then set_sessionId newSessionId else ret tt) ;;
  if negb (rs_ok response) then
    throw (Error ("MCP call failed: " ++ pretty (rs_status response) ++ " " ++
                  rs_body response))
  else
    let contentType :=
      let ct := headers_get (rs_headers response) "content-type" in
      if truthy ct then to_string ct else EmptyString in
    (* Handle SSE response *)
    if includes contentType "text/event-stream" then
      let result := parseSSEResponse (rs_body response) in
      if truthy result then ret result
      else throw (Error "No response received from SSE stream")
    else
      (* Handle regular JSON response *)
      JSON_parse_throw (rs_body response).

Definition initializeSession : I value :=
  result <- mcpCall "initialize"
              (VObj [("protocolVersion", VStr "2024-11-05");
                     ("capabilities",
                      VObj [("roots", VObj [("listChanged", VBool false)]);
                            ("sampling", VObj [])]);
                     ("clientInfo",
                      VObj [("name", VStr "openclaw-mcp-client");
                            ("version", VStr "1.0.0")])])
              true ;;
  error <- lift (get_prop result "error") ;;
  (if truthy error then
     msg <- lift (get_prop error "message") ;;
     throw (Error ("Initialize failed: " ++ to_string msg))
   else ret tt) ;;
  (* Send initialized notification *)
  _ <- mcpCall "notifications/initialized" (VObj []) false ;;
  ret result.

Definition callTool (toolName params : value) : I value :=
  mcpCall "tools/call" (VObj [("name", toolName); ("arguments", params)]) false.

Definition listTools : I value :=
  mcpCall "tools/list" (VObj []) false.

(** [JSON.stringify(v, null, 2)] as a value *)
Definition stringify_pretty (v : value) : value :=
  match JSON_stringify 2 v with
  | Some s => VStr s
  | None => VUndef
  end.

Fixpoint chars (s : string) : list value :=
  match s with
  | EmptyString => []
  | String a s' => VStr (String a EmptyString) :: chars s'
  end.

(** The items that [for (const item of content)] visits. *)
Definition iterate (content : value) : exn + list value :=
  match content with
  | VArr items => inr items
  | VStr s => inr (chars s)
  | _ => inl (TypeError "result.result.content is not iterable")
  end.

Definition print_item (item : value) : I unit :=
  type <- lift (get_prop item "type") ;;
  if strict_eq_str type "text" then
    text <- lift (get_prop item "text") ;;
    console_log [text]
  else if strict_eq_str type "image" then
    mimeType <- lift (get_prop item "mimeType") ;;
    console_log [VStr ("[Image: " ++ to_string mimeType ++ "]")]
  else console_log [stringify_pretty item].

Fixpoint for_each (items : list value) (body : value -> I unit) : I unit :=
  match items with
  | [] => ret tt
  | item :: rest => body item ;; for_each rest body
  end.

Definition report_and_exit (err : exn) : I unit :=
  console_error [VStr "Error:"; VStr (message err)] ;;
  process_exit 1.

Definition main : I unit :=
  w <- get_world ;;
  let args := argv w in
  match args with
  | [] =>
      console_error [VStr "Usage: node call-tool.js <tool_name> [--arg value ...]"] ;;
      console_error [VStr "       node call-tool.js --list"] ;;
      console_error [VStr EmptyString] ;;
      console_error [VStr "Examples:"] ;;
      console_error [VStr ("  node call-tool.js search --query " ++ dquote ++
                           "AI agents" ++ dquote)] ;;
      console_error [VStr "  node call-tool.js --list"] ;;
      process_exit 1
  | arg0 :: _ =>
      (* Load tokens *)
      loaded <- loadTokens ;;
      set_tokens loaded ;;
      if negb (truthy loaded) then
        console_error [VStr "No OAuth tokens found."] ;;
        console_error [VStr "Run: node oauth-flow.js"] ;;
        console_error [VStr "Or set CIRRA_OAUTH_CACHE environment variable"] ;;
        process_exit 1
      else
        (* Initialize session first *)
        try_catch (_ <- initializeSession ;; ret tt)
          (fun err =>
             console_error [VStr "Failed to initialize MCP session:"; VStr (message err)] ;;
             process_exit 1) ;;
        if String.eqb arg0 "--list" then
          (* Handle --list command *)
          try_catch
            (result <- listTools ;;
             error <- lift (get_prop result "error") ;;
             (if truthy error then
                msg <- lift (get_prop error "message") ;;
                console_error [VStr "Error:"; msg] ;;
                process_exit 1
              else ret tt) ;;
             payload <- lift (get_prop result "result") ;;
             console_log [stringify_pretty payload])
            report_and_exit
        else
          (* Parse tool call *)
          let (toolName, params) := parseArgs args in
          try_catch
            (result <- callTool toolName params ;;
             error <- lift (get_prop result "error") ;;
             (if truthy error then
                msg <- lift (get_prop error "message") ;;
                console_error [VStr "Error:"; msg] ;;
                process_exit 1
              else ret tt) ;;
             (* Format output *)
             payload <- lift (get_prop result "result") ;;
             content <- match payload with
                        | VUndef | VNull => ret VUndef
                        | _ => lift (get_prop payload "content")
                        end ;;
             if truthy content then
               items <- lift (iterate content) ;;
               for_each items print_item
             else console_log [stringify_pretty payload])
            report_and_exit
  end.

End WithPlatform.

End Invoker.

(** * The Authorizer, [oauth-flow.js] *)

Module Authorizer.

(** The script has no module-level variable that changes. *)
Definition A (T : Type) : Type := M unit T.

Definition CALLBACK_PORT : Z := 8976.
Definition REDIRECT_URI : string :=
  "http://localhost:" ++ pretty CALLBACK_PORT ++ "/callback".

(** The object [{ verifier, challenge }] of [generatePKCE]. *)
Record pkce_pair : Type := mkPKCE {
  verifier : string;
  challenge : string
}.

(** How the promise of [startCallbackServer] is settled. *)
Inductive settlement : Type :=
| Resolved (v : value)
| Rejected (e : exn).

Definition html : list (string * string) := [("Content-Type", "text/html")].

(** [res.writeHead(status, headers); res.end(body)] *)
Definition respond (status : Z) (headers : list (string * string)) (body : string)
  : A unit :=
  log_event (EReply status headers body).

(** [server.close()] *)
Definition server_close : A unit := log_event EServerClose.

Definition success_page : string :=
  nl ++ "          <h1>Success!</h1>" ++
  nl ++ "          <p>You can close this window and return to your terminal.</p>" ++
  nl ++ "          <script>window.close()</script>" ++
  nl ++ "        ".

Section WithPlatform.
Context `{P : Platform}.

(** [response.json()] *)
Definition response_json (r : http_response) : A value :=
  match JSON_parse (rs_body r) with
  | inl msg => throw (SyntaxError msg)
  | inr v => ret v
  end.

(** Generate PKCE challenge *)
Definition generatePKCE : A pkce_pair :=
  bytes <- randomBytes 32 ;;
  let verifier := to_base64url bytes in
  ret (mkPKCE verifier (sha256_base64url verifier)).

(** Generate state for CSRF protection *)
Definition generateState : A string :=
  bytes <- randomBytes 16 ;;
  ret (to_hex bytes).

(** Dynamic client registration *)
Definition registerClient : A value :=
  response <- fetch (mkRequest (MCP_BASE ++ "/register") "POST"
                       [("Content-Type", "application/json")]
                       (JSON_stringify 0
                          (VObj [("client_name", VStr "OpenClaw MCP Client");
                                 ("redirect_uris", VArr [VStr REDIRECT_URI]);
                                 ("grant_types",
                                  VArr [VStr "authorization_code"; VStr "refresh_token"]);
                                 ("response_types", VArr [VStr "code"]);
                                 ("token_endpoint_auth_method", VStr "none")]))) ;;
  if negb (rs_ok response) then
    throw (Error ("Client registration failed: " ++ pretty (rs_status response) ++
                  " " ++ rs_body response))
  else response_json response.

(** Exchange authorization code for tokens *)
Definition exchangeCode (code clientId : value) (codeVerifier : string) : A value :=
  let params := URLSearchParams_toString
                  [("grant_type", "authorization_code");
                   ("code", to_string code);
                   ("redirect_uri", REDIRECT_URI);
                   ("client_id", to_string clientId);
                   ("code_verifier", codeVerifier)] in
  response <- fetch (mkRequest (MCP_BASE ++ "/token") "POST"
                       [("Content-Type", "application/x-www-form-urlencoded")]
                       (Some params)) ;;
  if negb (rs_ok response) then
    throw (Error ("Token exchange failed: " ++ pretty (rs_status response) ++
                  " " ++ rs_body response))
  else response_json response.

(** Open URL in browser *)
Definition openBrowser (url : string) : A unit :=
  w <- get_world ;;
  let cmd := if String.eqb (os_platform w) "darwin" then "open"
             else if String.eqb (os_platform w) "win32" then "start"
             else "xdg-open" in
  execSync (cmd ++ " " ++ dquote ++ url ++ dquote).

(** The request listener of the callback server.  The result is
    [Some] when the request settles the promise and [None] when it
    leaves the server waiting. *)
Definition callback_listener (state : string) (pkce : pkce_pair) (clientId : value)
  (req : callback_request) : A (option settlement) :=
  if negb (String.eqb (cb_pathname req) "/callback") then
    respond 404 [] "Not found" ;;
    ret None
  else
    let code := headers_get (cb_searchParams req) "code" in
    let returnedState := headers_get (cb_searchParams req) "state" in
    let error := headers_get (cb_searchParams req) "error" in
    if truthy error then
      respond 400 html
        ("<h1>Error</h1><p>" ++ to_string error ++ ": " ++
         to_string (headers_get (cb_searchParams req) "error_description") ++ "</p>") ;;
      server_close ;;
      ret (Some (Rejected (Error (to_string error))))
    else if negb (strict_eq_str returnedState state) then
      respond 400 html "<h1>Error</h1><p>State mismatch - possible CSRF attack</p>" ;;
      server_close ;;
      ret (Some (Rejected (Error "State mismatch")))
    else
      try_catch
        (tokens <- exchangeCode code clientId (verifier pkce) ;;
         respond 200 html success_page ;;
         server_close ;;
         ret (Some (Resolved (VObj [("tokens", tokens); ("clientId", clientId)]))))
        (fun err =>
           respond 500 html ("<h1>Error</h1><p>" ++ message err ++ "</p>") ;;
           server_close ;;
           ret (Some (Rejected err))).

(** The life of the promise: the requests are handled in order until
    one settles it; when none does, the timer fires. *)
Fixpoint await_callback (state : string) (pkce : pkce_pair) (clientId : value)
  (requests : list callback_request) : A value :=
  match requests with
  | [] =>
      (* Timeout after 5 minutes *)
      server_close ;;
      throw (Error "OAuth flow timed out")
  | req :: rest =>
      settled <- callback_listener state pkce clientId req ;;
      match settled with
      | Some (Resolved v) => ret v
      | Some (Rejected e) => throw e
      | None => await_callback state pkce clientId rest
      end
  end.

(** Start local server to receive OAuth callback: the server listens,
    and the promise returned is the computation that awaiting it runs. *)
Definition startCallbackServer (state : string) (pkce : pkce_pair) (clientId : value)
  : A (A value) :=
  log_event (EListen CALLBACK_PORT) ;;
  console_log [VStr ("Callback server listening on port " ++ pretty CALLBACK_PORT)] ;;
  ret (w <- get_world ;; await_callback state pkce clientId (inbox w)).

(** The object literal [tokenData] of [main], built from the value
    [result] of the settled promise; the clock is read only when the
    lifetime is truthy. *)
Definition tokenData (result : value) : A value :=
  clientId <- lift (get_prop result "clientId") ;;
  tokens <- lift (get_prop result "tokens") ;;
  access_token <- lift (get_prop tokens "access_token") ;;
  refresh_token <- lift (get_prop tokens "refresh_token") ;;
  token_type <- lift (get_prop tokens "token_type") ;;
  expires_in <- lift (get_prop tokens "expires_in") ;;
  expires_at <-
    (if truthy expires_in
     then now <- Date_now ;;
          ret (of_number (option_map (fun n => now + n * 1000) (to_number expires_in)))
     else ret VNull) ;;
  scope <- lift (get_prop tokens "scope") ;;
  ret (VObj [("server", VStr "cirra");
             ("url", VStr MCP_BASE);
             ("client_id", clientId);
             ("access_token", access_token);
             ("refresh_token", refresh_token);
             ("token_type", token_type);
             ("expires_at", expires_at);
             ("scope", scope)]).

Definition main : A unit :=
  console_log [VStr ("Starting OAuth flow for Cirra AI..." ++ nl)] ;;
  (* Step 1: Register client *)
  console_log [VStr "1. Registering OAuth client..."] ;;
  client <-
    try_catch
      (client <- registerClient ;;
       client_id <- lift (get_prop client "client_id") ;;
       console_log [VStr ("   Client ID: " ++ to_string client_id ++ nl)] ;;
       ret client)
      (fun err =>
         console_error [VStr ("   Failed to register client: " ++ message err)] ;;
         process_exit 1) ;;
  (* Step 2: Generate PKCE and state *)
  pkce <- generatePKCE ;;
  state <- generateState ;;
  (* Step 3: Build authorization URL *)
  client_id <- lift (get_prop client "client_id") ;;
  let authParams := URLSearchParams_toString
                      [("response_type", "code");
                       ("client_id", to_string client_id);
                       ("redirect_uri", REDIRECT_URI);
                       ("state", state);
                       ("code_challenge", challenge pkce);
                       ("code_challenge_method", "S256")] in
  let authUrl := MCP_BASE ++ "/authorize?" ++ authParams in
  (* Step 4: Start callback server and open browser *)
  console_log [VStr "2. Opening browser for authorization..."] ;;
  console_log [VStr ("   URL: " ++ authUrl ++ nl)] ;;
  serverPromise <- startCallbackServer state pkce client_id ;;
  openBrowser authUrl ;;
  (* Step 5: Wait for callback *)
  console_log [VStr "3. Waiting for authorization..."] ;;
  result <-
    try_catch
      (result <- serverPromise ;;
       console_log [VStr ("   Authorization successful!" ++ nl)] ;;
       ret result)
      (fun err =>
         console_error [VStr ("   Authorization failed: " ++ message err)] ;;
         process_exit 1) ;;
  (* Step 6: Save tokens *)
  mcporterDir <- home_path [".mcporter"] ;;
  present <- existsSync mcporterDir ;;
  (if negb present then mkdirSync mcporterDir else ret tt) ;;
  tokenData <- tokenData result ;;
  let tokenPath := path_join [mcporterDir; "cirra-tokens.json"] in
  match JSON_stringify 2 tokenData with
  | None => throw (TypeError "The data argument must be of type string")
  | Some data =>
      writeFileSync tokenPath data ;;
      console_log [VStr ("4. Tokens saved to " ++ tokenPath)] ;;
      (* Also save in format for CIRRA_OAUTH_CACHE env var *)
      console_log [VStr (nl ++ "--- Copy this for CIRRA_OAUTH_CACHE secret ---")] ;;
      console_log [match JSON_stringify 0 tokenData with
                   | Some s => VStr s
                   | None => VUndef
                   end] ;;
      console_log [VStr ("----------------------------------------------" ++ nl)] ;;
      console_log [VStr "Done! You can now use the Cirra AI MCP server."]
  end.

(** [main().catch(err => { console.error('Fatal error:', err); process.exit(1) })] *)
Definition script : A unit :=
  try_catch main
    (fun err =>
       console_error [VStr "Fatal error:";
                      VObj [("name", VStr (match err with JsError n _ => n end));
                            ("message", VStr (message err))]] ;;
       process_exit 1).

End WithPlatform.

End Authorizer.

(** * A concrete platform

    [node] implements the built-ins on the fragment of JSON whose
    numbers denote integers, for running the scripts on examples. *)

Module Node.

(** The result of a parser: a message, or the value and the rest of the
    text. *)
Definition parsed (T : Type) : Type := string + (T * string).

Definition is_json_space (a : ascii) : bool :=
  let n := nat_of_ascii a in
  (Nat.eqb n 32 || Nat.eqb n 9 || Nat.eqb n 10 || Nat.eqb n 13)%bool.

Fixpoint skip_ws (s : string) : string :=
  match s with
  | EmptyString => EmptyString
  | String a s' => if is_json_space a then skip_ws s' else s
  end.

Definition unexpected_end : string := "Unexpected end of JSON input".
Definition unexpected_token : string := "Unexpected token in JSON".
Definition unsupported : string := "outside the modelled fragment of JSON".

Definition hex_value (a : ascii) : option nat :=
  let n := nat_of_ascii a in
  if (Nat.leb 48 n && Nat.leb n 57)%bool then Some (n - 48)%nat
  else if (Nat.leb 65 n && Nat.leb n 70)%bool then Some (n - 55)%nat
  else if (Nat.leb 97 n && Nat.leb n 102)%bool then Some (n - 87)%nat
  else None.

(** The UTF-8 bytes of a code point of the basic plane. *)
Definition utf8 (c : nat) : string :=
  if Nat.ltb c 128 then String (ascii_of_nat c) EmptyString
  else if Nat.ltb c 2048 then
    String (ascii_of_nat (192 + Nat.div c 64))
      (String (ascii_of_nat (128 + Nat.modulo c 64)) EmptyString)
  else
    String (ascii_of_nat (224 + Nat.div c 4096))
      (String (ascii_of_nat (128 + Nat.modulo (Nat.div c 64) 64))
         (String (ascii_of_nat (128 + Nat.modulo c 64)) EmptyString)).

(** The characters of a string literal after the opening quote. *)
Fixpoint parse_chars (s : string) : parsed string :=
  match s with
  | EmptyString => inl unexpected_end
  | String a s' =>
      let n := nat_of_ascii a in
      if Nat.eqb n 34 then inr (EmptyString, s')
      else if Nat.ltb n 32 then inl unexpected_token
      else if Nat.eqb n 92 then
        match s' with
        | EmptyString => inl unexpected_end
        | String e s2 =>
            let simple (c : nat) :=
              match parse_chars s2 with
              | inr (t, rest) => inr (String (ascii_of_nat c) t, rest)
              | inl m => inl m
              end in
            if Ascii.eqb e "b" then simple 8%nat
            else if Ascii.eqb e "f" then simple 12%nat
            else if Ascii.eqb e "n" then simple 10%nat
            else if Ascii.eqb e "r" then simple 13%nat
            else if Ascii.eqb e "t" then simple 9%nat
            else if Ascii.eqb e "/" then simple 47%nat
            else if Nat.eqb (nat_of_ascii e) 92 then simple 92%nat
            else if Nat.eqb (nat_of_ascii e) 34 then simple 34%nat
            else if Ascii.eqb e "u" then
              match s2 with
              | String h1 (String h2 (String h3 (String h4 s3))) =>
                  match hex_value h1, hex_value h2, hex_value h3, hex_value h4 with
                  | Some d1, Some d2, Some d3, Some d4 =>
                      let c := (((d1 * 16 + d2) * 16 + d3) * 16 + d4)%nat in
                      (* surrogates are not combined *)
                      if (Nat.eqb d1 13 && Nat.leb 8 d2)%bool then inl unsupported
                      else
                        match parse_chars s3 with
                        | inr (t, rest) => inr (utf8 c ++ t, rest)
                        | inl m => inl m
                        end
                  | _, _, _, _ => inl unexpected_token
                  end
              | _ => inl unexpected_end
              end
            else inl unexpected_token
        end
      else
        match parse_chars s' with
        | inr (t, rest) => inr (String a t, rest)
        | inl m => inl m
        end
  end.

(** The longest prefix of digits and the rest. *)
Fixpoint span_digits (s : string) : string * string :=
  match s with
  | EmptyString => (EmptyString, EmptyString)
  | String a s' =>
      if is_digit a
      then let (d, rest) := span_digits s' in (String a d, rest)
      else (EmptyString, s)
  end.

Definition digits_Z (d : string) : Z :=
  match digits_value 0 d with
  | Some n => n
  | None => 0
  end.

(** A number literal, after the optional minus sign: integer part,
    optional fraction, optional exponent.  The literal must denote an
    integer. *)
Definition parse_number (negative : bool) (s : string) : parsed value :=
  let (int_part, s1) := span_digits s in
  match int_part with
  | EmptyString =>
      match s with
      | EmptyString => inl unexpected_end
      | _ => inl unexpected_token
      end
  | String lead more =>
      if (Ascii.eqb lead "0" && negb (String.eqb more EmptyString))%bool
      then inl unexpected_token
      else
        let frac_result : parsed string :=
          match s1 with
          | String dot s2 =>
              if Ascii.eqb dot "." then
                let (frac, s3) := span_digits s2 in
                match frac with
                | EmptyString =>
                    match s2 with
                    | EmptyString => inl unexpected_end
                    | _ => inl unexpected_token
                    end
                | _ => inr (frac, s3)
                end
              else inr (EmptyString, s1)
          | EmptyString => inr (EmptyString, s1)
          end in
        match frac_result with
        | inl m => inl m
        | inr (frac, s3) =>
            let exp_result : parsed Z :=
              match s3 with
              | String e s4 =>
                  if (Ascii.eqb e "e" || Ascii.eqb e "E")%bool then
                    let (sign, s5) :=
                      match s4 with
                      | String c s5 =>
                          if Ascii.eqb c "-" then (-1, s5)
                          else if Ascii.eqb c "+" then (1, s5)
                          else (1, s4)
                      | EmptyString => (1, s4)
                      end in
                    let (ds, s6) := span_digits s5 in
                    match ds with
                    | EmptyString =>
                        match s5 with
                        | EmptyString => inl unexpected_end
                        | _ => inl unexpected_token
                        end
                    | _ => inr (sign * digits_Z ds, s6)
                    end
                  else inr (0, s3)
              | EmptyString => inr (0, s3)
              end in
            match exp_result with
            | inl m => inl m
            | inr (e, rest) =>
                let mantissa := digits_Z (int_part ++ frac) in
                let k := e - Z.of_nat (String.length frac) in
                let signed (n : Z) := if negative then - n else n in
                if 0 <=? k then inr (VNum (signed (mantissa * 10 ^ k)), rest)
                else if mantissa mod 10 ^ (- k) =? 0
                     then inr (VNum (signed (mantissa / 10 ^ (- k))), rest)
                     else inl unsupported
            end
        end
  end.

Definition expect_literal (lit : string) (v : value) (s : string) : parsed value :=
  if String.prefix lit s then inr (v, slice (String.length lit) s)
  else if String.prefix s lit then inl unexpected_end
  else inl unexpected_token.

Definition char_is (a : ascii) (n : nat) : bool := Nat.eqb (nat_of_ascii a) n.

(** Values, the elements of an array after [[] or [,], and the members
    of an object after [{] or [,].  Members are added with [insert_prop]:
    a repeated name keeps its first place and its last value. *)
Fixpoint parse_value (fuel : nat) (s : string) : parsed value :=
  match fuel with
  | O => inl unsupported
  | S fuel' =>
      match skip_ws s with
      | EmptyString => inl unexpected_end
      | String a s' =>
          if char_is a 123 then
            match skip_ws s' with
            | EmptyString => inl unexpected_end
            | String b rest =>
                if char_is b 125 then inr (VObj [], rest)
                else
                  match parse_members fuel' s' [] with
                  | inr (props, rest') => inr (VObj props, rest')
                  | inl m => inl m
                  end
            end
          else if char_is a 91 then
            match skip_ws s' with
            | EmptyString => inl unexpected_end
            | String b rest =>
                if char_is b 93 then inr (VArr [], rest)
                else
                  match parse_elements fuel' s' [] with
                  | inr (items, rest') => inr (VArr items, rest')
                  | inl m => inl m
                  end
            end
          else if char_is a 34 then
            match parse_chars s' with
            | inr (t, rest) => inr (VStr t, rest)
            | inl m => inl m
            end
          else if char_is a 45 then parse_number true s'
          else if is_digit a then parse_number false (String a s')
          else if char_is a 116 then expect_literal "true" (VBool true) (String a s')
          else if char_is a 102 then expect_literal "false" (VBool false) (String a s')
          else if char_is a 110 then expect_literal "null" VNull (String a s')
          else inl unexpected_token
      end
  end
with parse_elements (fuel : nat) (s : string) (acc : list value)
  : parsed (list value) :=
  match fuel with
  | O => inl unsupported
  | S fuel' =>
      match parse_value fuel' s with
      | inl m => inl m
      | inr (v, rest) =>
          match skip_ws rest with
          | EmptyString => inl unexpected_end
          | String c rest' =>
              if char_is c 44 then parse_elements fuel' rest' (acc ++ [v])%list
              else if char_is c 93 then inr ((acc ++ [v])%list, rest')
              else inl unexpected_token
          end
      end
  end
with parse_members (fuel : nat) (s : string) (acc : list (string * value))
  : parsed (list (string * value)) :=
  match fuel with
  | O => inl unsupported
  | S fuel' =>
      match skip_ws s with
      | EmptyString => inl unexpected_end
      | String q s1 =>
          if char_is q 34 then
            match parse_chars s1 with
            | inl m => inl m
            | inr (k, s2) =>
                match skip_ws s2 with
                | EmptyString => inl unexpected_end
                | String colon s3 =>
                    if char_is colon 58 then
                      match parse_value fuel' s3 with
                      | inl m => inl m
                      | inr (v, s4) =>
                          match skip_ws s4 with
                          | EmptyString => inl unexpected_end
                          | String c rest =>
                              if char_is c 44
                              then parse_members fuel' rest (insert_prop k v acc)
                              else if char_is c 125
                                   then inr (insert_prop k v acc, rest)
                                   else inl unexpected_token
                          end
                      end
                    else inl unexpected_token
                end
            end
          else inl unexpected_token
      end
  end.

(** [JSON.parse(text)] *)
Definition JSON_parse (text : string) : string + value :=
  match parse_value (S (String.length text)) text with
  | inl m => inl m
  | inr (v, rest) =>
      match skip_ws rest with
      | EmptyString => inr v
      | _ => inl unexpected_token
      end
  end.

(** The escape of one character inside a string literal. *)
Definition escape_char (a : ascii) : string :=
  let n := nat_of_ascii a in
  if Nat.eqb n 34 then "\" ++ dquote
  else if Nat.eqb n 92 then "\\"
  else if Nat.eqb n 8 then "\b"
  else if Nat.eqb n 12 then "\f"
  else if Nat.eqb n 10 then "\n"
  else if Nat.eqb n 13 then "\r"
  else if Nat.eqb n 9 then "\t"
  else if Nat.ltb n 32 then
    "\u00" ++ String (lower_hex_digit (Nat.div n 16))
                (String (lower_hex_digit (Nat.modulo n 16)) EmptyString)
  else String a EmptyString.

Fixpoint escape (s : string) : string :=
  match s with
  | EmptyString => EmptyString
  | String a s' => escape_char a ++ escape s'
  end.

Definition quote (s : string) : string := dquote ++ escape s ++ dquote.

Definition is_empty (s : string) : bool := String.eqb s EmptyString.

(** The text of [v] at the indentation [cur], with [gap] added at each
    level; [None] is [undefined]. *)
Fixpoint stringify_at (gap cur : string) (v : value) : option string :=
  match v with
  | VUndef => None
  | VNull | VNaN => Some "null"
  | VBool b => Some (if b then "true" else "false")
  | VNum n => Some (pretty n)
  | VStr s => Some (quote s)
  | VArr items =>
      let inner := cur ++ gap in
      let parts :=
        (fix go (l : list value) : list string :=
           match l with
           | [] => []
           | x :: r =>
               match stringify_at gap inner x with
               | Some t => t
               | None => "null"
               end :: go r
           end) items in
      Some (match parts with
            | [] => "[]"
            | _ :: _ =>
                if is_empty gap then "[" ++ join "," parts ++ "]"
                else "[" ++ nl ++ inner ++ join ("," ++ nl ++ inner) parts ++
                     nl ++ cur ++ "]"
            end)
  | VObj props =>
      let inner := cur ++ gap in
      let parts :=
        (fix go (l : list (string * value)) : list string :=
           match l with
           | [] => []
           | (k, x) :: r =>
               match stringify_at gap inner x with
               | Some t => (quote k ++ (if is_empty gap then ":" else ": ") ++ t) :: go r
               | None => go r
               end
           end) props in
      Some (match parts with
            | [] => "{}"
            | _ :: _ =>
                if is_empty gap then "{" ++ join "," parts ++ "}"
                else "{" ++ nl ++ inner ++ join ("," ++ nl ++ inner) parts ++
                     nl ++ cur ++ "}"
            end)
  end.

Fixpoint spaces (n : nat) : string :=
  match n with
  | O => EmptyString
  | S n' => String " " (spaces n')
  end.

(** [JSON.stringify(v, null, indent)] *)
Definition JSON_stringify (indent : nat) (v : value) : option string :=
  stringify_at (spaces (Nat.min indent 10)) EmptyString v.

(** [path.join] of POSIX: the segments that are not empty are joined
    with [/] and the result is normalized. *)
Fixpoint normalize_segments (allowAboveRoot : bool) (segments stack : list string)
  : list string :=
  match segments with
  | [] => rev stack
  | seg :: rest =>
      if (String.eqb seg EmptyString || String.eqb seg ".")%bool
      then normalize_segments allowAboveRoot rest stack
      else if String.eqb seg ".." then
        match stack with
        | top :: below =>
            if String.eqb top ".."
            then normalize_segments allowAboveRoot rest (seg :: stack)
            else normalize_segments allowAboveRoot rest below
        | [] =>
            if allowAboveRoot
            then normalize_segments allowAboveRoot rest [seg]
            else normalize_segments allowAboveRoot rest []
        end
      else normalize_segments allowAboveRoot rest (seg :: stack)
  end.

Fixpoint ends_with_slash (s : string) : bool :=
  match s with
  | EmptyString => false
  | String a EmptyString => Ascii.eqb a "/"
  | String _ s' => ends_with_slash s'
  end.

Definition normalize (path : string) : string :=
  match path with
  | EmptyString => "."
  | String first _ =>
      let isAbsolute := Ascii.eqb first "/" in
      let trailing := ends_with_slash path in
      let body := join "/" (normalize_segments (negb isAbsolute) (split "/" path) []) in
      let body :=
        if is_empty body then (if isAbsolute then EmptyString
                               else if trailing then "./" else ".")
        else if trailing then body ++ "/" else body in
      if isAbsolute then "/" ++ body else body
  end.

Definition path_join (segments : list string) : string :=
  normalize (join "/" (List.filter (fun seg => negb (is_empty seg)) segments)).

(** SHA-256 (FIPS 180-4) on 32-bit words in [Z]. *)
Definition w32 (x : Z) : Z := x mod 2 ^ 32.
Definition rotr (n x : Z) : Z := w32 (Z.lor (Z.shiftr x n) (Z.shiftl x (32 - n))).
Definition Ch (x y z : Z) : Z :=
  Z.lxor (Z.land x y) (Z.land (Z.lxor x (2 ^ 32 - 1)) z).
Definition Maj (x y z : Z) : Z :=
  Z.lxor (Z.lxor (Z.land x y) (Z.land x z)) (Z.land y z).
Definition Sigma0 (x : Z) : Z := Z.lxor (Z.lxor (rotr 2 x) (rotr 13 x)) (rotr 22 x).
Definition Sigma1 (x : Z) : Z := Z.lxor (Z.lxor (rotr 6 x) (rotr 11 x)) (rotr 25 x).
Definition sigma0 (x : Z) : Z := Z.lxor (Z.lxor (rotr 7 x) (rotr 18 x)) (Z.shiftr x 3).
Definition sigma1 (x : Z) : Z := Z.lxor (Z.lxor (rotr 17 x) (rotr 19 x)) (Z.shiftr x 10).

Definition primes64 : list Z :=
  [2; 3; 5; 7; 11; 13; 17; 19; 23; 29; 31; 37; 41; 43; 47; 53;
   59; 61; 67; 71; 73; 79; 83; 89; 97; 101; 103; 107; 109; 113; 127; 131;
   137; 139; 149; 151; 157; 163; 167; 173; 179; 181; 191; 193; 197; 199; 211; 223;
   227; 229; 233; 239; 241; 251; 257; 263; 269; 271; 277; 281; 283; 293; 307; 311].

(** The integer cube root, bit by bit from [2 ^ bits] down. *)
Fixpoint cube_root (bits : nat) (x r : Z) : Z :=
  match bits with
  | O => r
  | S b =>
      let c := r + 2 ^ Z.of_nat b in
      cube_root b x (if c * c * c <=? x then c else r)
  end.

(** The first 32 bits of the fractional parts of the cube roots of the
    first 64 primes, and of the square roots of the first 8. *)
Definition K256 : list Z :=
  Eval vm_compute in map (fun p => w32 (cube_root 40 (p * 2 ^ 96) 0)) primes64.
Definition H256 : list Z :=
  Eval vm_compute in map (fun p => w32 (Z.sqrt (p * 2 ^ 64))) (firstn 8 primes64).

Fixpoint bytes_of (s : string) : list Z :=
  match s with
  | EmptyString => []
  | String a s' => Z.of_nat (nat_of_ascii a) :: bytes_of s'
  end.

Definition be_bytes (count : nat) (x : Z) : list Z :=
  map (fun i => (Z.shiftr x (8 * Z.of_nat (count - 1 - i))) mod 256) (seq 0 count).

Definition pad (msg : list Z) : list Z :=
  let len := Z.of_nat (length msg) in
  let zeros := Z.to_nat ((55 - len) mod 64) in
  (msg ++ [128] ++ repeat 0 zeros ++ be_bytes 8 (8 * len))%list.

Fixpoint words_of (fuel : nat) (bytes : list Z) : list Z :=
  match fuel, bytes with
  | S f, a :: b :: c :: d :: rest =>
      (((a * 256 + b) * 256 + c) * 256 + d) :: words_of f rest
  | _, _ => []
  end.

Fixpoint chunks (fuel : nat) (n : nat) (l : list Z) : list (list Z) :=
  match fuel, l with
  | S f, _ :: _ => firstn n l :: chunks f n (skipn n l)
  | _, _ => []
  end.

Definition schedule (block : list Z) : list Z :=
  fold_left
    (fun w t =>
       (w ++ [w32 (sigma1 (nth (t - 2) w 0) + nth (t - 7) w 0 +
                   sigma0 (nth (t - 15) w 0) + nth (t - 16) w 0)])%list)
    (seq 16 48) block.

Definition round (st : list Z) (kw : Z * Z) : list Z :=
  match st with
  | [a; b; c; d; e; f; g; h] =>
      let t1 := h + Sigma1 e + Ch e f g + fst kw + snd kw in
      let t2 := Sigma0 a + Maj a b c in
      [w32 (t1 + t2); a; b; c; w32 (d + t1); e; f; g]
  | _ => st
  end.

Definition compress (h : list Z) (block : list Z) : list Z :=
  let final := fold_left round (combine K256 (schedule block)) h in
  map (fun p => w32 (fst p + snd p)) (combine h final).

Definition sha256_words (s : string) : list Z :=
  let bytes := pad (bytes_of s) in
  let n := length bytes in
  fold_left compress (chunks n 16 (words_of n bytes)) H256.

Fixpoint string_of_bytes (l : list Z) : string :=
  match l with
  | [] => EmptyString
  | b :: r => String (ascii_of_nat (Z.to_nat b)) (string_of_bytes r)
  end.

(** The 32 bytes of the digest. *)
Definition sha256 (s : string) : string :=
  string_of_bytes (concat (map (be_bytes 4) (sha256_words s))).

Definition sha256_base64url (s : string) : string := to_base64url (sha256 s).

End Node.

Definition node : Platform :=
  {| JSON_parse := Node.JSON_parse;
     JSON_stringify := Node.JSON_stringify;
     path_join := Node.path_join;
     sha256_base64url := Node.sha256_base64url |}.

(** * Observations on traces *)

Definition token_endpoint : string := MCP_BASE ++ "/token".
Definition mcp_endpoint : string := MCP_BASE ++ "/mcp".

(** The requests sent to the token endpoint and to the MCP endpoint. *)
Definition is_token_request (e : event) : bool :=
  match e with
  | EFetch rq _ => String.eqb (rq_url rq) token_endpoint
  | _ => false
  end.

Definition is_mcp_request (e : event) : bool :=
  match e with
  | EFetch rq _ => String.eqb (rq_url rq) mcp_endpoint
  | _ => false
  end.

Definition is_fetch (e : event) : bool :=
  match e with
  | EFetch _ _ => true
  | _ => false
  end.

Definition is_write (e : event) : bool :=
  match e with
  | EWriteFile _ _ => true
  | _ => false
  end.

Definition count (p : event -> bool) (evs : list event) : nat :=
  length (List.filter p evs).

(** The MCP exchanges of a trace, oldest first: each request with the
    answer it received. *)
Fixpoint mcp_log (evs : list event) : list (http_request * net_reply) :=
  match evs with
  | [] => []
  | EFetch rq rp :: rest =>
      if String.eqb (rq_url rq) mcp_endpoint then (rq, rp) :: mcp_log rest
      else mcp_log rest
  | _ :: rest => mcp_log rest
  end.

(** The line that [mcpCall] prints when it decides to refresh. *)
Definition refresh_notice : event := EStderr [VStr "Token expired, refreshing..."].

(** * Worlds for examples *)

Definition replies (l : list net_reply) : nat -> net_reply :=
  fun n => nth n l (NetError "fetch failed").

Definition ok_json (body : string) : net_reply :=
  NetResponse (mkResponse 200 [("content-type", "application/json")] body).

(** A JSON object with string or raw members, as text. *)
Definition member (k v : string) : string := dquote ++ k ++ dquote ++ ":" ++ v.
Definition str (s : string) : string := dquote ++ s ++ dquote.
Definition obj (members : list string) : string := "{" ++ join "," members ++ "}".

Definition home : string := "/home/claw".
Definition store : string := "/home/claw/.mcporter/cirra-tokens.json".

Definition a_world (cache : option string) (file : option fs_node) (now : Z)
  (answers : list net_reply) (args : list string) : world :=
  mkWorld (match cache with
           | Some c => <["CIRRA_OAUTH_CACHE" := c]> (<["HOME" := home]> ∅)
           | None => <["HOME" := home]> ∅
           end)
          (match file with
           | Some f => <[store := f]> ∅
           | None => ∅
           end)
          (fun n => now + Z.of_nat n) 0 (replies answers) 0 args "linux" true
          (fun _ => "0123456789abcdef0123456789abcdef") 0 [] [].

(** A credential record that expires at [100000]. *)
Definition a_record : value :=
  VObj [("client_id", VStr "abc"); ("access_token", VStr "AT1");
        ("refresh_token", VStr "RT1"); ("expires_at", VNum 100000)].

Definition a_record_text : string :=
  obj [member "client_id" (str "abc"); member "access_token" (str "AT1");
       member "refresh_token" (str "RT1"); member "expires_at" "100000"].

(** A record that does not expire and cannot be refreshed. *)
Definition a_plain_record : value := VObj [("access_token", VStr "AT1")].

Definition a_plain_record_text : string := obj [member "access_token" (str "AT1")].

(** The answer of the token endpoint with the lifetime [lifetime]. *)
Definition a_token_answer (lifetime : string) : net_reply :=
  ok_json (obj [member "access_token" (str "AT2"); member "expires_in" lifetime]).

(** A JSON-RPC response with the id [id], as text and as an answer. *)
Definition a_frame (id : string) : string :=
  obj [member "jsonrpc" (str "2.0"); member "id" id; member "result" "{}"].

Definition an_answer (id : string) : net_reply := ok_json (a_frame id).

(** The same answer carrying a session id. *)
Definition an_answer_in_session (id sid : string) : net_reply :=
  NetResponse (mkResponse 200 [("content-type", "application/json");
                               ("mcp-session-id", sid)] (a_frame id)).

(** The Tool Invoker holding [record] at the time [now]. *)
Definition invoker_at (record : value) (cache : option string) (file : option fs_node)
  (now : Z) (answers : list net_reply) : st Invoker.vars :=
  St (Invoker.mkVars VNull 0 record) (a_world cache file now answers []).

(** The Tool Invoker when it starts. *)
Definition invoker_start (cache : option string) (file : option fs_node) (now : Z)
  (answers : list net_reply) (args : list string) : st Invoker.vars :=
  St Invoker.initial_vars (a_world cache file now answers args).

(** The Authorizer, waiting for the callback. *)
Definition authorizer_at (answers : list net_reply) : st unit :=
  St tt (a_world None None 40000 answers []).

Definition a_pkce : Authorizer.pkce_pair := Authorizer.mkPKCE "verifier" "challenge".

Definition a_callback (params : list (string * string)) : callback_request :=
  mkCallback "/callback" params.

Definition events_of {G A} (r : outcome A * st G) : list event :=
  trace (outside (snd r)).

(** * Reasoning about the scripts *)

(** ** Weakest preconditions

    [wp m Q s]: running [m] from the state [s] ends with an outcome and
    a state that satisfy [Q]. *)
Definition wp {G A} (m : M G A) (Q : outcome A -> st G -> Prop) (s : st G) : Prop :=
  Q (fst (m s)) (snd (m s)).

(** What [writeFileSync path data] makes of the file system, when it
    succeeds. *)
Definition written (path data : string) (f : gmap string fs_node)
  : option (gmap string fs_node) :=
  match f !! path with
  | Some (FsFile r true _) => Some (<[path := FsFile r true data]> f)
  | Some (FsFile _ false _) => None
  | Some FsDir => None
  | None => Some (<[path := FsFile true true data]> f)
  end.

(** ** Views of the Tool Invoker *)

(** [v.k], or [undefined] when reading throws. *)
Definition prop (v : value) (k : string) : value :=
  match get_prop v k with
  | inr x => x
  | inl _ => VUndef
  end.

(** The number of requests that [refreshTokens] sends to the token
    endpoint: one when the record has a truthy refresh token. *)
Definition refresh_attempts (t : value) : nat :=
  match get_prop t "refresh_token" with
  | inr rt => if truthy rt then 1%nat else 0%nat
  | inl _ => 0%nat
  end.

(** The test of [mcpCall] at the reading [now] of the clock. *)
Definition refresh_due (t : value) (now : Z) : bool :=
  match get_prop t "expires_at" with
  | inr expires_at =>
      truthy expires_at &&
      match to_number expires_at with
      | Some e => now >? e - 60000
      | None => false
      end
  | inl _ => false
  end.

(** The notice that a refresh has been decided. *)
Definition is_notice (e : event) : bool :=
  match e with
  | EStderr [VStr m] => String.eqb m "Token expired, refreshing..."
  | _ => false
  end.

(** The events of a call that refreshed first: the notice, the events
    [r] of the one refresh, with its [attempts] requests to the token
    endpoint, then the events [c] of the call itself, at most the MCP
    request. *)
Definition refreshed_once (attempts : nat) (new : list event) : Prop :=
  exists r c,
    new = (refresh_notice :: r ++ c)%list /\
    count is_notice r = 0%nat /\
    count is_token_request r = attempts /\
    count is_mcp_request r = 0%nat /\
    (c = [] \/ exists rq rp, c = [EFetch rq rp] /\ rq_url rq = mcp_endpoint).

(** The events of a call that did not refresh: the MCP request alone. *)
Definition not_refreshed (new : list event) : Prop :=
  exists rq rp, new = [EFetch rq rp] /\ rq_url rq = mcp_endpoint.



(** One MCP exchange as [mcpCall] makes it: the arguments of the call,
    the access token it used and the answer it received. *)
Record call : Type := mkCall {
  c_method : string;
  c_params : value;
  c_init : bool;
  c_token : value;
  c_reply : net_reply
}.

(** The calls of one process: [initialize] first, then calls that are
    not [initialize]. *)
Definition process_calls (cs : list call) : Prop :=
  map (fun c => (c_init c, String.eqb (c_method c) "initialize")) cs =
  firstn (length cs) [(true, true); (false, false); (false, false)].

(** The session id after the answer [rp]. *)
Definition capture (sid : value) (rp : net_reply) : value :=
  match rp with
  | NetResponse r =>
      let h := headers_get (rs_headers r) "mcp-session-id" in
      if truthy h then h else sid
  | NetError _ => sid
  end.

(** The session id after the answers to the calls [cs]. *)
Definition session_after (sid : value) (cs : list call) : value :=
  fold_left capture (map c_reply cs) sid.

(** The content type that a response declares. *)
Definition content_type (r : http_response) : string :=
  let ct := headers_get (rs_headers r) "content-type" in
  if truthy ct then to_string ct else EmptyString.

(** [t] extends [s] by events that are not MCP requests. *)
Definition quiet (s t : st Invoker.vars) : Prop :=
  Invoker.messageId (globals t) = Invoker.messageId (globals s) /\
  Invoker.sessionId (globals t) = Invoker.sessionId (globals s) /\
  exists evs, trace (outside t) = (trace (outside s) ++ evs)%list /\ mcp_log evs = [].

Section Views.
Context `{P : Platform}.
Import Invoker.

(** The request that [mcpCall] sends. *)
Definition mcp_request (id : Z) (method : string) (params access_token : value)
  (isInitialize : bool) (sid : value) : http_request :=
  mkRequest mcp_endpoint "POST" (mcp_headers access_token isInitialize sid)
    (JSON_stringify 0 (jsonrpc_request id method params)).

(** What [mcpCall] makes of the answer to its request. *)
Definition decode_reply (rp : net_reply) : outcome value :=
  match rp with
  | NetError msg => Throw (TypeError msg)
  | NetResponse r =>
      if negb (rs_ok r) then
        Throw (Error ("MCP call failed: " ++ pretty (rs_status r) ++ " " ++ rs_body r))
      else if includes (content_type r) "text/event-stream" then
        let result := parseSSEResponse (rs_body r) in
        if truthy result then Ret result
        else Throw (Error "No response received from SSE stream")
      else
        match JSON_parse (rs_body r) with
        | inl msg => Throw (SyntaxError msg)
        | inr v => Ret v
        end
  end.

(** The events of a refresh. *)
Definition refresh_events_post (s : st vars) (o : outcome value) (s' : st vars) : Prop :=
  sessionId (globals s') = sessionId (globals s) /\
  messageId (globals s') = messageId (globals s) /\
  exists evs,
    trace (outside s') = (trace (outside s) ++ evs)%list /\
    count is_mcp_request evs = 0%nat /\
    count is_token_request evs = refresh_attempts (tokens (globals s)) /\
    count is_notice evs = 0%nat /\
    (forall v, o = Ret v ->
     match tokens (globals s') with VUndef | VNull => False | _ => True end) /\
    (forall c, o <> Exit c).

(** One call of [mcpCall]: the events [pre] of the refresh, if one was
    due, then either a failure before the request or the request, its
    answer and what is made of it. *)
Definition mcp_post (method : string) (params : value) (isInitialize : bool)
  (s : st vars) (o : outcome value) (s' : st vars) : Prop :=
  let due := refresh_due (tokens (globals s)) (clock (outside s) (ticks (outside s))) in
  exists pre,
    (due = false -> pre = []) /\
    (due = true ->
     exists r, pre = refresh_notice :: r /\
               count is_token_request r = refresh_attempts (tokens (globals s)) /\
               count is_mcp_request r = 0%nat /\
               count is_notice r = 0%nat) /\
    ((trace (outside s') = (trace (outside s) ++ pre)%list /\
      sessionId (globals s') = sessionId (globals s) /\
      messageId (globals s') = messageId (globals s) /\
      (exists e, o = Throw e) /\
      (due = false -> exists e, get_prop (tokens (globals s)) "expires_at" = inl e))
     \/
     (exists access_token rp,
        trace (outside s') =
          (trace (outside s) ++ pre ++
           [EFetch (mcp_request (messageId (globals s) + 1) method params access_token
                      isInitialize (sessionId (globals s))) rp])%list /\
        messageId (globals s') = messageId (globals s) + 1 /\
        sessionId (globals s') = capture (sessionId (globals s)) rp /\
        o = decode_reply rp)).

(** The record after a refresh that succeeds. *)
Definition refresh_fields_post (s : st vars) (o : outcome value) (s' : st vars) : Prop :=
  forall v props, o = Ret v -> tokens (globals s) = VObj props ->
  exists r newTokens,
    net (outside s) (fetched (outside s)) = NetResponse r /\
    JSON_parse (rs_body r) = inr newTokens /\
    v = tokens (globals s') /\
    prop v "access_token" = prop newTokens "access_token" /\
    prop v "refresh_token" =
      (if truthy (prop newTokens "refresh_token")
       then prop newTokens "refresh_token"
       else prop (tokens (globals s)) "refresh_token") /\
    prop v "expires_at" =
      (if truthy (prop newTokens "expires_in")
       then of_number (option_map (fun n => clock (outside s) (ticks (outside s)) + n * 1000)
                         (to_number (prop newTokens "expires_in")))
       else VNull).


(** The payloads of the [data: ] lines of an event stream that are not
    blank and parse as JSON, in order. *)
Definition data_frames (text : string) : list value :=
  flat_map
    (fun line =>
       if startsWith line "data: " && truthy (VStr (trim (slice 6 line))) then
         match JSON_parse (slice 6 line) with
         | inr v => [v]
         | inl _ => []
         end
       else [])
    (split newline text).

(** A frame whose [jsonrpc] field is ["2.0"] and whose [id] field is
    defined. *)
Definition is_response (v : value) : bool :=
  strict_eq_str (prop v "jsonrpc") "2.0" && is_defined (prop v "id").

(** The response frames of an event stream, in order. *)
Definition responses (text : string) : list value :=
  List.filter is_response (data_frames text).

(** What the on-disk store holds for the Tool Invoker: the value that
    the file parses to, and [null] when the file is absent, cannot be
    read or does not parse. *)
Definition stored_credentials (f : gmap string fs_node) (path : string) : value :=
  match f !! path with
  | Some (FsFile true _ data) =>
      match JSON_parse data with
      | inr v => v
      | inl _ => VNull
      end
  | _ => VNull
  end.

(** The exchanges of the calls [cs], made in order from the session id
    [sid] and the message counter [mid]. *)
Fixpoint exchanges (sid : value) (mid : Z) (cs : list call)
  : list (http_request * net_reply) :=
  match cs with
  | [] => []
  | c :: rest =>
      (mcp_request (mid + 1) (c_method c) (c_params c) (c_token c) (c_init c) sid,
       c_reply c)
      :: exchanges (capture sid (c_reply c)) (mid + 1) rest
  end.

(** From [s] to [s'] the process has made the MCP calls [cs] and no
    other MCP request. *)
Definition run_of (s s' : st vars) (cs : list call) : Prop :=
  messageId (globals s') = messageId (globals s) + Z.of_nat (length cs) /\
  sessionId (globals s') = session_after (sessionId (globals s)) cs /\
  exists new,
    trace (outside s') = (trace (outside s) ++ new)%list /\
    mcp_log new = exchanges (sessionId (globals s)) (messageId (globals s)) cs.

(** One call, in terms of [run_of]. *)
Definition mcp_run_post (method : string) (params : value) (isInitialize : bool)
  (s : st vars) (o : outcome value) (s' : st vars) : Prop :=
  (run_of s s' [] /\ exists e, o = Throw e) \/
  (exists c, run_of s s' [c] /\ c_method c = method /\ c_params c = params /\
             c_init c = isInitialize /\ o = decode_reply (c_reply c)).

Definition main_post (s : st vars) (o : outcome unit) (s' : st vars) : Prop :=
  exists cs, run_of s s' cs /\ process_calls cs.

(** The record that the Authorizer builds. *)
Definition tokenData_post (result : value) (s : st unit) (o : outcome value)
  (s' : st unit) : Prop :=
  forall td, o = Ret td ->
  let issued := prop result "tokens" in
  prop td "client_id" = prop result "clientId" /\
  prop td "access_token" = prop issued "access_token" /\
  prop td "refresh_token" = prop issued "refresh_token" /\
  prop td "expires_at" =
    (if truthy (prop issued "expires_in")
     then of_number (option_map (fun n => clock (outside s) (ticks (outside s)) + n * 1000)
                       (to_number (prop issued "expires_in")))
     else VNull).

End Views.

(** The session ids that the answers carry, oldest first: the values of
    the [mcp-session-id] headers that are not empty. *)
Definition session_ids (answers : list net_reply) : list string :=
  flat_map
    (fun rp =>
       match rp with
       | NetResponse r =>
           match assoc "mcp-session-id" (rs_headers r) with
           | Some v => if String.eqb v EmptyString then [] else [v]
           | None => []
           end
       | NetError _ => []
       end)
    answers.

(** The most recent of them. *)
Definition latest_session (answers : list net_reply) : option string :=
  match rev (session_ids answers) with
  | v :: _ => Some v
  | [] => None
  end.

(** The [Mcp-Session-Id] header for the session id [sid]. *)
Definition session_header (sid : value) : option string :=
  if truthy sid then Some (to_string sid) else None.

(** The [Mcp-Session-Id] headers of the requests of a log. *)
Definition session_headers (log : list (http_request * net_reply)) : list (option string) :=
  map (fun x => assoc "Mcp-Session-Id" (rq_headers (fst x))) log.

(** The rule for [expires_at] in the [record] built at the reading
    [now] of the clock from the [issued] token response. *)
Definition lifetime_rule (now : Z) (issued record : value) : Prop :=
  (forall n, prop issued "expires_in" = VNum n -> n <> 0 ->
     prop record "expires_at" = VNum (now + n * 1000)) /\
  (prop issued "expires_in" = VUndef \/ prop issued "expires_in" = VNum 0 ->
     prop record "expires_at" = VNull).

(** ** Views of the Authorizer *)

(** The state of the Authorizer after it has answered [status] with
    [body] and closed the listener. *)
Definition refused (status : Z) (body : string) (s : st unit) : st unit :=
  St (globals s)
     (emit EServerClose (emit (EReply status Authorizer.html body) (outside s))).

(** The errors of the specification's taxonomy, as the script throws
    them. *)
Definition AuthorizationError (code : string) : exn := Error code.
Definition CsrfError : exn := Error "State mismatch".
Definition EmptyStreamResponseError : exn := Error "No response received from SSE stream".

Definition error_page (req : callback_request) (code : string) : string :=
  "<h1>Error</h1><p>" ++ code ++ ": " ++
  to_string (headers_get (cb_searchParams req) "error_description") ++ "</p>".

Definition csrf_page : string :=
  "<h1>Error</h1><p>State mismatch - possible CSRF attack</p>".

(** ** The claims as the specification words them, where the scripts
    differ *)



(** A call that succeeded: a response with a 2xx status. *)
Definition successful (rp : net_reply) : bool :=
  match rp with
  | NetResponse r => rs_ok r
  | NetError _ => false
  end.

Fixpoint first_successful (k : nat) (answers : list net_reply) : option (nat * net_reply) :=
  match answers with
  | [] => None
  | rp :: rest => if successful rp then Some (k, rp) else first_successful (S k) rest
  end.

(** The session headers as [C4] words them: the session id is the one
    that the first successful call after [initialize] answers with, and
    the requests after that call carry it. *)
Definition session_headers_as_claimed (log : list (http_request * net_reply))
  : list (option string) :=
  match first_successful 1 (map snd (tl log)) with
  | Some (j, NetResponse r) =>
      map (fun k => if Nat.ltb j k then assoc "mcp-session-id" (rs_headers r) else None)
          (seq 0 (length log))
  | _ => map (fun _ => None) log
  end.

(** [C1] as worded: a refresh is due when [expires_at] is not [null] and
    the clock is within 60 seconds of it, or past it. *)
Definition refresh_due_as_claimed (t : value) (now : Z) : bool :=
  match get_prop t "expires_at" with
  | inr (VNum e) => now >=? e - 60000
  | _ => false
  end.

(** [C3] as worded: the first response frame of the stream. *)
Definition first_response `{P : Platform} (text : string) : option value :=
  match responses text with
  | frame :: _ => Some frame
  | [] => None
  end.

(** [C6] as worded: [expires_at] is the clock plus [expires_in * 1000]
    when the response has an [expires_in], and [null] when it has
    none. *)
Definition expires_at_as_claimed (now : Z) (issued : value) : value :=
  match prop issued "expires_in" with
  | VUndef => VNull
  | lifetime => of_number (option_map (fun n => now + n * 1000) (to_number lifetime))
  end.

(** ** States for examples *)

(** A record that expires in exactly one minute. *)
Definition a_minute_before : st Invoker.vars :=
  invoker_at a_record None None 40000 [an_answer "1"].

(** A record whose [expires_at] is 0. *)
Definition a_record_at_zero : value :=
  VObj [("client_id", VStr "abc"); ("access_token", VStr "AT1");
        ("refresh_token", VStr "RT1"); ("expires_at", VNum 0)].

Definition expired_at_zero : st Invoker.vars :=
  invoker_at a_record_at_zero None None 40000 [an_answer "1"].

(** A record that expires in less than a minute. *)
Definition less_than_a_minute_before : st Invoker.vars :=
  invoker_at a_record None None 40001 [a_token_answer "3600"; an_answer "1"].

(** A process whose cache does not parse and whose store holds a
    record that is about to expire. *)
Definition a_start_from_the_store : st Invoker.vars :=
  invoker_start (Some "not json") (Some (FsFile true true a_record_text)) 99000
    [a_token_answer "3600"; an_answer "1"; an_answer "2"; an_answer "3"] ["--list"].


(** An event stream with two response frames. *)
Definition a_stream : string :=
  "data: " ++ a_frame "1" ++ nl ++ nl ++ "data: " ++ a_frame "2" ++ nl ++ nl.

Definition a_stream_response : http_response :=
  mkResponse 200 [("content-type", "text/event-stream")] a_stream.

Definition a_streamed_call : st Invoker.vars :=
  invoker_at a_plain_record None None 40000 [NetResponse a_stream_response].

(** A process whose answers carry the session ids [A], then [B]. *)
Definition a_start_in_sessions : st Invoker.vars :=
  invoker_start (Some a_plain_record_text) None 40000
    [an_answer_in_session "1" "A"; an_answer_in_session "2" "B"; an_answer "3"]
    ["--list"].

(** A refresh that is answered with a lifetime of [0], and one that is
    answered with a lifetime of an hour. *)
Definition a_refresh_without_lifetime : st Invoker.vars :=
  invoker_at a_record None None 40000 [a_token_answer "0"].

Definition a_refresh_for_an_hour : st Invoker.vars :=
  invoker_at a_record None None 40000 [a_token_answer "3600"].

(** Callbacks. *)
Definition a_denied_callback : callback_request :=
  a_callback [("error", "access_denied"); ("error_description", "The user said no");
              ("state", "wrong")].

Definition a_forged_callback : callback_request :=
  a_callback [("code", "xyz"); ("state", "wrong")].

Definition a_callback_with_empty_error : callback_request :=
  a_callback [("error", EmptyString); ("code", "xyz"); ("state", "expected")].

(** A process without [HOME], and one whose store holds [null]. *)
Definition a_start_without_home : st Invoker.vars :=
  St Invoker.initial_vars
     (mkWorld (<["CIRRA_OAUTH_CACHE" := "not json"]> ∅) ∅ (fun n => Z.of_nat n) 0
        (replies []) 0 ["--list"] "linux" true
        (fun _ => "0123456789abcdef0123456789abcdef") 0 [] []).

Definition a_start_with_null_store : st Invoker.vars :=
  invoker_start (Some "not json") (Some (FsFile true true "null")) 40000 [] ["--list"].

(** A record that cannot be refreshed, in a process with a store. *)
Definition an_unrefreshable : st Invoker.vars :=
  invoker_at a_plain_record None (Some (FsFile true true a_plain_record_text)) 40000
    [a_token_answer "3600"].

(** ** Further views of the scripts *)

(** A line on the standard error stream. *)
Definition is_stderr (e : event) : bool :=
  match e with
  | EStderr _ => true
  | _ => false
  end.

(** The state [s] after the events [evs], when nothing else changed. *)
Definition after_events {G} (evs : list event) (s : st G) : st G :=
  St (globals s) (set_trace (trace (outside s) ++ evs) (outside s)).

(** An answer that [refreshTokens] and [registerClient] cannot use: a
    transport failure, a status outside 2xx, or a body that does not
    parse. *)
Definition unusable `{P : Platform} (rp : net_reply) : bool :=
  match rp with
  | NetError _ => true
  | NetResponse r =>
      negb (rs_ok r) ||
      match JSON_parse (rs_body r) with
      | inl _ => true
      | inr _ => false
      end
  end.

(** The parameters of the [initialize] request. *)
Definition initialize_params : value :=
  VObj [("protocolVersion", VStr "2024-11-05");
        ("capabilities",
         VObj [("roots", VObj [("listChanged", VBool false)]);
               ("sampling", VObj [])]);
        ("clientInfo",
         VObj [("name", VStr "openclaw-mcp-client");
               ("version", VStr "1.0.0")])].

(** The method and the parameters of the [k]-th MCP request, counted
    from [0], of a process started with the arguments [args]. *)
Definition planned `{P : Platform} (args : list string) (k : nat) : string * value :=
  match k with
  | O => ("initialize", initialize_params)
  | S O => ("notifications/initialized", VObj [])
  | _ =>
      match args with
      | arg0 :: _ =>
          if String.eqb arg0 "--list" then ("tools/list", VObj [])
          else
            let (toolName, params) := Invoker.parseArgs args in
            ("tools/call", VObj [("name", toolName); ("arguments", params)])
      | [] => ("tools/list", VObj [])
      end
  end.

(** The calls [cs] of a process started with [args] and ended with
    [o]. *)
Definition planned_calls `{P : Platform} (args : list string) (home : option string)
  (o : outcome unit) (cs : list call) : Prop :=
  (length cs <= 3)%nat /\
  (forall k c, nth_error cs k = Some c ->
     (c_method c, c_params c) = planned args k /\ c_init c = Nat.eqb k 0) /\
  (o = Ret tt -> length cs = 3%nat) /\
  (forall code, o = Exit code -> code = 1) /\
  (forall e, o = Throw e -> cs = [] /\ home = None).

(** The listener is closed; a reply is sent; the browser is started;
    the server starts to listen. *)
Definition is_close (e : event) : bool :=
  match e with
  | EServerClose => true
  | _ => false
  end.

Definition is_reply (e : event) : bool :=
  match e with
  | EReply _ _ _ => true
  | _ => false
  end.

Definition is_exec (e : event) : bool :=
  match e with
  | EExec _ => true
  | _ => false
  end.

Definition is_listen (e : event) : bool :=
  match e with
  | EListen _ => true
  | _ => false
  end.


(** The request that [exchangeCode] sends. *)
Definition exchange_request (code clientId : value) (codeVerifier : string) : http_request :=
  mkRequest token_endpoint "POST"
    [("Content-Type", "application/x-www-form-urlencoded")]
    (Some (URLSearchParams_toString
             [("grant_type", "authorization_code");
              ("code", to_string code);
              ("redirect_uri", Authorizer.REDIRECT_URI);
              ("client_id", to_string clientId);
              ("code_verifier", codeVerifier)])).


(** The events of the callback server: requests to the outside, replies
    and the close of the listener. *)
Definition is_serving (e : event) : bool :=
  is_fetch e || is_reply e || is_close e.

(** What the callback server does from [s] to [s'] while it handles at
    most [n] requests: it logs [evs], sends at most one request, to the
    token endpoint, answers at most [n] requests, and leaves the file
    system and the environment alone. *)
Definition served (n : nat) (s s' : st unit) (evs : list event) : Prop :=
  trace (outside s') = (trace (outside s) ++ evs)%list /\
  fs (outside s') = fs (outside s) /\
  env (outside s') = env (outside s) /\
  (count is_fetch evs <= 1)%nat /\
  count is_token_request evs = count is_fetch evs /\
  (count is_reply evs <= n)%nat /\
  forallb is_serving evs = true.

(** The settlement as the outcome of the wait. *)
Definition settled (r : Authorizer.settlement) : outcome value :=
  match r with
  | Authorizer.Resolved v => Ret v
  | Authorizer.Rejected e => Throw e
  end.

(** What the exchange of the code was, in the events [evs] of a wait
    that ended with [o]: every request sent is the request of
    [exchangeCode] for the client [clientId] with the verifier of
    [pkce], and a wait that yields a value yields the tokens that a
    2xx answer to it carried, with the client id. *)
Definition exchanged `{P : Platform} (clientId : value) (pkce : Authorizer.pkce_pair)
  (evs : list event) (o : outcome value) : Prop :=
  (forall rq rp, In (EFetch rq rp) evs ->
     exists code, rq = exchange_request code clientId (Authorizer.verifier pkce)) /\
  (forall v, o = Ret v ->
     exists code r tokens,
       In (EFetch (exchange_request code clientId (Authorizer.verifier pkce))
             (NetResponse r)) evs /\
       rs_ok r = true /\
       JSON_parse (rs_body r) = inr tokens /\
       v = VObj [("tokens", tokens); ("clientId", clientId)]).

Definition is_mkdir (e : event) : bool :=
  match e with
  | EMkdir _ => true
  | _ => false
  end.

(** The line that the Authorizer prints when the promise of the
    callback server resolves. *)
Definition success_line : event :=
  EStdout [VStr ("   Authorization successful!" ++ nl)].

(** What [mkdirSync path] makes of the file system, when it
    succeeds. *)
Definition made (path : string) (f : gmap string fs_node) : option (gmap string fs_node) :=
  match f !! path with
  | Some FsDir => Some f
  | Some (FsFile _ _ _) => None
  | None => Some (<[path := FsDir]> f)
  end.

(** The path of the token store as the Authorizer builds it. *)
Definition saved_path `{P : Platform} (h : string) : string :=
  path_join [path_join [h; ".mcporter"]; "cirra-tokens.json"].

(** What a completed run of the Authorizer has saved, from [s] to [s']
    with the events [evs]: the client is the one that the registration
    answered, the tokens are the ones that a 2xx answer to the exchange
    carried, and the store holds the record [td] built from both, as
    [JSON.stringify(td, null, 2)]. *)
Definition saved `{P : Platform} (s s' : st unit) (evs : list event) : Prop :=
  exists h r0 client code verifier r tokens td data rd,
    env (outside s) !! "HOME" = Some h /\
    net (outside s) (fetched (outside s)) = NetResponse r0 /\
    JSON_parse (rs_body r0) = inr client /\
    In (EFetch (exchange_request code (prop client "client_id") verifier) (NetResponse r))
       evs /\
    rs_ok r = true /\
    JSON_parse (rs_body r) = inr tokens /\
    prop td "client_id" = prop client "client_id" /\
    prop td "access_token" = prop tokens "access_token" /\
    prop td "refresh_token" = prop tokens "refresh_token" /\
    JSON_stringify 2 td = Some data /\
    fs (outside s') !! saved_path h = Some (FsFile rd true data) /\
    In (EWriteFile (saved_path h) data) evs.

(** The authorization URL for a client, a state and a PKCE
    challenge. *)
Definition authorize_url (client_id : value) (state challenge : string) : string :=
  MCP_BASE ++ "/authorize?" ++
  URLSearchParams_toString
    [("response_type", "code");
     ("client_id", to_string client_id);
     ("redirect_uri", Authorizer.REDIRECT_URI);
     ("state", state);
     ("code_challenge", challenge);
     ("code_challenge_method", "S256")].

(** An event that respects the binding of PKCE to [verifier] and
    [state]: when it opens the browser, it is on the authorization URL
    with the challenge of [verifier]; when it is a request to the token
    endpoint, it is the exchange with [verifier] itself. *)
Definition bound_event `{P : Platform} (verifier state : string) (e : event) : Prop :=
  match e with
  | EExec cmd =>
      exists opener client_id,
        cmd = opener ++ " " ++ dquote ++
              authorize_url client_id state (sha256_base64url verifier) ++ dquote
  | EFetch rq _ =>
      rq_url rq = token_endpoint ->
      exists code client_id, rq = exchange_request code client_id verifier
  | _ => True
  end.


(** ** Further states for examples *)

(** A refresh that the token endpoint refuses. *)
Definition a_refused_refresh : st Invoker.vars :=
  invoker_at a_record None (Some (FsFile true true a_record_text)) 40000
    [NetResponse (mkResponse 400 [] "invalid_grant")].

(** A call that the server answers with an error and a session id. *)
Definition a_server_error : http_response :=
  mkResponse 500 [("mcp-session-id", "S1")] "oops".

Definition a_failing_call : st Invoker.vars :=
  invoker_at a_plain_record None None 40000 [NetResponse a_server_error].

(** An [initialize] that the server answers with an error. *)
Definition an_error_answer : net_reply :=
  ok_json (obj [member "jsonrpc" (str "2.0"); member "id" "1";
                member "error" (obj [member "message" (str "unsupported")])]).

Definition a_refused_initialize : st Invoker.vars :=
  invoker_at a_plain_record None None 40000 [an_error_answer; an_answer "2"].

(** The Authorizer with the answers [answers] of the network and the
    callback requests [requests] to come. *)
Definition authorizer_with (answers : list net_reply) (requests : list callback_request)
  : st unit :=
  St tt (set_inbox requests (a_world None None 40000 answers [])).

(** The state that the Authorizer draws in the example worlds. *)
Definition a_state : string := to_hex "0123456789abcdef0123456789abcdef".

Definition a_good_callback : callback_request :=
  a_callback [("code", "xyz"); ("state", a_state)].

Definition a_stray_request : callback_request := mkCallback "/favicon.ico" [].

(** The answer to the registration of the client. *)
Definition a_registration : net_reply := ok_json (obj [member "client_id" (str "abc")]).

(** A run of the whole flow that succeeds, and one that the server
    refuses at registration. *)
Definition a_flow : st unit :=
  authorizer_with [a_registration; a_token_answer "3600"] [a_stray_request; a_good_callback].

Definition a_flow_without_server : st unit :=
  authorizer_with [NetResponse (mkResponse 503 [] "unavailable")] [a_good_callback].

(** A run in which nobody answers before the timer fires. *)
Definition a_flow_without_callback : st unit :=
  authorizer_with [a_registration] [a_stray_request].

(** * Reasoning about runs

    Rules for [wp], one for each primitive of the monad, and the
    tactics that walk a script with them. *)

Section Rules.
Context {G : Type}.

Lemma wp_run {A} (m : M G A) Q s o s' :
  wp m Q s -> m s = (o, s') -> Q o s'.
Proof. unfold wp. intros H E. rewrite E in H. exact H. Qed.

Lemma wp_conseq {A} (m : M G A) (Q Q' : outcome A -> st G -> Prop) s :
  wp m Q' s -> (forall o s', Q' o s' -> Q o s') -> wp m Q s.
Proof. unfold wp. auto. Qed.

Lemma wp_ret {A} (a : A) Q (s : st G) : Q (Ret a) s -> wp (ret a) Q s.
Proof. exact (fun H => H). Qed.

Lemma wp_throw {A} e (Q : outcome A -> st G -> Prop) s : Q (Throw e) s -> wp (throw e) Q s.
Proof. exact (fun H => H). Qed.

Lemma wp_exit {A} c (Q : outcome A -> st G -> Prop) s :
  Q (Exit c) s -> wp (process_exit c) Q s.
Proof. exact (fun H => H). Qed.

Lemma wp_bind {A B} (m : M G A) (k : A -> M G B) Q s :
  wp m (fun o s1 =>
          match o with
          | Ret a => wp (k a) Q s1
          | Throw e => Q (Throw e) s1
          | Exit c => Q (Exit c) s1
          end) s ->
  wp (bind m k) Q s.
Proof.
  unfold wp, bind. destruct (m s) as [[a|e|c] s1]; simpl; auto.
Qed.

Lemma wp_try_catch {A} (m : M G A) h Q s :
  wp m (fun o s1 =>
          match o with
          | Throw e => wp (h e) Q s1
          | _ => Q o s1
          end) s ->
  wp (try_catch m h) Q s.
Proof.
  unfold wp, try_catch. destruct (m s) as [[a|e|c] s1]; simpl; auto.
Qed.

Lemma wp_lift {A} (r : exn + A) (Q : outcome A -> st G -> Prop) s :
  (forall e, r = inl e -> Q (Throw e) s) ->
  (forall a, r = inr a -> Q (Ret a) s) ->
  wp (lift r) Q s.
Proof. destruct r; unfold wp; simpl; auto. Qed.

Lemma wp_if {A} (b : bool) (m1 m2 : M G A) Q s :
  (b = true -> wp m1 Q s) -> (b = false -> wp m2 Q s) ->
  wp (if b then m1 else m2) Q s.
Proof. destruct b; auto. Qed.

Lemma wp_match_sum {A B C} (r : B + C) (f : B -> M G A) (g : C -> M G A) Q s :
  (forall b, r = inl b -> wp (f b) Q s) ->
  (forall c, r = inr c -> wp (g c) Q s) ->
  wp (match r with inl b => f b | inr c => g c end) Q s.
Proof. destruct r; auto. Qed.

Lemma wp_match_option {A B} (r : option B) (f : B -> M G A) (g : M G A) Q s :
  (forall b, r = Some b -> wp (f b) Q s) ->
  (r = None -> wp g Q s) ->
  wp (match r with Some b => f b | None => g end) Q s.
Proof. destruct r; auto. Qed.

Lemma wp_get_globals Q (s : st G) : Q (Ret (globals s)) s -> wp get_globals Q s.
Proof. exact (fun H => H). Qed.

Lemma wp_put_globals g Q (s : st G) :
  Q (Ret tt) (St g (outside s)) -> wp (put_globals g) Q s.
Proof. exact (fun H => H). Qed.

Lemma wp_get_world Q (s : st G) : Q (Ret (outside s)) s -> wp get_world Q s.
Proof. exact (fun H => H). Qed.

Lemma wp_put_world w Q (s : st G) :
  Q (Ret tt) (St (globals s) w) -> wp (put_world w) Q s.
Proof. exact (fun H => H). Qed.

Lemma wp_process_env name Q (s : st G) :
  Q (Ret (match env (outside s) !! name with Some v => VStr v | None => VUndef end)) s ->
  wp (process_env name) Q s.
Proof. exact (fun H => H). Qed.

Lemma wp_Date_now Q (s : st G) :
  Q (Ret (clock (outside s) (ticks (outside s))))
    (St (globals s) (set_ticks (S (ticks (outside s))) (outside s))) ->
  wp Date_now Q s.
Proof. exact (fun H => H). Qed.

Lemma wp_log_event e Q (s : st G) :
  Q (Ret tt) (St (globals s) (emit e (outside s))) -> wp (log_event e) Q s.
Proof. exact (fun H => H). Qed.

Lemma wp_fetch rq Q (s : st G) :
  (forall rp, net (outside s) (fetched (outside s)) = rp ->
     Q (match rp with
        | NetError msg => Throw (TypeError msg)
        | NetResponse r => Ret r
        end)
       (St (globals s)
           (emit (EFetch rq rp) (set_fetched (S (fetched (outside s))) (outside s))))) ->
  wp (fetch rq) Q s.
Proof.
  intros H. specialize (H _ eq_refl). unfold wp, fetch, bind, get_world, put_world.
  simpl. destruct (net (outside s) (fetched (outside s))); exact H.
Qed.

Lemma wp_existsSync path Q (s : st G) :
  Q (Ret (match fs (outside s) !! path with Some _ => true | None => false end)) s ->
  wp (existsSync path) Q s.
Proof. exact (fun H => H). Qed.

Lemma wp_readFileSync path Q (s : st G) :
  (forall r w data, fs (outside s) !! path = Some (FsFile r w data) -> r = true ->
     Q (Ret data) s) ->
  (forall e, (forall w data, fs (outside s) !! path <> Some (FsFile true w data)) ->
     Q (Throw e) s) ->
  wp (readFileSync path) Q s.
Proof.
  intros H1 H2. unfold wp, readFileSync, bind, get_world. simpl.
  destruct (fs (outside s) !! path) as [[[] w data|]|] eqn:E; simpl;
    first [ eapply H1; eauto; fail | apply H2; congruence ].
Qed.

Lemma wp_writeFileSync path data Q (s : st G) :
  (forall f', written path data (fs (outside s)) = Some f' ->
     Q (Ret tt) (St (globals s) (set_fs f' (emit (EWriteFile path data) (outside s))))) ->
  (forall e, written path data (fs (outside s)) = None ->
     Q (Throw e) (St (globals s) (emit (EWriteFile path data) (outside s)))) ->
  wp (writeFileSync path data) Q s.
Proof.
  intros H1 H2. unfold wp, writeFileSync, log_event, bind, get_world, put_world.
  simpl. unfold written in *.
  destruct (fs (outside s) !! path) as [[r [] d|]|] eqn:E; simpl;
    first [ apply H1; reflexivity | apply H2; reflexivity ].
Qed.

Lemma wp_home_path `{P : Platform} segments Q (s : st G) :
  (forall h, env (outside s) !! "HOME" = Some h -> Q (Ret (path_join (h :: segments))) s) ->
  (forall e, env (outside s) !! "HOME" = None -> Q (Throw e) s) ->
  wp (home_path segments) Q s.
Proof.
  intros H1 H2. unfold wp, home_path, process_env, bind, get_world, ret. simpl.
  destruct (env (outside s) !! "HOME") eqn:E; simpl; auto.
Qed.

End Rules.

Import Invoker.

Lemma wp_get_tokens Q (s : st vars) : Q (Ret (tokens (globals s))) s -> wp get_tokens Q s.
Proof. exact (fun H => H). Qed.

Lemma wp_get_sessionId Q (s : st vars) :
  Q (Ret (sessionId (globals s))) s -> wp get_sessionId Q s.
Proof. exact (fun H => H). Qed.

Lemma wp_set_tokens t Q (s : st vars) :
  Q (Ret tt) (St (mkVars (sessionId (globals s)) (messageId (globals s)) t) (outside s)) ->
  wp (set_tokens t) Q s.
Proof. exact (fun H => H). Qed.

Lemma wp_set_sessionId v Q (s : st vars) :
  Q (Ret tt) (St (mkVars v (messageId (globals s)) (tokens (globals s))) (outside s)) ->
  wp (set_sessionId v) Q s.
Proof. exact (fun H => H). Qed.

Lemma wp_next_messageId Q (s : st vars) :
  Q (Ret (messageId (globals s) + 1))
    (St (mkVars (sessionId (globals s)) (messageId (globals s) + 1) (tokens (globals s)))
        (outside s)) ->
  wp next_messageId Q s.
Proof. exact (fun H => H). Qed.

Lemma wp_tokens_set k v Q (s : st vars) :
  (forall e, set_prop (tokens (globals s)) k v = inl e -> Q (Throw e) s) ->
  (forall t', set_prop (tokens (globals s)) k v = inr t' ->
     Q (Ret tt) (St (mkVars (sessionId (globals s)) (messageId (globals s)) t') (outside s))) ->
  wp (tokens_set k v) Q s.
Proof.
  intros H1 H2. unfold wp, tokens_set, get_tokens, set_tokens, bind, get_globals,
    put_globals, lift. simpl.
  destruct (set_prop (tokens (globals s)) k v) eqn:E; simpl; auto.
Qed.

Lemma wp_JSON_parse_throw `{P : Platform} {G} text Q (s : st G) :
  (forall msg, JSON_parse text = inl msg -> Q (Throw (SyntaxError msg)) s) ->
  (forall v, JSON_parse text = inr v -> Q (Ret v) s) ->
  wp (JSON_parse_throw text) Q s.
Proof.
  intros H1 H2. unfold wp, JSON_parse_throw. destruct (JSON_parse text) eqn:E; simpl; auto.
Qed.

Ltac wp_call := fail.

Ltac norm_goal :=
  cbn [globals outside Invoker.sessionId Invoker.messageId Invoker.tokens trace env fs
       clock ticks net fetched argv os_platform browser_ok entropy drawn inbox emit
       set_trace set_fetched set_ticks set_fs set_drawn set_inbox].

Ltac wp_step1 :=
  lazymatch goal with
  | |- wp (bind _ _) _ _ => apply wp_bind
  | |- wp (ret _) _ _ => apply wp_ret
  | |- wp (throw _) _ _ => apply wp_throw
  | |- wp (process_exit _) _ _ => apply wp_exit
  | |- wp (try_catch _ _) _ _ => apply wp_try_catch
  | |- wp get_globals _ _ => apply wp_get_globals
  | |- wp (put_globals _) _ _ => apply wp_put_globals
  | |- wp get_world _ _ => apply wp_get_world
  | |- wp (put_world _) _ _ => apply wp_put_world
  | |- wp (process_env _) _ _ => apply wp_process_env
  | |- wp Date_now _ _ => apply wp_Date_now
  | |- wp (log_event _) _ _ => apply wp_log_event
  | |- wp (console_log _) _ _ => apply wp_log_event
  | |- wp (console_error _) _ _ => apply wp_log_event
  | |- wp (fetch _) _ _ => apply wp_fetch; intros [?|?] ?
  | |- wp (existsSync _) _ _ => apply wp_existsSync
  | |- wp (readFileSync _) _ _ => apply wp_readFileSync; [ intros ? ? ? ? ? | intros ? ? ]
  | |- wp (writeFileSync _ _) _ _ => apply wp_writeFileSync; intros ? ?
  | |- wp (home_path _) _ _ => apply wp_home_path; intros ? ?
  | |- wp tokenPath _ _ => apply wp_home_path; intros ? ?
  | |- wp get_tokens _ _ => apply wp_get_tokens
  | |- wp get_sessionId _ _ => apply wp_get_sessionId
  | |- wp (set_tokens _) _ _ => apply wp_set_tokens
  | |- wp (set_sessionId _) _ _ => apply wp_set_sessionId
  | |- wp next_messageId _ _ => apply wp_next_messageId
  | |- wp (tokens_set _ _) _ _ => apply wp_tokens_set; intros ? ?
  | |- wp (JSON_parse_throw _) _ _ => apply wp_JSON_parse_throw; intros ? ?
  | |- wp (lift _) _ _ => apply wp_lift; intros ? ?
  | |- wp (if _ then _ else _) _ _ => apply wp_if; intros ?
  | |- wp (let _ := _ in _) _ _ => cbv zeta
  | |- wp (match ?x with Some _ => _ | None => _ end) _ _ =>
      apply wp_match_option; [ intros ? ? | intros ? ]
  | |- wp (match ?x with inl _ => _ | inr _ => _ end) _ _ =>
      apply wp_match_sum; intros ? ?
  | |- wp (match ?x with _ => _ end) ?Q _ => destruct x eqn:?
  | |- wp _ _ _ => wp_call
  | |- match ?o with Ret _ => _ | Throw _ => _ | Exit _ => _ end => destruct o eqn:?
  end.

Ltac wp_step := wp_step1; norm_goal.

Ltac wp_go := repeat wp_step.

Ltac norm :=
  cbn [globals outside sessionId messageId tokens trace env fs clock ticks net fetched
       argv os_platform browser_ok entropy drawn inbox emit set_trace set_fetched
       set_ticks set_fs set_drawn set_inbox] in *.

Lemma count_app p (l1 l2 : list event) : count p (l1 ++ l2) = (count p l1 + count p l2)%nat.
Proof. unfold count. rewrite List.filter_app, List.length_app. reflexivity. Qed.

Lemma set_prop_defined t k v t' :
  set_prop t k v = inr t' -> match t' with VUndef | VNull => False | _ => True end.
Proof. destruct t; simpl; intros [= <-]; exact Logic.I. Qed.

Lemma get_prop_inr_inl t k a k' e :
  get_prop t k = inr a -> get_prop t k' = inl e -> False.
Proof. destruct t; simpl; congruence. Qed.

Ltac absurd_read :=
  match goal with
  | H1 : get_prop ?t _ = inr _, H2 : get_prop ?t _ = inl _ |- _ =>
      exfalso; exact (get_prop_inr_inl _ _ _ _ _ H1 H2)
  end.

Lemma negb_false_true b : negb b = false -> b = true.
Proof. destruct b; auto. Qed.

Lemma negb_true_false b : negb b = true -> b = false.
Proof. destruct b; auto. Qed.

Ltac bools :=
  repeat match goal with
  | H : negb _ = false |- _ => apply negb_false_true in H
  | H : negb _ = true |- _ => apply negb_true_false in H
  end.

(** [trace s' = trace s ++ ?evs] for the events that were emitted. *)
Ltac trace_ext :=
  norm; first [ symmetry; apply app_nil_r | rewrite <- ?app_assoc; reflexivity ].

Lemma get_prop_null t k e :
  get_prop t k = inl e -> match t with VUndef | VNull => False | _ => True end -> False.
Proof. destruct t; simpl; congruence || auto. Qed.

Ltac absurd_null :=
  match goal with
  | H1 : get_prop ?t _ = inl _, H2 : forall v, Ret _ = Ret v -> _ |- _ =>
      exfalso; exact (get_prop_null _ _ _ H1 (H2 _ eq_refl))
  | H : forall c, Exit ?x <> Exit c |- _ => exfalso; exact (H _ eq_refl)
  end.

(** Rewrite with the facts that the execution has established. *)
Ltac use_facts :=
  repeat match goal with
  | H : get_prop _ _ = _ |- _ => rewrite H
  | H : truthy _ = _ |- _ => rewrite H
  | H : rs_ok _ = _ |- _ => rewrite H
  | H : includes _ _ = _ |- _ => rewrite H
  | H : JSON_parse _ = _ |- _ => rewrite H
  | H : match to_number _ with _ => _ end = _ |- _ => rewrite H
  | H : sessionId (globals _) = _ |- _ => rewrite H
  | H : messageId (globals _) = _ |- _ => rewrite H
  | H : trace (outside _) = _ |- _ => rewrite H
  end.


(** * The Tool Invoker *)

Section Refresh.
Context `{P : Platform}.

(** What a refresh leaves in the trace: no MCP request, one token
    request if there is a refresh token, and no notice. *)
Lemma refresh_events (s : st vars) : wp refreshTokens (refresh_events_post s) s.
Proof.
  unfold refreshTokens, refresh_events_post, refresh_attempts.
  wp_go; bools; norm; try absurd_read;
    repeat match goal with
    | H : get_prop _ "refresh_token" = _ |- _ => rewrite H
    | H : truthy _ = _ |- _ => rewrite H
    end;
    (split; [reflexivity | split; [reflexivity |]]);
    (eexists; split; [trace_ext | split; [reflexivity | split; [reflexivity | split; [reflexivity | split]]]]);
    try discriminate;
    intros ? [=]; subst;
    match goal with
    | H : set_prop _ "expires_at" _ = inr _ |- _ => exact (set_prop_defined _ _ _ _ H)
    end.
Qed.

End Refresh.

Section Calls.
Context `{P : Platform}.

Ltac wp_call ::=
  lazymatch goal with
  | |- wp refreshTokens _ _ =>
      eapply wp_conseq; [ apply refresh_events | ];
      intros [?|?|?] ? (? & ? & ? & ? & ? & ? & ? & ? & ?)
  end.

Lemma mcpCall_spec method params isInitialize (s : st vars) :
  wp (mcpCall method params isInitialize) (mcp_post method params isInitialize s) s.
Proof.
  unfold mcpCall, mcp_post, refresh_due.
  wp_go.
  all: bools; norm; try absurd_read; try absurd_null.
  all: cbv zeta in *; use_facts; cbn [andb].
  all: eexists; split;
    [ first [ intros H'; discriminate H' | intros _; reflexivity ]
    | split;
      [ first [ intros H'; discriminate H'
              | intros _; eexists; split;
                [reflexivity | split; [eassumption | split; eassumption]] ]
      | ] ].
  all: solve
    [ left; split; [ rewrite <- ?app_assoc, ?app_nil_r; reflexivity | ];
      split; [reflexivity | split; [reflexivity | split; [eexists; reflexivity |]]];
      first [ intros H'; discriminate H'
            | intros _; eexists; first [eassumption | reflexivity] ]
    | right; eexists _, _; split; [ rewrite <- ?app_assoc; reflexivity | ];
      split; [reflexivity | ];
      unfold capture, decode_reply, content_type; cbv zeta; use_facts;
      cbn [negb]; split; reflexivity ].
Qed.


(** [C1] Before an MCP call is sent, the credential record is refreshed
    exactly when its [expires_at] is truthy (a number other than 0) and
    the clock reads strictly more than [expires_at - 60000]: then the
    notice is printed and the token endpoint is asked once, before the
    call. With [expires_at] 0, [null], [undefined], or with the clock at
    or before [expires_at - 60000] (the record expires in a minute or
    more), nothing happens before the call. *)
Theorem refresh_iff_within_a_minute method params isInitialize (s s' : st vars) o :
  mcpCall method params isInitialize s = (o, s') ->
  let now := clock (outside s) (ticks (outside s)) in
  let record := tokens (globals s) in
  exists new,
    trace (outside s') = (trace (outside s) ++ new)%list /\
    (forall e, get_prop record "expires_at" = inr (VNum e) ->
       e <> 0 -> now > e - 60000 ->
       refreshed_once (refresh_attempts record) new) /\
    (forall e, get_prop record "expires_at" = inr (VNum e) ->
       e = 0 \/ now <= e - 60000 ->
       not_refreshed new) /\
    (get_prop record "expires_at" = inr VNull \/
     get_prop record "expires_at" = inr VUndef ->
     not_refreshed new).
Proof.
  intros Hrun now record.
  pose proof (wp_run _ _ _ _ _ (mcpCall_spec method params isInitialize s) Hrun)
    as (pre & Hno & Hyes & Hsend).
  fold now record in Hno, Hyes, Hsend.
  assert (Hdue_yes : forall e, get_prop record "expires_at" = inr (VNum e) ->
            e <> 0 -> now > e - 60000 -> refresh_due record now = true).
  { intros e Hea Hnz Hgt. unfold refresh_due. rewrite Hea. cbn [truthy to_number].
    apply andb_true_intro. split.
    - apply negb_true_iff, Z.eqb_neq. exact Hnz.
    - apply Z.gtb_lt. lia. }
  assert (Hdue_no : forall e, get_prop record "expires_at" = inr (VNum e) ->
            e = 0 \/ now <= e - 60000 -> refresh_due record now = false).
  { intros e Hea Hor. unfold refresh_due. rewrite Hea. cbn [truthy to_number].
    destruct Hor as [-> | Hle]; [reflexivity |].
    apply andb_false_intro2. rewrite Z.gtb_ltb. apply Z.ltb_ge. lia. }
  assert (Hdue_null : get_prop record "expires_at" = inr VNull \/
                      get_prop record "expires_at" = inr VUndef ->
                      refresh_due record now = false).
  { unfold refresh_due. intros [-> | ->]; reflexivity. }
  assert (Hquiet : refresh_due record now = false ->
            forall new, trace (outside s') = (trace (outside s) ++ new)%list ->
            (exists at_ rp, trace (outside s') =
               (trace (outside s) ++ pre ++
                [EFetch (mcp_request (messageId (globals s) + 1) method params at_
                           isInitialize (sessionId (globals s))) rp])%list) ->
            not_refreshed new).
  { intros Hdue new Hnew (at_ & rp & Htr). rewrite (Hno Hdue) in Htr. cbn [app] in Htr.
    rewrite Hnew in Htr. apply app_inv_head in Htr. subst new.
    eexists _, _. split; reflexivity. }
  destruct Hsend as [(Htr & _ & _ & (e & ->) & Hread) | (at_ & rp & Htr & _ & _ & ->)].
  - exists pre. split; [exact Htr |]. split; [| split].
    + intros e0 Hea Hnz Hgt.
      destruct (Hyes (Hdue_yes _ Hea Hnz Hgt)) as (r & -> & Htok & Hmcp & Hnot).
      exists r, []. rewrite app_nil_r. repeat split; auto.
    + intros e0 Hea Hor. destruct (Hread (Hdue_no _ Hea Hor)) as (e1 & He1).
      unfold record in *. congruence.
    + intros Hor. destruct (Hread (Hdue_null Hor)) as (e1 & He1).
      unfold record in *. destruct Hor; congruence.
  - eexists. split; [exact Htr |]. split; [| split].
    + intros e0 Hea Hnz Hgt.
      destruct (Hyes (Hdue_yes _ Hea Hnz Hgt)) as (r & -> & Htok & Hmcp & Hnot).
      exists r. eexists. split; [reflexivity |]. repeat split; auto.
      right. eexists _, _. split; reflexivity.
    + intros e0 Hea Hor. apply (Hquiet (Hdue_no _ Hea Hor)); eauto.
    + intros Hor. apply (Hquiet (Hdue_null Hor)); eauto.
Qed.

End Calls.

(** ** Event streams *)

Section Streams.
Context `{P : Platform}.

Lemma sse_step_frames result line :
  sse_step result line =
  List.last (List.filter is_response
               (if startsWith line "data: " && truthy (VStr (trim (slice 6 line))) then
                  match JSON_parse (slice 6 line) with
                  | inr v => [v]
                  | inl _ => []
                  end
                else [])) result.
Proof.
  unfold sse_step, is_response, prop.
  destruct (startsWith line "data: "); [| reflexivity]. cbn [andb].
  destruct (truthy (VStr (trim (slice 6 line)))); [| reflexivity].
  destruct (JSON_parse (slice 6 line)) as [msg | parsed]; [reflexivity |].
  cbn [List.filter].
  destruct (get_prop parsed "jsonrpc") as [e1 | j] eqn:Hj;
    destruct (get_prop parsed "id") as [e2 | i] eqn:Hi;
    try (exfalso; eapply get_prop_inr_inl; eassumption);
    cbn [strict_eq_str is_defined andb List.filter List.last]; try reflexivity.
  destruct (strict_eq_str j "2.0" && is_defined i); reflexivity.
Qed.

Lemma last_cons_default {A} (x : A) l d d' :
  List.last (x :: l) d = List.last (x :: l) d'.
Proof.
  revert x. induction l as [| y l IH]; intros x; [reflexivity |].
  change (List.last (y :: l) d = List.last (y :: l) d'). apply IH.
Qed.

Lemma last_app_default {A} (l1 l2 : list A) d :
  List.last (l1 ++ l2) d = List.last l2 (List.last l1 d).
Proof.
  revert d. induction l1 as [| x l1 IH]; intros d; [reflexivity |].
  destruct l2 as [| y l2].
  - rewrite app_nil_r. reflexivity.
  - transitivity (List.last (l1 ++ y :: l2) d).
    + cbn [app]. destruct (l1 ++ y :: l2)%list eqn:E; [| reflexivity].
      destruct l1; discriminate.
    + rewrite IH. apply last_cons_default.
Qed.

Lemma fold_sse_step lines result :
  fold_left sse_step lines result =
  List.last
    (List.filter is_response
       (flat_map
          (fun line =>
             if startsWith line "data: " && truthy (VStr (trim (slice 6 line))) then
               match JSON_parse (slice 6 line) with
               | inr v => [v]
               | inl _ => []
               end
             else [])
          lines)) result.
Proof.
  revert result. induction lines as [| line lines IH]; intros result; [reflexivity |].
  cbn [fold_left flat_map]. rewrite IH, List.filter_app, last_app_default.
  rewrite <- sse_step_frames. reflexivity.
Qed.

(** [parseSSEResponse] returns the last response frame. *)
Lemma parseSSEResponse_last text :
  parseSSEResponse text = List.last (responses text) VNull.
Proof. apply fold_sse_step. Qed.

Lemma is_response_truthy v : is_response v = true -> truthy v = true.
Proof.
  unfold is_response, prop. destruct v; cbn; try discriminate; reflexivity.
Qed.

Lemma last_rev {A} (l : list A) d :
  List.last l d = match rev l with x :: _ => x | [] => d end.
Proof.
  induction l as [| x l IH] using rev_ind; [reflexivity |].
  rewrite last_app_default, rev_app_distr. reflexivity.
Qed.

Lemma count_app_tail p (l : list event) e :
  count p (l ++ [e]) = (count p l + (if p e then 1 else 0))%nat.
Proof. rewrite count_app. unfold count. cbn. destruct (p e); reflexivity. Qed.

(** [C3] When the answer to an MCP request is a 2xx response that
    declares an event-stream content type, the call returns the LAST
    frame of the body whose [jsonrpc] field is ["2.0"] and whose [id] is
    defined (each later such frame replaces the earlier one); with no
    such frame it fails with [EmptyStreamResponseError]. *)
Theorem sse_last_response_wins method params isInitialize (s s' : st vars) o evs rq resp :
  mcpCall method params isInitialize s = (o, s') ->
  trace (outside s') = (trace (outside s) ++ evs ++ [EFetch rq (NetResponse resp)])%list ->
  rq_url rq = mcp_endpoint ->
  rs_ok resp = true ->
  includes (content_type resp) "text/event-stream" = true ->
  o = match rev (responses (rs_body resp)) with
      | frame :: _ => Ret frame
      | [] => Throw EmptyStreamResponseError
      end.
Proof.
  intros Hrun Htrace Hurl Hok Hsse.
  pose proof (wp_run _ _ _ _ _ (mcpCall_spec method params isInitialize s) Hrun)
    as (pre & Hno & Hyes & Hsend).
  assert (Hpre : count is_mcp_request pre = 0%nat).
  { destruct (refresh_due _ _).
    - destruct (Hyes eq_refl) as (r & -> & _ & Hr & _). exact Hr.
    - rewrite (Hno eq_refl). reflexivity. }
  destruct Hsend as [(Htr & _) | (at_ & rp & Htr & _ & _ & ->)].
  - rewrite Htrace in Htr. apply app_inv_head in Htr. subst pre.
    rewrite count_app_tail in Hpre. cbn [is_mcp_request] in Hpre.
    rewrite Hurl, String.eqb_refl in Hpre. lia.
  - rewrite Htrace in Htr. apply app_inv_head in Htr.
    apply app_inj_tail in Htr as [_ [= _ <-]].
    unfold decode_reply. rewrite Hok, Hsse. cbn [negb].
    rewrite parseSSEResponse_last, last_rev.
    destruct (rev (responses (rs_body resp))) as [| frame rest] eqn:Hrev; [reflexivity |].
    assert (Hin : In frame (responses (rs_body resp))).
    { apply in_rev. rewrite Hrev. left. reflexivity. }
    apply List.filter_In in Hin as [_ Hresp].
    rewrite (is_response_truthy _ Hresp). reflexivity.
Qed.

End Streams.

(** ** Records *)

Lemma lookup_insert_prop_same k v props :
  lookup_prop k (insert_prop k v props) = v.
Proof.
  induction props as [| [k' v'] rest IH]; cbn [insert_prop lookup_prop].
  - rewrite String.eqb_refl. reflexivity.
  - destruct (String.eqb k' k) eqn:E.
    + cbn [lookup_prop]. rewrite String.eqb_refl. reflexivity.
    + destruct (array_index k) as [n |], (array_index k') as [n' |];
        repeat match goal with
        | |- context [if ?b then _ else _] => destruct b
        end;
        cbn [lookup_prop]; rewrite ?String.eqb_refl, ?E; auto.
Qed.

Lemma lookup_insert_prop_other k k2 v props :
  String.eqb k k2 = false ->
  lookup_prop k2 (insert_prop k v props) = lookup_prop k2 props.
Proof.
  intros Hne. induction props as [| [k' v'] rest IH]; cbn [insert_prop lookup_prop].
  - rewrite Hne. reflexivity.
  - destruct (String.eqb k' k) eqn:E.
    + apply String.eqb_eq in E. subst k'. cbn [lookup_prop]. rewrite Hne. reflexivity.
    + assert (Hkeep : lookup_prop k2 ((k', v') :: insert_prop k v rest) =
                      (if String.eqb k' k2 then v' else lookup_prop k2 rest)).
      { cbn [lookup_prop]. rewrite IH. reflexivity. }
      assert (Hfront : lookup_prop k2 ((k, v) :: (k', v') :: rest) =
                       (if String.eqb k' k2 then v' else lookup_prop k2 rest)).
      { cbn [lookup_prop]. rewrite Hne. reflexivity. }
      destruct (array_index k) as [n |], (array_index k') as [n' |];
        try exact Hkeep.
      * destruct (n <? n'); [exact Hfront | exact Hkeep].
      * destruct (existsb _ rest); [exact Hkeep | exact Hfront].
Qed.

(** Reading a property after an assignment on an object. *)
Lemma prop_set_same t k v t' :
  set_prop t k v = inr t' -> (exists props, t = VObj props) -> prop t' k = v.
Proof.
  intros H [props ->]. cbn in H. injection H as <-.
  unfold prop. cbn. apply lookup_insert_prop_same.
Qed.

Lemma prop_set_other t k k2 v t' :
  set_prop t k v = inr t' -> String.eqb k k2 = false -> prop t' k2 = prop t k2.
Proof.
  intros H Hne. destruct t; cbn in H; try discriminate; injection H as <-;
    try reflexivity.
  unfold prop. cbn. apply lookup_insert_prop_other. exact Hne.
Qed.

Lemma set_prop_object t k v t' :
  set_prop t k v = inr t' -> (exists props, t = VObj props) -> exists props', t' = VObj props'.
Proof. intros H [props ->]. cbn in H. injection H as <-. eauto. Qed.

Lemma prop_of_get t k v : get_prop t k = inr v -> prop t k = v.
Proof. unfold prop. intros ->. reflexivity. Qed.

(** Read the properties of the objects that a chain of assignments
    has produced. *)
Ltac props :=
  repeat match goal with
  | H : get_prop ?t ?k = inr ?v |- _ => apply prop_of_get in H
  end;
  repeat match goal with
  | H : set_prop ?t _ _ = inr ?t', Ho : exists props, ?t = VObj props |- _ =>
      lazymatch goal with
      | _ : exists props, t' = VObj props |- _ => fail
      | _ => pose proof (set_prop_object _ _ _ _ H Ho)
      end
  end;
  repeat match goal with
  | H : set_prop ?t ?k ?v = inr ?t' |- context [prop ?t' ?k2] =>
      first [ rewrite (prop_set_other t k k2 v t' H) by reflexivity
            | rewrite (prop_set_same t k v t' H) by assumption ]
  end;
  repeat match goal with
  | H : prop ?t ?k = _ |- context [prop ?t ?k] => rewrite H
  | H : truthy _ = _ |- _ => rewrite H
  end.

Section Records.
Context `{P : Platform}.

(** [C9] A refresh of a credential record whose [refresh_token] is
    absent ([undefined]), empty, or falsy in any other way throws
    ['No refresh token available'] and leaves the whole state as it was:
    no request is sent, and neither the record in memory nor the file
    system changes. *)
Theorem refresh_needs_refresh_token (s : st vars) (rt : value) :
  get_prop (tokens (globals s)) "refresh_token" = inr rt ->
  truthy rt = false ->
  refreshTokens s = (Throw (Error "No refresh token available"), s).
Proof.
  intros Hget Hrt. unfold refreshTokens, bind, get_tokens, get_globals, ret, lift.
  cbn. rewrite Hget. cbn. rewrite Hrt. reflexivity.
Qed.

Lemma refresh_fields (s : st vars) : wp refreshTokens (refresh_fields_post s) s.
Proof.
  unfold refreshTokens, refresh_fields_post.
  wp_go; bools; norm; intros vv props [=] Hobj; subst.
  all: eexists _, _; split; [eassumption | split; [eassumption | split; [reflexivity |]]].
  all: assert (Hobj' : exists props, tokens (globals s) = VObj props) by eauto.
  all: norm; props; auto.
Qed.



End Records.

(** ** Runs of the process *)

Lemma mcp_log_app l1 l2 : mcp_log (l1 ++ l2) = (mcp_log l1 ++ mcp_log l2)%list.
Proof.
  induction l1 as [| e l1 IH]; [reflexivity |].
  destruct e; cbn [mcp_log app]; auto.
  destruct (String.eqb (rq_url rq) mcp_endpoint); cbn [app]; rewrite IH; reflexivity.
Qed.

Lemma count_mcp_log l : count is_mcp_request l = length (mcp_log l).
Proof.
  unfold count. induction l as [| e l IH]; [reflexivity |].
  destruct e; cbn [mcp_log List.filter is_mcp_request]; auto.
  destruct (String.eqb (rq_url rq) mcp_endpoint); cbn [length]; auto.
Qed.

Lemma no_mcp_log l : count is_mcp_request l = 0%nat -> mcp_log l = [].
Proof. rewrite count_mcp_log. destruct (mcp_log l); [reflexivity | discriminate]. Qed.

Section Runs.
Context `{P : Platform}.

Lemma exchanges_app sid mid cs1 cs2 :
  exchanges sid mid (cs1 ++ cs2) =
  (exchanges sid mid cs1 ++
   exchanges (session_after sid cs1) (mid + Z.of_nat (length cs1)) cs2)%list.
Proof.
  revert sid mid. induction cs1 as [| c cs1 IH]; intros sid mid.
  - cbn. rewrite Z.add_0_r. reflexivity.
  - cbn [app exchanges length]. rewrite IH. cbn [app]. do 3 f_equal.
    lia.
Qed.

Lemma session_after_app sid cs1 cs2 :
  session_after sid (cs1 ++ cs2) = session_after (session_after sid cs1) cs2.
Proof. unfold session_after. rewrite map_app, fold_left_app. reflexivity. Qed.

Lemma run_of_refl s : run_of s s [].
Proof.
  unfold run_of. cbn. split; [lia |]. split; [reflexivity |].
  exists []. rewrite app_nil_r. auto.
Qed.

Lemma run_of_trans s s1 s2 cs1 cs2 :
  run_of s s1 cs1 -> run_of s1 s2 cs2 -> run_of s s2 (cs1 ++ cs2).
Proof.
  intros (Hm1 & Hs1 & new1 & Ht1 & Hl1) (Hm2 & Hs2 & new2 & Ht2 & Hl2).
  unfold run_of. rewrite length_app, Nat2Z.inj_add, session_after_app.
  split; [lia |]. split; [congruence |].
  exists (new1 ++ new2)%list. split.
  - rewrite Ht2, Ht1, app_assoc. reflexivity.
  - rewrite mcp_log_app, exchanges_app, Hl1, Hl2, Hs1, Hm1. reflexivity.
Qed.

Lemma run_of_quiet s0 s t cs : run_of s0 s cs -> quiet s t -> run_of s0 t cs.
Proof.
  intros Hrun (Hm & Hs & evs & Ht & Hl).
  rewrite <- (app_nil_r cs). apply (run_of_trans _ _ _ _ _ Hrun).
  unfold run_of. cbn. split; [lia |]. split; [exact Hs |]. eauto.
Qed.

Lemma quiet_refl s : quiet s s.
Proof. unfold quiet. repeat split. exists []. rewrite app_nil_r. auto. Qed.

Lemma quiet_trans s t u : quiet s t -> quiet t u -> quiet s u.
Proof.
  intros (Hm1 & Hs1 & e1 & Ht1 & Hl1) (Hm2 & Hs2 & e2 & Ht2 & Hl2).
  unfold quiet. split; [congruence |]. split; [congruence |].
  exists (e1 ++ e2)%list. rewrite Ht2, Ht1, app_assoc, mcp_log_app, Hl1, Hl2. auto.
Qed.


Lemma mcpCall_run method params isInitialize (s : st vars) :
  wp (mcpCall method params isInitialize) (mcp_run_post method params isInitialize s) s.
Proof.
  eapply wp_conseq; [apply mcpCall_spec |].
  intros o s' (pre & Hno & Hyes & Hsend).
  assert (Hpre : mcp_log pre = []).
  { apply no_mcp_log. destruct (refresh_due _ _).
    - destruct (Hyes eq_refl) as (r & -> & _ & Hr & _). exact Hr.
    - rewrite (Hno eq_refl). reflexivity. }
  destruct Hsend as [(Htr & Hs & Hm & He & _) | (at_ & rp & Htr & Hm & Hs & ->)].
  - left. split; [| exact He]. unfold run_of. cbn. split; [lia |]. split; [exact Hs |].
    eauto.
  - right. exists (mkCall method params isInitialize at_ rp).
    split; [| cbn; auto].
    unfold run_of. cbn. split; [lia |]. split; [exact Hs |].
    eexists. split; [exact Htr |]. rewrite mcp_log_app, Hpre. reflexivity.
Qed.

Ltac quiet_side :=
  unfold quiet; norm;
  split; [reflexivity | split; [reflexivity | eexists; split; [trace_ext | reflexivity]]].

Lemma loadTokens_quiet (s : st vars) : wp loadTokens (fun _ s' => quiet s s') s.
Proof. unfold loadTokens. wp_go; quiet_side. Qed.

Lemma print_item_quiet item (s : st vars) : wp (print_item item) (fun _ s' => quiet s s') s.
Proof. unfold print_item. wp_go; quiet_side. Qed.

Lemma for_each_quiet items (s : st vars) :
  wp (for_each items print_item) (fun _ s' => quiet s s') s.
Proof.
  revert s. induction items as [| item items IH]; intros s; cbn [for_each].
  - apply wp_ret. apply quiet_refl.
  - apply wp_bind. eapply wp_conseq; [apply print_item_quiet |].
    intros [[] | e | c] s1 H1; try exact H1.
    eapply wp_conseq; [apply IH |]. intros o s2 H2. exact (quiet_trans _ _ _ H1 H2).
Qed.

(** Follow the facts about the successive states up to the last one. *)
Ltac chain :=
  repeat match goal with
  | R : run_of ?s0 ?x ?acc, H : quiet ?a ?b |- _ =>
      let Q := fresh "Q" in
      assert (Q : quiet x a) by quiet_side;
      let R' := fresh "R" in
      pose proof (run_of_quiet _ _ _ _ (run_of_quiet _ _ _ _ R Q) H) as R';
      clear R H Q
  | R : run_of ?s0 ?x ?acc, H : run_of ?a ?b ?cs |- _ =>
      lazymatch a with s0 => fail | _ => idtac end;
      let Q := fresh "Q" in
      assert (Q : quiet x a) by quiet_side;
      let R' := fresh "R" in
      pose proof (run_of_trans _ _ _ _ _ (run_of_quiet _ _ _ _ R Q) H) as R';
      clear R H Q
  end.

Ltac wp_call ::=
  lazymatch goal with
  | |- wp loadTokens _ _ =>
      eapply wp_conseq; [ apply loadTokens_quiet | ]; intros [?|?|?] ? ?
  | |- wp (for_each _ print_item) _ _ =>
      eapply wp_conseq; [ apply for_each_quiet | ]; intros [?|?|?] ? ?
  | |- wp (mcpCall _ _ _) _ _ =>
      eapply wp_conseq; [ apply mcpCall_run | ];
      intros ? ? [(? & ? & ->) | (? & ? & ? & ? & ? & ->)]
  end.

Lemma main_run (s : st vars) : wp main (main_post s) s.
Proof.
  pose proof (run_of_refl s) as R0.
  unfold main, initializeSession, listTools, callTool, report_and_exit, main_post.
  wp_go.
  all: chain.
  all: match goal with
       | R : run_of ?s0 ?x ?acc |- exists cs, run_of ?s0 ?leaf cs /\ _ =>
           exists acc; split; [ apply (run_of_quiet _ _ _ _ R); quiet_side | ]
       end.
  all: unfold process_calls; cbn [app map length firstn];
       repeat match goal with
       | H : c_init _ = _ |- _ => rewrite H
       | H : c_method _ = _ |- _ => rewrite H
       end; reflexivity.
Qed.

Lemma nth_exchanges cs : forall sid mid k rq rp,
  nth_error (exchanges sid mid cs) k = Some (rq, rp) ->
  exists c,
    nth_error cs k = Some c /\
    rq = mcp_request (mid + Z.of_nat k + 1) (c_method c) (c_params c) (c_token c)
           (c_init c) (session_after sid (firstn k cs)) /\
    rp = c_reply c.
Proof.
  induction cs as [| c cs IH]; intros sid mid k rq rp H.
  - destruct k; discriminate H.
  - destruct k as [| k]; cbn [exchanges nth_error] in H.
    + injection H as <- <-. exists c. cbn. rewrite Z.add_0_r. auto.
    + destruct (IH _ _ _ _ _ H) as (c' & Hc & -> & ->).
      exists c'. cbn [nth_error firstn]. split; [exact Hc |]. split; [| reflexivity].
      f_equal. lia.
Qed.

Lemma answers_exchanges cs : forall sid mid,
  map snd (exchanges sid mid cs) = map c_reply cs.
Proof.
  induction cs as [| c cs IH]; intros sid mid; [reflexivity |].
  cbn [exchanges map snd]. rewrite IH. reflexivity.
Qed.

Lemma firstn_exchanges cs : forall sid mid k,
  firstn k (exchanges sid mid cs) = exchanges sid mid (firstn k cs).
Proof.
  induction cs as [| c cs IH]; intros sid mid k; destruct k; try reflexivity.
  cbn [exchanges firstn]. rewrite IH. reflexivity.
Qed.

Lemma nth_process_calls cs k c :
  process_calls cs -> nth_error cs k = Some c ->
  c_init c = Nat.eqb k 0 /\ String.eqb (c_method c) "initialize" = Nat.eqb k 0.
Proof.
  unfold process_calls. intros H Hk.
  assert (Hn : nth_error (map (fun c => (c_init c, String.eqb (c_method c) "initialize")) cs) k
               = Some (c_init c, String.eqb (c_method c) "initialize")).
  { rewrite nth_error_map, Hk. reflexivity. }
  rewrite H in Hn.
  assert (Hlen : (k < length cs)%nat) by (apply nth_error_Some; congruence).
  rewrite nth_error_firstn in Hn.
  destruct (Nat.ltb k (length cs)) eqn:E; [| apply Nat.ltb_ge in E; lia].
  assert (Hthree : (length cs <= 3)%nat).
  { apply (f_equal (@length _)) in H. rewrite length_map, length_firstn in H.
    cbn [length] in H. lia. }
  destruct k as [| [| [| k]]]; [| | | lia]; cbn in Hn; injection Hn as <- <-; auto.
Qed.

(** The MCP requests of a process: the [k]-th one, counted from [0],
    is the request of [mcpCall] with the id [k + 1] and the session id
    captured from the answers to the requests before it; it is the
    [initialize] request exactly when [k = 0]. *)
Lemma main_requests (w : world) o (s' : st vars) :
  main (St initial_vars w) = (o, s') ->
  exists new,
    trace (outside s') = (trace w ++ new)%list /\
    forall k rq rp, nth_error (mcp_log new) k = Some (rq, rp) ->
    exists method params token,
      rq = mcp_request (Z.of_nat k + 1) method params token (Nat.eqb k 0)
             (fold_left capture (map snd (firstn k (mcp_log new))) VNull) /\
      String.eqb method "initialize" = Nat.eqb k 0.
Proof.
  intros Hrun.
  destruct (wp_run _ _ _ _ _ (main_run (St initial_vars w)) Hrun)
    as (cs & (_ & _ & new & Htr & Hlog) & Hcalls).
  cbn [globals outside sessionId messageId initial_vars] in Htr, Hlog.
  exists new. split; [exact Htr |]. intros k rq rp Hk. rewrite Hlog in Hk |- *.
  destruct (nth_exchanges _ _ _ _ _ _ Hk) as (c & Hc & -> & ->).
  destruct (nth_process_calls _ _ _ Hcalls Hc) as (Hinit & Hmeth).
  exists (c_method c), (c_params c), (c_token c).
  rewrite firstn_exchanges, answers_exchanges, Hinit. split; [| exact Hmeth].
  unfold session_after. f_equal.
Qed.

End Runs.

(** ** Sessions, request ids and the token store *)

Lemma truthy_str s : s <> EmptyString -> truthy (VStr s) = true.
Proof.
  intros H. cbn. destruct (String.eqb s EmptyString) eqn:E; [| reflexivity].
  apply String.eqb_eq in E. contradiction.
Qed.



Section Process.
Context `{P : Platform}.

Lemma session_header_capture answers : forall sid,
  session_header (fold_left capture answers sid) =
  match rev (session_ids answers) with
  | v :: _ => Some v
  | [] => session_header sid
  end.
Proof.
  induction answers as [| rp answers IH]; intros sid; [reflexivity |].
  cbn [fold_left]. rewrite IH. unfold session_ids. cbn [flat_map].
  fold (session_ids answers). rewrite rev_app_distr.
  destruct (rev (session_ids answers)) as [| v rest]; [| reflexivity].
  cbn [app]. destruct rp as [msg | r]; [reflexivity |].
  unfold capture, headers_get.
  destruct (assoc "mcp-session-id" (rs_headers r)) as [v |]; [| reflexivity].
  cbn [truthy]. destruct (String.eqb v EmptyString) eqn:E; cbn [negb rev app].
  - reflexivity.
  - unfold session_header. cbn [truthy to_string]. rewrite E. reflexivity.
Qed.

Lemma mcp_session_header token isInitialize sid :
  assoc "Mcp-Session-Id" (mcp_headers token isInitialize sid) =
  if isInitialize then None else session_header sid.
Proof.
  unfold mcp_headers, session_header. destruct isInitialize; cbn [negb andb].
  - reflexivity.
  - destruct (truthy sid); reflexivity.
Qed.


(** [C4] In one Tool Invoker process the first MCP request is the
    [initialize] request and carries no [Mcp-Session-Id] header; every
    later request carries the session id of the latest earlier answer
    that had a non-empty [mcp-session-id] header - the answer to
    [initialize] included, and whatever the status of the answer - and
    no such header when no earlier answer had one. *)
Theorem session_id_is_latest_answer (w : world) o (s' : st vars) :
  main (St initial_vars w) = (o, s') ->
  exists new,
    trace (outside s') = (trace w ++ new)%list /\
    forall k rq rp, nth_error (mcp_log new) k = Some (rq, rp) ->
    assoc "Mcp-Session-Id" (rq_headers rq) =
      (if Nat.eqb k 0 then None
       else latest_session (map snd (firstn k (mcp_log new)))) /\
    exists method params,
      rq_body rq = JSON_stringify 0 (jsonrpc_request (Z.of_nat k + 1) method params) /\
      (method = "initialize" <-> k = 0%nat).
Proof.
  intros Hrun. destruct (main_requests w o s' Hrun) as (new & Htr & Hreq).
  exists new. split; [exact Htr |]. intros k rq rp Hk.
  destruct (Hreq k rq rp Hk) as (method & params & token & -> & Hmeth).
  split.
  - cbn [mcp_request rq_headers]. rewrite mcp_session_header.
    destruct (Nat.eqb k 0); [reflexivity |].
    rewrite session_header_capture. unfold latest_session.
    destruct (rev (session_ids _)); reflexivity.
  - exists method, params. split; [reflexivity |].
    rewrite <- String.eqb_eq, <- Nat.eqb_eq, Hmeth. reflexivity.
Qed.


(** With an unparseable cache, [loadTokens] returns what the store holds. *)
Lemma loadTokens_falls_back (s : st vars) c msg h :
  env (outside s) !! "CIRRA_OAUTH_CACHE" = Some c ->
  c <> EmptyString ->
  JSON_parse c = inl msg ->
  env (outside s) !! "HOME" = Some h ->
  exists s',
    loadTokens s =
      (Ret (stored_credentials (fs (outside s))
              (path_join [h; ".mcporter"; "cirra-tokens.json"])), s') /\
    fs (outside s') = fs (outside s) /\
    globals s' = globals s.
Proof.
  intros Hc Hne Hparse Hhome.
  unfold loadTokens, stored_credentials, tokenPath, home_path, process_env, existsSync,
    readFileSync, JSON_parse_throw, console_error, log_event, try_catch, bind, ret,
    throw, get_world, put_world.
  cbn [outside globals fst snd]. rewrite Hc. cbn [to_string].
  rewrite (truthy_str _ Hne), Hparse.
  cbn [outside globals env emit set_trace fs]. rewrite Hhome.
  cbn [outside globals env emit set_trace fs].
  destruct (fs (outside s) !! path_join [h; ".mcporter"; "cirra-tokens.json"])
    as [[[] wr data |] |] eqn:E;
    cbn [outside globals env emit set_trace fs]; rewrite ?E;
    cbn [outside globals env emit set_trace fs];
    try (eexists; split; [reflexivity | split; reflexivity]).
  destruct (JSON_parse data); eexists; (split; [reflexivity | split; reflexivity]).
Qed.

Lemma wp_exact {G A} (m : M G A) (s : st G) : wp m (fun o s' => m s = (o, s')) s.
Proof. unfold wp. destruct (m s); reflexivity. Qed.

(** Without credentials the Tool Invoker exits with status 1. *)
Lemma main_without_credentials (s : st vars) v s1 :
  loadTokens s = (Ret v, s1) -> truthy v = false ->
  exit_status (fst (main s)) = 1.
Proof.
  intros Hload Hfalsy.
  assert (H : wp main (fun o _ => exit_status o = 1) s).
  { unfold main. do 2 wp_step. destruct (argv (outside s)) as [| arg0 args].
    - wp_go. reflexivity.
    - wp_step. eapply wp_conseq; [apply wp_exact |]. intros o s' Ho.
      rewrite Hload in Ho. injection Ho as <- <-.
      wp_step. wp_step. rewrite Hfalsy. cbn [negb].
      wp_go. reflexivity. }
  exact H.
Qed.

(** [C10] When [CIRRA_OAUTH_CACHE] is set but does not parse as JSON,
    and [HOME] is set, loading the credentials does not fail: it returns
    what the token store under [HOME] parses to, and [null] when the
    store is absent, cannot be read or does not parse. When that value
    is falsy the Tool Invoker exits with status 1. *)
Theorem unparseable_cache_falls_back_to_store (s : st vars) c msg h :
  env (outside s) !! "CIRRA_OAUTH_CACHE" = Some c ->
  c <> EmptyString ->
  JSON_parse c = inl msg ->
  env (outside s) !! "HOME" = Some h ->
  let found := stored_credentials (fs (outside s))
                 (path_join [h; ".mcporter"; "cirra-tokens.json"]) in
  (exists s', loadTokens s = (Ret found, s')) /\
  (truthy found = false -> exit_status (fst (main s)) = 1).
Proof.
  intros Hc Hne Hparse Hhome found.
  destruct (loadTokens_falls_back s c msg h Hc Hne Hparse Hhome) as (s' & Hload & _).
  split; [eauto |]. intros Hfalsy. exact (main_without_credentials s _ _ Hload Hfalsy).
Qed.

End Process.

(** ** Token lifetimes *)

Lemma lifetime_rule_intro now issued record :
  prop record "expires_at" =
    (if truthy (prop issued "expires_in")
     then of_number (option_map (fun n => now + n * 1000)
                       (to_number (prop issued "expires_in")))
     else VNull) ->
  lifetime_rule now issued record.
Proof.
  intros H. split.
  - intros n Hn Hnz. rewrite H, Hn. cbn.
    destruct (n =? 0) eqn:E; [apply Z.eqb_eq in E; contradiction | reflexivity].
  - intros [Hu | Hz]; rewrite H; [rewrite Hu | rewrite Hz]; reflexivity.
Qed.

Section Lifetimes.
Context `{P : Platform}.

Lemma tokenData_fields result (s : st unit) :
  wp (Authorizer.tokenData result) (tokenData_post result s) s.
Proof.
  unfold Authorizer.tokenData, tokenData_post.
  wp_go; intros td [=]; subst; cbv zeta;
    repeat match goal with
    | H : get_prop ?t ?k = inr ?v |- _ => apply prop_of_get in H
    end;
    repeat match goal with
    | H : prop _ _ = _ |- _ => rewrite H
    | H : truthy _ = _ |- _ => rewrite H
    end;
    repeat split; reflexivity.
Qed.


(** [C6] After a refresh that succeeds, and in the record that the
    Authorizer builds from a token response, [expires_at] is the reading
    of the clock plus [expires_in * 1000] when the response has an
    [expires_in] that is a number other than 0, and [null] when
    [expires_in] is absent or 0 (the scripts test [expires_in] for
    truthiness). A refresh takes [access_token] from the response, and
    takes [refresh_token] from it when the response has a truthy one and
    keeps the old one otherwise. *)
Theorem expires_at_from_truthy_lifetime :
  (forall (s s' : st Invoker.vars) v props,
     Invoker.refreshTokens s = (Ret v, s') ->
     Invoker.tokens (globals s) = VObj props ->
     exists r issued,
       net (outside s) (fetched (outside s)) = NetResponse r /\
       JSON_parse (rs_body r) = inr issued /\
       v = Invoker.tokens (globals s') /\
       lifetime_rule (clock (outside s) (ticks (outside s))) issued v /\
       prop v "access_token" = prop issued "access_token" /\
       (truthy (prop issued "refresh_token") = true ->
        prop v "refresh_token" = prop issued "refresh_token") /\
       (truthy (prop issued "refresh_token") = false ->
        prop v "refresh_token" = prop (Invoker.tokens (globals s)) "refresh_token")) /\
  (forall result (s s' : st unit) td,
     Authorizer.tokenData result s = (Ret td, s') ->
     lifetime_rule (clock (outside s) (ticks (outside s))) (prop result "tokens") td /\
     prop td "access_token" = prop (prop result "tokens") "access_token" /\
     prop td "refresh_token" = prop (prop result "tokens") "refresh_token").
Proof.
  split.
  - intros s s' v props Hrun Hobj.
    destruct (wp_run _ _ _ _ _ (refresh_fields s) Hrun v props eq_refl Hobj)
      as (r & issued & Hnet & Hparse & Hv & Hat & Hrt & Hea).
    exists r, issued. repeat (split; [assumption |]). split; [| split; [exact Hat | split]].
    + apply lifetime_rule_intro. exact Hea.
    + intros Ht. rewrite Hrt, Ht. reflexivity.
    + intros Ht. rewrite Hrt, Ht. reflexivity.
  - intros result s s' td Hrun.
    destruct (wp_run _ _ _ _ _ (tokenData_fields result s) Hrun td eq_refl)
      as (_ & Hat & Hrt & Hea).
    split; [apply lifetime_rule_intro; exact Hea | split; assumption].
Qed.

End Lifetimes.

(** * The Authorizer *)

Section Callbacks.
Context `{P : Platform}.
Import Authorizer.

Lemma refused_fetches status page (s : st unit) :
  count is_fetch (trace (outside (refused status page s))) =
  count is_fetch (trace (outside s)).
Proof.
  unfold refused. cbn [outside trace emit set_trace].
  rewrite !count_app. cbn. lia.
Qed.

(** A callback with a non-empty [error] parameter. *)
Lemma callback_error_run state pkce clientId req rest (s : st unit) code :
  cb_pathname req = "/callback" ->
  assoc "error" (cb_searchParams req) = Some code ->
  code <> EmptyString ->
  callback_listener state pkce clientId req s =
    (Ret (Some (Rejected (AuthorizationError code))), refused 400 (error_page req code) s) /\
  await_callback state pkce clientId (req :: rest) s =
    (Throw (AuthorizationError code), refused 400 (error_page req code) s) /\
  count is_fetch (trace (outside (refused 400 (error_page req code) s))) =
    count is_fetch (trace (outside s)).
Proof.
  intros Hpath Herr Hne.
  assert (Hrun : callback_listener state pkce clientId req s =
                 (Ret (Some (Rejected (AuthorizationError code))),
                  refused 400 (error_page req code) s)).
  { unfold callback_listener. rewrite Hpath. cbn [String.eqb negb].
    change (String.eqb "/callback" "/callback") with true. cbn [negb].
    unfold error_page, headers_get. cbv zeta. rewrite Herr, (truthy_str _ Hne).
    reflexivity. }
  split; [exact Hrun |]. split.
  - cbn [await_callback]. unfold bind. rewrite Hrun. reflexivity.
  - apply refused_fetches.
Qed.

(** [C7] For every request to [/callback] that carries a non-empty
    [error] parameter, the Authorizer answers 400 with a page that shows
    the error code and the description, closes the listener and fails
    with an [AuthorizationError] whose message is the error code alone;
    no request is sent, so the token exchange is not attempted. *)
Theorem callback_error_rejects state pkce clientId req rest (s : st unit) code :
  cb_pathname req = "/callback" ->
  assoc "error" (cb_searchParams req) = Some code ->
  code <> EmptyString ->
  callback_listener state pkce clientId req s =
    (Ret (Some (Rejected (AuthorizationError code))), refused 400 (error_page req code) s) /\
  await_callback state pkce clientId (req :: rest) s =
    (Throw (AuthorizationError code), refused 400 (error_page req code) s) /\
  message (AuthorizationError code) = code /\
  count is_fetch (trace (outside (refused 400 (error_page req code) s))) =
    count is_fetch (trace (outside s)).
Proof.
  intros Hpath Herr Hne.
  destruct (callback_error_run state pkce clientId req rest s code Hpath Herr Hne)
    as (Hrun & Hawait & Hfetch).
  split; [exact Hrun |]. split; [exact Hawait |]. split; [reflexivity | exact Hfetch].
Qed.

(** [C5] For every request to [/callback] whose [state] parameter is
    absent or differs from the state of this attempt, the Authorizer
    answers 400, closes the listener and fails without sending any
    request, so the token exchange is never reached. The failure is
    [CsrfError] when the request has no [error] parameter or an empty
    one; when it has a non-empty [error] parameter, that is looked at
    first and the failure is the [AuthorizationError] of that code. *)
Theorem callback_state_mismatch_rejects state pkce clientId req rest (s : st unit) :
  cb_pathname req = "/callback" ->
  assoc "state" (cb_searchParams req) <> Some state ->
  exists e page,
    callback_listener state pkce clientId req s =
      (Ret (Some (Rejected e)), refused 400 page s) /\
    await_callback state pkce clientId (req :: rest) s = (Throw e, refused 400 page s) /\
    count is_fetch (trace (outside (refused 400 page s))) =
      count is_fetch (trace (outside s)) /\
    (assoc "error" (cb_searchParams req) = None \/
     assoc "error" (cb_searchParams req) = Some EmptyString ->
     e = CsrfError /\ page = csrf_page) /\
    (forall code, assoc "error" (cb_searchParams req) = Some code -> code <> EmptyString ->
     e = AuthorizationError code /\ page = error_page req code).
Proof.
  intros Hpath Hstate.
  assert (Hquiet : forall page,
            count is_fetch (trace (outside (refused 400 page s))) =
            count is_fetch (trace (outside s))).
  { intros page. unfold refused. cbn [outside trace emit set_trace].
    rewrite !count_app. cbn. lia. }
  destruct (assoc "error" (cb_searchParams req)) as [code |] eqn:Herr.
  - destruct (String.eqb code EmptyString) eqn:E.
    + apply String.eqb_eq in E. subst code.
      exists CsrfError, csrf_page.
      assert (Hrun : callback_listener state pkce clientId req s =
                     (Ret (Some (Rejected CsrfError)), refused 400 csrf_page s)).
      { unfold callback_listener. rewrite Hpath.
        change (String.eqb "/callback" "/callback") with true. cbn [negb].
        unfold headers_get. cbv zeta. rewrite Herr. cbn [truthy String.eqb negb].
        destruct (assoc "state" (cb_searchParams req)) as [st' |] eqn:Hst.
        - cbn [strict_eq_str]. destruct (String.eqb st' state) eqn:E.
          + apply String.eqb_eq in E. congruence.
          + reflexivity.
        - reflexivity. }
      split; [exact Hrun |]. split; [| split; [apply Hquiet | split]].
      * cbn [await_callback]. unfold bind. rewrite Hrun. reflexivity.
      * auto.
      * intros code [= <-] Hne. contradiction.
    + assert (Hne : code <> EmptyString).
      { intros ->. discriminate E. }
      destruct (callback_error_run state pkce clientId req rest s code Hpath Herr Hne)
        as (Hrun & Hawait & Hfetch).
      exists (AuthorizationError code), (error_page req code).
      split; [exact Hrun |]. split; [exact Hawait |]. split; [exact Hfetch |]. split.
      * intros [Hn | Hn]; [discriminate Hn | congruence].
      * intros code' [= <-] _. auto.
  - exists CsrfError, csrf_page.
    assert (Hrun : callback_listener state pkce clientId req s =
                   (Ret (Some (Rejected CsrfError)), refused 400 csrf_page s)).
    { unfold callback_listener. rewrite Hpath.
      change (String.eqb "/callback" "/callback") with true. cbn [negb].
      unfold headers_get. cbv zeta. rewrite Herr. cbn [truthy negb].
      destruct (assoc "state" (cb_searchParams req)) as [st' |] eqn:Hst.
      - cbn [strict_eq_str]. destruct (String.eqb st' state) eqn:E.
        + apply String.eqb_eq in E. congruence.
        + reflexivity.
      - reflexivity. }
    split; [exact Hrun |]. split; [| split; [apply Hquiet | split]].
    + cbn [await_callback]. unfold bind. rewrite Hrun. reflexivity.
    + auto.
    + intros code Hc. discriminate Hc.
Qed.

End Callbacks.

(** * The scripts on concrete worlds *)

(** Against [C1] as worded: a call made exactly 60 seconds before the
    expiry, where the claim has a refresh, sends the MCP request with no
    notice and no request to the token endpoint; and so does a call
    with a record whose [expires_at] is 0, which is not [null] and long
    past. *)
Lemma no_refresh_at_exactly_a_minute :
  get_prop (tokens (globals a_minute_before)) "expires_at" = inr (VNum 100000) /\
  100000 - clock (outside a_minute_before) (ticks (outside a_minute_before)) = 60000 /\
  refresh_due_as_claimed (tokens (globals a_minute_before))
    (clock (outside a_minute_before) (ticks (outside a_minute_before))) = true /\
  count is_notice (events_of (mcpCall (P:=node) "tools/list" (VObj []) false a_minute_before)) = 0%nat /\
  count is_token_request
    (events_of (mcpCall (P:=node) "tools/list" (VObj []) false a_minute_before)) = 0%nat /\
  count is_mcp_request
    (events_of (mcpCall (P:=node) "tools/list" (VObj []) false a_minute_before)) = 1%nat /\
  get_prop (tokens (globals expired_at_zero)) "expires_at" = inr (VNum 0) /\
  refresh_due_as_claimed (tokens (globals expired_at_zero))
    (clock (outside expired_at_zero) (ticks (outside expired_at_zero))) = true /\
  count is_token_request
    (events_of (mcpCall (P:=node) "tools/list" (VObj []) false expired_at_zero)) = 0%nat.
Proof. vm_compute. repeat split; reflexivity. Qed.

(** A call made 59.999 seconds before the expiry refreshes once. *)
Lemma refresh_iff_within_a_minute_witness :
  exists new,
    events_of (mcpCall (P:=node) "tools/list" (VObj []) false less_than_a_minute_before) = new /\
    refreshed_once 1 new.
Proof.
  pose (r := mcpCall (P:=node) "tools/list" (VObj []) false less_than_a_minute_before).
  destruct (refresh_iff_within_a_minute (P:=node) "tools/list" (VObj []) false
              less_than_a_minute_before (snd r) (fst r) (surjective_pairing r))
    as (new & Htr & Hdue & _).
  exists new. split; [exact Htr |].
  apply (Hdue 100000); [reflexivity | lia | vm_compute; reflexivity].
Defined.




(** Against [C3] as worded: of two response frames the call returns the
    second, not the first. *)
Lemma sse_first_response_not_returned :
  first_response (P:=node) (rs_body a_stream_response)
    = Some (VObj [("jsonrpc", VStr "2.0"); ("id", VNum 1); ("result", VObj [])]) /\
  fst (mcpCall (P:=node) "tools/list" (VObj []) false a_streamed_call)
    = Ret (VObj [("jsonrpc", VStr "2.0"); ("id", VNum 2); ("result", VObj [])]).
Proof. vm_compute. split; reflexivity. Qed.

(** The same stream, through the theorem. *)
Lemma sse_last_response_wins_witness :
  fst (mcpCall (P:=node) "tools/list" (VObj []) false a_streamed_call)
    = Ret (VObj [("jsonrpc", VStr "2.0"); ("id", VNum 2); ("result", VObj [])]).
Proof.
  set (r := mcpCall (P:=node) "tools/list" (VObj []) false a_streamed_call).
  rewrite (sse_last_response_wins (P:=node) "tools/list" (VObj []) false a_streamed_call
             (snd r) (fst r) []
             (mcp_request (P:=node) 1 "tools/list" (VObj []) (VStr "AT1") false VNull)
             a_stream_response (surjective_pairing r)).
  - vm_compute. reflexivity.
  - vm_compute. reflexivity.
  - reflexivity.
  - reflexivity.
  - vm_compute. reflexivity.
Defined.

(** Against [C4] as worded: the session id of the answer to
    [initialize] is already attached to the request that follows it. *)
Lemma session_id_from_initialize_answer :
  session_headers (mcp_log (events_of (main (P:=node) a_start_in_sessions)))
    = [None; Some "A"; Some "B"] /\
  session_headers_as_claimed (mcp_log (events_of (main (P:=node) a_start_in_sessions)))
    = [None; None; Some "B"].
Proof. vm_compute. split; reflexivity. Qed.

(** The second request of that process carries the session id [A]. *)
Lemma session_id_is_latest_answer_witness :
  exists rq rp,
    nth_error (mcp_log (events_of (main (P:=node) a_start_in_sessions))) 1 = Some (rq, rp) /\
    assoc "Mcp-Session-Id" (rq_headers rq) = Some "A".
Proof.
  pose (r := main (P:=node) a_start_in_sessions).
  destruct (session_id_is_latest_answer (P:=node) (outside a_start_in_sessions)
              (fst r) (snd r) (surjective_pairing r)) as (new & Htr & Hreq).
  change (trace (outside a_start_in_sessions)) with (@nil event) in Htr.
  cbn [app] in Htr. fold (events_of r) in Htr. subst new.
  assert (Hk : exists x, nth_error (mcp_log (events_of r)) 1 = Some x)
    by (vm_compute; eexists; reflexivity).
  destruct Hk as ([rq rp] & Hk). exists rq, rp. split; [exact Hk |].
  destruct (Hreq 1%nat rq rp Hk) as (Hh & _). rewrite Hh.
  vm_compute. reflexivity.
Defined.


(** Against [C5] as worded: a callback with a wrong state and an
    [error] parameter fails with the [AuthorizationError], not with
    [CsrfError]. *)
Lemma state_mismatch_with_error_is_not_csrf :
  assoc "state" (cb_searchParams a_denied_callback) = Some "wrong" /\
  fst (Authorizer.await_callback (P:=node) "expected" a_pkce (VStr "abc")
         [a_denied_callback] (authorizer_at []))
    = Throw (AuthorizationError "access_denied") /\
  AuthorizationError "access_denied" <> CsrfError.
Proof.
  split; [reflexivity | split; [vm_compute; reflexivity | discriminate]].
Qed.

(** A callback with a wrong state and no [error] parameter. *)
Lemma callback_state_mismatch_rejects_witness :
  Authorizer.await_callback (P:=node) "expected" a_pkce (VStr "abc")
    [a_forged_callback] (authorizer_at [a_token_answer "3600"])
  = (Throw CsrfError, refused 400 csrf_page (authorizer_at [a_token_answer "3600"])).
Proof.
  destruct (callback_state_mismatch_rejects (P:=node) "expected" a_pkce (VStr "abc")
              a_forged_callback [] (authorizer_at [a_token_answer "3600"]))
    as (e & page & _ & Hawait & _ & Hcsrf & _).
  - reflexivity.
  - vm_compute. discriminate.
  - destruct Hcsrf as [-> ->]; [left; reflexivity | exact Hawait].
Defined.

(** Against [C6] as worded: a token response with [expires_in] 0 has a
    lifetime, and the record gets [expires_at] [null]. *)
Lemma zero_lifetime_gives_null :
  exists issued v,
    JSON_parse (Platform:=node)
      (match a_token_answer "0" with NetResponse r => rs_body r | NetError _ => EmptyString end)
      = inr issued /\
    prop issued "expires_in" = VNum 0 /\
    fst (refreshTokens (P:=node) a_refresh_without_lifetime) = Ret v /\
    prop v "expires_at" = VNull /\
    expires_at_as_claimed
      (clock (outside a_refresh_without_lifetime) (ticks (outside a_refresh_without_lifetime)))
      issued = VNum 40000.
Proof. vm_compute. eexists _, _. repeat split; reflexivity. Qed.

(** A refresh answered with a lifetime of an hour. *)
Lemma expires_at_from_truthy_lifetime_witness :
  exists v,
    fst (refreshTokens (P:=node) a_refresh_for_an_hour) = Ret v /\
    prop v "expires_at" = VNum (40000 + 3600 * 1000).
Proof.
  pose (r := refreshTokens (P:=node) a_refresh_for_an_hour).
  assert (Hret : exists v, fst r = Ret v) by (vm_compute; eexists; reflexivity).
  destruct Hret as (v & Hv). exists v. split; [exact Hv |].
  assert (Hrun : refreshTokens (P:=node) a_refresh_for_an_hour = (Ret v, snd r)).
  { rewrite <- Hv. apply surjective_pairing. }
  destruct (proj1 (expires_at_from_truthy_lifetime (P:=node)) a_refresh_for_an_hour (snd r) v
              _ Hrun eq_refl) as (rs & issued & Hnet & Hparse & _ & [Hrule _] & _).
  vm_compute in Hnet. injection Hnet as <-.
  vm_compute in Hparse. injection Hparse as <-.
  apply (Hrule 3600); [reflexivity | lia].
Defined.

(** Against [C7] as worded: a callback with an empty [error] parameter
    goes on to the token exchange; and the failure for an [error] with a
    description carries the code alone. *)
Lemma empty_error_reaches_exchange :
  assoc "error" (cb_searchParams a_callback_with_empty_error) = Some EmptyString /\
  (exists v, fst (Authorizer.await_callback (P:=node) "expected" a_pkce (VStr "abc")
                    [a_callback_with_empty_error] (authorizer_at [a_token_answer "3600"]))
             = Ret v) /\
  count is_token_request
    (events_of (Authorizer.await_callback (P:=node) "expected" a_pkce (VStr "abc")
                  [a_callback_with_empty_error] (authorizer_at [a_token_answer "3600"])))
    = 1%nat /\
  assoc "error_description" (cb_searchParams a_denied_callback) = Some "The user said no" /\
  (exists e, fst (Authorizer.await_callback (P:=node) "expected" a_pkce (VStr "abc")
                    [a_denied_callback] (authorizer_at [])) = Throw e /\
             message e = "access_denied").
Proof.
  vm_compute. repeat split; try reflexivity; eexists; try split; reflexivity.
Qed.

(** A callback that reports [access_denied]. *)
Lemma callback_error_rejects_witness :
  Authorizer.await_callback (P:=node) "expected" a_pkce (VStr "abc")
    [a_denied_callback] (authorizer_at [])
  = (Throw (AuthorizationError "access_denied"),
     refused 400 (error_page a_denied_callback "access_denied") (authorizer_at [])).
Proof.
  destruct (callback_error_rejects (P:=node) "expected" a_pkce (VStr "abc")
              a_denied_callback [] (authorizer_at []) "access_denied")
    as (_ & Hawait & _).
  - reflexivity.
  - reflexivity.
  - vm_compute. discriminate.
  - exact Hawait.
Defined.

(** A record without [refresh_token]. *)
Lemma refresh_needs_refresh_token_witness :
  refreshTokens (P:=node) an_unrefreshable
  = (Throw (Error "No refresh token available"), an_unrefreshable).
Proof.
  apply (refresh_needs_refresh_token (P:=node) an_unrefreshable VUndef); reflexivity.
Defined.

(** Against [C10] as worded: without [HOME] the fall-back fails with a
    [TypeError]; and a store that is there, can be read and holds
    [null] yields no credentials either. *)
Lemma fallback_fails_without_home :
  env (outside a_start_without_home) !! "CIRRA_OAUTH_CACHE" = Some "not json" /\
  (exists msg, JSON_parse (Platform:=node) "not json" = inl msg) /\
  (exists e, fst (loadTokens (P:=node) a_start_without_home) = Throw e) /\
  fs (outside a_start_with_null_store) !! store = Some (FsFile true true "null") /\
  JSON_parse (Platform:=node) "null" = inr VNull /\
  fst (loadTokens (P:=node) a_start_with_null_store) = Ret VNull /\
  fst (main (P:=node) a_start_with_null_store) = Exit 1.
Proof.
  vm_compute. repeat split; try reflexivity; eexists; reflexivity.
Qed.

(** The fall-back to a store with a record, and to one with [null]. *)
Lemma unparseable_cache_falls_back_to_store_witness :
  (exists s', loadTokens (P:=node) a_start_from_the_store = (Ret a_record, s')) /\
  exit_status (fst (main (P:=node) a_start_with_null_store)) = 1.
Proof.
  split.
  - destruct (unparseable_cache_falls_back_to_store (P:=node) a_start_from_the_store
                "not json" "Unexpected token in JSON" home) as ((s' & Hload) & _).
    + reflexivity.
    + vm_compute. discriminate.
    + vm_compute. reflexivity.
    + reflexivity.
    + exists s'. rewrite Hload. vm_compute. reflexivity.
  - destruct (unparseable_cache_falls_back_to_store (P:=node) a_start_with_null_store
                "not json" "Unexpected token in JSON" home) as (_ & Hexit).
    + reflexivity.
    + vm_compute. discriminate.
    + vm_compute. reflexivity.
    + reflexivity.
    + apply Hexit. vm_compute. reflexivity.
Defined.

(** * Further properties of the Tool Invoker *)

Lemma after_events_nil {G} (s : st G) : after_events [] s = s.
Proof.
  destruct s as [g w]. destruct w. unfold after_events, set_trace. cbn.
  rewrite app_nil_r. reflexivity.
Qed.

(** The state reached is the state at the start after the events that
    were logged. *)
Ltac events_eq :=
  first [ symmetry; apply after_events_nil
        | unfold after_events, emit, set_trace; cbn; rewrite <- ?app_assoc; reflexivity ].

Ltac events_done :=
  eexists _, _; split; [reflexivity |]; split; [events_eq | reflexivity].

Section Loading.
Context `{P : Platform}.

Lemma truthy_cache c : c <> EmptyString -> truthy (VStr c) = true.
Proof.
  intros H. cbn. destruct (String.eqb c EmptyString) eqn:E; [| reflexivity].
  apply String.eqb_eq in E. contradiction.
Qed.

(** [X1] Run without arguments, the Tool Invoker prints its usage on the
    standard error stream and exits with status 1; it reads no
    credentials, sends no request and changes nothing else. *)
Theorem main_without_arguments (s : st vars) :
  argv (outside s) = [] ->
  exists usage,
    main s = (Exit 1, after_events usage s) /\
    forallb is_stderr usage = true /\
    length usage = 6%nat.
Proof.
  intros Hargs.
  unfold main, bind, get_world, console_error, log_event, put_world, process_exit.
  cbn [fst snd outside globals]. rewrite Hargs.
  eexists. split.
  - unfold after_events, emit, set_trace. cbn. rewrite <- !app_assoc. reflexivity.
  - split; reflexivity.
Qed.

(** [X2] A cache that parses is what [loadTokens] returns, whatever the
    store holds: the file system is not looked at and nothing is
    logged. *)
Theorem loadTokens_prefers_cache (s : st vars) c v :
  env (outside s) !! "CIRRA_OAUTH_CACHE" = Some c ->
  c <> EmptyString ->
  JSON_parse c = inr v ->
  loadTokens s = (Ret v, s).
Proof.
  intros Hc Hne Hparse.
  unfold loadTokens, process_env, bind, get_world, ret. cbn [outside globals fst snd].
  rewrite Hc. cbn [to_string]. rewrite (truthy_cache _ Hne), Hparse. reflexivity.
Qed.

(** [X3] With [HOME] set, [loadTokens] always returns: a store that is
    absent, unreadable or unparseable gives [null], not an exception.
    It only writes to the standard error stream. *)
Theorem loadTokens_returns (s : st vars) h :
  env (outside s) !! "HOME" = Some h ->
  exists v msgs,
    loadTokens s = (Ret v, after_events msgs s) /\
    forallb is_stderr msgs = true.
Proof.
  intros Hhome.
  assert (H : wp loadTokens
                (fun o s' => exists v msgs, o = Ret v /\ s' = after_events msgs s /\
                                            forallb is_stderr msgs = true) s).
  { unfold loadTokens, tokenPath.
    wp_go; norm; try congruence; events_done. }
  unfold wp in H. destruct H as (v & msgs & Ho & Hs & Hm).
  exists v, msgs. split; [| exact Hm].
  rewrite (surjective_pairing (loadTokens s)), Ho, Hs. reflexivity.
Qed.

End Loading.

Section Refreshing.
Context `{P : Platform}.

Lemma refresh_frame (s : st vars) :
  wp refreshTokens
     (fun o s' => forall v k, o = Ret v ->
        String.eqb "access_token" k = false ->
        String.eqb "refresh_token" k = false ->
        String.eqb "expires_at" k = false ->
        v = tokens (globals s') /\ prop v k = prop (tokens (globals s)) k) s.
Proof.
  unfold refreshTokens.
  wp_go; bools; norm; intros vv k [=] Hk1 Hk2 Hk3; subst; (split; [reflexivity |]).
  all: repeat match goal with
       | H : set_prop ?t ?k1 ?v = inr ?t' |- context [prop ?t' ?k2] =>
           rewrite (prop_set_other t k1 k2 v t' H) by assumption
       end; reflexivity.
Qed.

(** [X4] A refresh that succeeds returns the record of the process, and in
    it only [access_token], [refresh_token] and [expires_at] can differ
    from before: [client_id] and every other field are kept. *)
Theorem refresh_keeps_other_fields (s s' : st vars) v k :
  refreshTokens s = (Ret v, s') ->
  k <> "access_token" -> k <> "refresh_token" -> k <> "expires_at" ->
  v = tokens (globals s') /\ prop v k = prop (tokens (globals s)) k.
Proof.
  intros Hrun H1 H2 H3.
  apply (wp_run _ _ _ _ _ (refresh_frame s) Hrun v k eq_refl);
    apply String.eqb_neq; congruence.
Qed.

Lemma refresh_unusable (s : st vars) :
  wp refreshTokens
     (fun o s' =>
        unusable (net (outside s) (fetched (outside s))) = true ->
        (exists e, o = Throw e) /\
        globals s' = globals s /\
        fs (outside s') = fs (outside s) /\
        exists evs, trace (outside s') = (trace (outside s) ++ evs)%list /\
                    count is_write evs = 0%nat /\
                    (count is_fetch evs <= 1)%nat) s.
Proof.
  unfold refreshTokens, unusable.
  wp_go; bools; norm; intros Hbad;
    repeat match goal with
    | H : net _ _ = _ |- _ => rewrite H in Hbad
    | H : rs_ok _ = _ |- _ => rewrite H in Hbad
    | H : JSON_parse _ = _ |- _ => rewrite H in Hbad
    end; cbn in Hbad; try discriminate Hbad.
  all: split; [eexists; reflexivity |]; split; [destruct s; reflexivity |];
       split; [reflexivity |]; eexists; (split; [trace_ext |]); split; cbn; lia.
Qed.

(** [X5] When the token endpoint gives no usable answer (the transport
    fails, the status is not 2xx, or the body does not parse), the
    refresh throws and leaves the record in memory and the file system
    as they were; nothing is written. *)
Theorem refresh_failure_changes_nothing (s s' : st vars) o :
  refreshTokens s = (o, s') ->
  unusable (net (outside s) (fetched (outside s))) = true ->
  (exists e, o = Throw e) /\
  globals s' = globals s /\
  fs (outside s') = fs (outside s) /\
  exists evs, trace (outside s') = (trace (outside s) ++ evs)%list /\
              count is_write evs = 0%nat.
Proof.
  intros Hrun Hbad.
  destruct (wp_run _ _ _ _ _ (refresh_unusable s) Hrun Hbad)
    as (He & Hg & Hfs & evs & Htr & Hw & _).
  split; [exact He |]. split; [exact Hg |]. split; [exact Hfs |].
  exists evs. split; assumption.
Qed.

End Refreshing.

Section Calling.
Context `{P : Platform}.

Lemma refresh_attempts_le t : (refresh_attempts t <= 1)%nat.
Proof.
  unfold refresh_attempts. destruct (get_prop t "refresh_token") as [e | rt]; [lia |].
  destruct (truthy rt); lia.
Qed.

Lemma count_cons p e (l : list event) :
  count p (e :: l) = ((if p e then 1 else 0) + count p l)%nat.
Proof. unfold count. cbn. destruct (p e); reflexivity. Qed.

Lemma mcp_request_is_mcp id method params token isInitialize sid rp :
  is_mcp_request (EFetch (mcp_request id method params token isInitialize sid) rp) = true.
Proof. reflexivity. Qed.

Lemma mcp_request_is_not_token id method params token isInitialize sid rp :
  is_token_request (EFetch (mcp_request id method params token isInitialize sid) rp) = false.
Proof. reflexivity. Qed.

Lemma not_counted p (evs : list event) e :
  count p evs = 0%nat -> In e evs -> p e = false.
Proof.
  unfold count. intros Hz Hin. destruct (p e) eqn:E; [| reflexivity].
  assert (Hf : In e (List.filter p evs)) by (apply List.filter_In; auto).
  destruct (List.filter p evs); [destruct Hf | discriminate Hz].
Qed.

(** What a call that has received the answer [rp] to its MCP request
    makes of it. *)
Lemma mcpCall_answer method params isInitialize (s s' : st vars) o evs rq rp :
  mcpCall method params isInitialize s = (o, s') ->
  trace (outside s') = (trace (outside s) ++ evs ++ [EFetch rq rp])%list ->
  rq_url rq = mcp_endpoint ->
  o = decode_reply rp /\
  sessionId (globals s') = capture (sessionId (globals s)) rp /\
  messageId (globals s') = messageId (globals s) + 1.
Proof.
  intros Hrun Htrace Hurl.
  pose proof (wp_run _ _ _ _ _ (mcpCall_spec method params isInitialize s) Hrun)
    as (pre & Hno & Hyes & Hsend).
  assert (Hpre : count is_mcp_request pre = 0%nat).
  { destruct (refresh_due _ _).
    - destruct (Hyes eq_refl) as (r & -> & _ & Hr & _). exact Hr.
    - rewrite (Hno eq_refl). reflexivity. }
  destruct Hsend as [(Htr & _) | (at_ & rp' & Htr & Hmid & Hsid & ->)].
  - rewrite Htrace in Htr. apply app_inv_head in Htr. subst pre.
    rewrite count_app_tail in Hpre. cbn [is_mcp_request] in Hpre.
    rewrite Hurl, String.eqb_refl in Hpre. lia.
  - rewrite Htrace in Htr. apply app_inv_head in Htr.
    apply app_inj_tail in Htr as [_ [= _ <-]]. auto.
Qed.

(** [X6] A call whose MCP request is answered with a status outside 2xx
    throws ['MCP call failed: <status> <body>']; a session id in that
    answer is captured all the same. *)
Theorem mcpCall_http_error method params isInitialize (s s' : st vars) o evs rq resp :
  mcpCall method params isInitialize s = (o, s') ->
  trace (outside s') = (trace (outside s) ++ evs ++ [EFetch rq (NetResponse resp)])%list ->
  rq_url rq = mcp_endpoint ->
  rs_ok resp = false ->
  o = Throw (Error ("MCP call failed: " ++ pretty (rs_status resp) ++ " " ++ rs_body resp)) /\
  (forall sid, assoc "mcp-session-id" (rs_headers resp) = Some sid -> sid <> EmptyString ->
     sessionId (globals s') = VStr sid).
Proof.
  intros Hrun Htrace Hurl Hok.
  destruct (mcpCall_answer _ _ _ _ _ _ _ _ _ Hrun Htrace Hurl) as (-> & Hsid & _).
  split.
  - unfold decode_reply. rewrite Hok. reflexivity.
  - intros sid Hh Hne. rewrite Hsid. unfold capture, headers_get. cbv zeta.
    rewrite Hh, (truthy_cache _ Hne). reflexivity.
Qed.

(** [X7] A call whose MCP request is answered 2xx with a content type that
    is not an event stream returns the body parsed as JSON, and throws
    a [SyntaxError] when the body does not parse. *)
Theorem mcpCall_json_answer method params isInitialize (s s' : st vars) o evs rq resp :
  mcpCall method params isInitialize s = (o, s') ->
  trace (outside s') = (trace (outside s) ++ evs ++ [EFetch rq (NetResponse resp)])%list ->
  rq_url rq = mcp_endpoint ->
  rs_ok resp = true ->
  includes (content_type resp) "text/event-stream" = false ->
  o = match JSON_parse (rs_body resp) with
      | inr v => Ret v
      | inl msg => Throw (SyntaxError msg)
      end.
Proof.
  intros Hrun Htrace Hurl Hok Hct.
  destruct (mcpCall_answer _ _ _ _ _ _ _ _ _ Hrun Htrace Hurl) as (-> & _ & _).
  unfold decode_reply. rewrite Hok, Hct. cbn [negb].
  destruct (JSON_parse (rs_body resp)); reflexivity.
Qed.

(** [X8] One call sends at most one request to the token endpoint and at
    most one MCP request; the request id advances exactly when the MCP
    request is sent, and a call that sends none throws. *)
Theorem mcpCall_counts method params isInitialize (s s' : st vars) o :
  mcpCall method params isInitialize s = (o, s') ->
  exists new,
    trace (outside s') = (trace (outside s) ++ new)%list /\
    (count is_token_request new <= 1)%nat /\
    (count is_mcp_request new <= 1)%nat /\
    messageId (globals s') = messageId (globals s) + Z.of_nat (count is_mcp_request new) /\
    (count is_mcp_request new = 0%nat -> exists e, o = Throw e).
Proof.
  intros Hrun.
  pose proof (wp_run _ _ _ _ _ (mcpCall_spec method params isInitialize s) Hrun)
    as (pre & Hno & Hyes & Hsend).
  assert (Hpre : count is_mcp_request pre = 0%nat /\ (count is_token_request pre <= 1)%nat).
  { destruct (refresh_due _ _).
    - destruct (Hyes eq_refl) as (r & -> & Ht & Hr & _).
      rewrite !count_cons. cbn. rewrite Hr, Ht. split; [reflexivity |].
      apply refresh_attempts_le.
    - rewrite (Hno eq_refl). split; [reflexivity | cbn; lia]. }
  destruct Hpre as [Hm Ht].
  destruct Hsend as [(Htr & _ & Hmid & He & _) | (at_ & rp & Htr & Hmid & _ & ->)].
  - exists pre. split; [exact Htr |]. rewrite Hm, Hmid. repeat split; auto; lia.
  - eexists. split; [exact Htr |].
    rewrite !count_app_tail, Hm, mcp_request_is_mcp, mcp_request_is_not_token.
    repeat split; lia.
Qed.

End Calling.

Section Authorizing.
Context `{P : Platform}.

Ltac wp_call ::=
  lazymatch goal with
  | |- wp refreshTokens _ _ =>
      eapply wp_conseq; [ apply refresh_events | ];
      intros [?|?|?] ? (? & ? & ? & ? & ? & ? & ? & ? & ?)
  end.

Lemma no_events {A} (l evs : list A) : l = (l ++ evs)%list -> [] = evs.
Proof.
  intros H. apply (app_inv_head l). rewrite app_nil_r. exact H.
Qed.

Lemma mcpCall_bearer method params isInitialize (s : st vars) :
  wp (mcpCall method params isInitialize)
     (fun o s' => forall evs rq rp,
        trace (outside s') = (trace (outside s) ++ evs)%list ->
        In (EFetch rq rp) evs -> rq_url rq = mcp_endpoint ->
        assoc "Authorization" (rq_headers rq) =
          Some ("Bearer " ++ to_string (prop (tokens (globals s')) "access_token"))) s.
Proof.
  unfold mcpCall.
  wp_go; norm; intros evs rq rp.
  all: repeat match goal with
       | H : trace (outside ?x) = _ |- context [trace (outside ?x)] => rewrite H; clear H
       end;
       intros Htr Hin Hurl;
       rewrite <- ?app_assoc in Htr;
       first [ apply app_inv_head in Htr | apply no_events in Htr ]; subst evs.
  all: rewrite ?in_app_iff in Hin; cbn [In] in Hin;
       repeat match type of Hin with
       | _ \/ _ => destruct Hin as [Hin | Hin]
       end; try discriminate Hin; try contradiction.
  all: try match goal with
       | Hc : count is_mcp_request ?x = 0%nat |- _ =>
           pose proof (not_counted _ _ _ Hc Hin) as Hbad; cbn [is_mcp_request] in Hbad;
           rewrite Hurl, String.eqb_refl in Hbad; discriminate Hbad
       end.
  all: injection Hin as <- <-; cbn [rq_headers mcp_headers app assoc];
       repeat match goal with
       | H : get_prop _ "access_token" = inr _ |- _ => apply prop_of_get in H; rewrite H
       end; reflexivity.
Qed.

(** [X9] Every MCP request is authorized with the access token of the
    record as it stands after the refresh, if there was one:
    [Authorization] is [Bearer] followed by that token. *)
Theorem mcpCall_uses_current_token method params isInitialize (s s' : st vars) o evs rq rp :
  mcpCall method params isInitialize s = (o, s') ->
  trace (outside s') = (trace (outside s) ++ evs)%list ->
  In (EFetch rq rp) evs ->
  rq_url rq = mcp_endpoint ->
  assoc "Authorization" (rq_headers rq) =
    Some ("Bearer " ++ to_string (prop (tokens (globals s')) "access_token")).
Proof.
  intros Hrun. exact (wp_run _ _ _ _ _ (mcpCall_bearer method params isInitialize s) Hrun evs rq rp).
Qed.

End Authorizing.

Section Planning.
Context `{P : Platform}.

Ltac quiet_side :=
  unfold quiet; norm;
  split; [reflexivity | split; [reflexivity | eexists; split; [trace_ext | reflexivity]]].

Lemma loadTokens_quiet_home (s : st vars) :
  wp loadTokens
     (fun o s' => quiet s s' /\ (forall c, o <> Exit c) /\
                  (forall e, o = Throw e -> env (outside s) !! "HOME" = None)) s.
Proof.
  unfold loadTokens, tokenPath.
  wp_go; norm; (split; [quiet_side | split; [discriminate |]]);
    intros ? [=]; assumption.
Qed.

Ltac chain :=
  repeat match goal with
  | R : run_of ?s0 ?x ?acc, H : quiet ?a ?b |- _ =>
      let Q := fresh "Q" in
      assert (Q : quiet x a) by quiet_side;
      let R' := fresh "R" in
      pose proof (run_of_quiet _ _ _ _ (run_of_quiet _ _ _ _ R Q) H) as R';
      clear R H Q
  | R : run_of ?s0 ?x ?acc, H : run_of ?a ?b ?cs |- _ =>
      lazymatch a with s0 => fail | _ => idtac end;
      let Q := fresh "Q" in
      assert (Q : quiet x a) by quiet_side;
      let R' := fresh "R" in
      pose proof (run_of_trans _ _ _ _ _ (run_of_quiet _ _ _ _ R Q) H) as R';
      clear R H Q
  end.

Lemma decode_reply_settled rp c : decode_reply rp <> Exit c.
Proof.
  unfold decode_reply. destruct rp as [msg | r]; [discriminate |].
  destruct (negb (rs_ok r)); [discriminate |].
  destruct (includes _ _).
  - cbv zeta. destruct (truthy _); discriminate.
  - destruct (JSON_parse _); discriminate.
Qed.

Lemma print_item_settled item (s : st vars) :
  wp (print_item item) (fun o s' => quiet s s' /\ forall c, o <> Exit c) s.
Proof. unfold print_item. wp_go; (split; [quiet_side | discriminate]). Qed.

Lemma for_each_settled items (s : st vars) :
  wp (for_each items print_item) (fun o s' => quiet s s' /\ forall c, o <> Exit c) s.
Proof.
  revert s. induction items as [| item items IH]; intros s; cbn [for_each].
  - apply wp_ret. split; [apply quiet_refl | discriminate].
  - apply wp_bind. eapply wp_conseq; [apply print_item_settled |].
    intros [[] | e | c] s1 [H1 Hc]; try (split; [exact H1 | exact Hc]).
    eapply wp_conseq; [apply IH |]. intros o s2 [H2 Hc2].
    split; [exact (quiet_trans _ _ _ H1 H2) | exact Hc2].
Qed.

Ltac wp_call ::=
  lazymatch goal with
  | |- wp loadTokens _ _ =>
      eapply wp_conseq; [ apply loadTokens_quiet_home | ]; intros [?|?|?] ? (? & ? & ?)
  | |- wp (for_each _ print_item) _ _ =>
      eapply wp_conseq; [ apply for_each_settled | ]; intros [[]|?|?] ? (? & ?)
  | |- wp (mcpCall _ _ _) _ _ =>
      eapply wp_conseq; [ apply mcpCall_run | ];
      intros ? ? [(? & ? & ->) | (? & ? & ? & ? & ? & ->)]
  end.

Lemma main_plan (s : st vars) :
  wp main
     (fun o s' => exists cs, run_of s s' cs /\
        planned_calls (argv (outside s)) (env (outside s) !! "HOME") o cs) s.
Proof.
  pose proof (run_of_refl s) as R0.
  unfold main, initializeSession, listTools, callTool, report_and_exit.
  wp_go.
  all: chain.
  all: match goal with
       | R : run_of ?s0 ?x ?acc |- exists cs, run_of ?s0 ?leaf cs /\ _ =>
           exists acc; split; [ apply (run_of_quiet _ _ _ _ R); quiet_side | ]
       end.
  all: try absurd_null.
  all: try match goal with
       | H : decode_reply _ = Exit _ |- _ => exfalso; exact (decode_reply_settled _ _ H)
       end.
  all: unfold planned_calls; cbn [app length].
  all: split; [lia |].
  all: split;
    [ intros k c Hk; destruct k as [| [| [| k]]]; cbn [nth_error] in Hk;
      try discriminate Hk; try (destruct k; discriminate Hk);
      injection Hk as <-;
      repeat match goal with
      | H : c_init _ = _ |- _ => rewrite H
      | H : c_method _ = _ |- _ => rewrite H
      | H : c_params _ = _ |- _ => rewrite H
      end; cbn [planned Nat.eqb];
      repeat match goal with
      | H : String.eqb _ "--list" = _ |- _ => rewrite H
      | H : parseArgs _ = _ |- _ => rewrite H
      end; split; reflexivity
    | ].
  all: split; [ intros Ho; first [discriminate Ho | reflexivity] | ].
  all: split; [ intros code9 Ho; first [discriminate Ho | injection Ho as <-; reflexivity] | ].
  all: intros e1 Ho; first [discriminate Ho | injection Ho as <-; split; [reflexivity | eauto]].
Qed.

Lemma length_exchanges cs sid mid : length (exchanges sid mid cs) = length cs.
Proof.
  rewrite <- (length_map snd), answers_exchanges, length_map. reflexivity.
Qed.


(** [X11] With [HOME] set, the Tool Invoker ends in one of two ways: it
    completes, after exactly three MCP requests, or it exits with
    status 1; no exception escapes. *)
Theorem main_completes_or_exits (w : world) o (s' : st vars) h :
  env w !! "HOME" = Some h ->
  main (St initial_vars w) = (o, s') ->
  exists new,
    trace (outside s') = (trace w ++ new)%list /\
    ((o = Ret tt /\ count is_mcp_request new = 3%nat) \/ o = Exit 1).
Proof.
  intros Hhome Hrun.
  destruct (wp_run _ _ _ _ _ (main_plan (St initial_vars w)) Hrun)
    as (cs & (_ & _ & new & Htr & Hlog) & Hlen & _ & Hret & Hexit & Hthrow).
  cbn [globals outside sessionId messageId initial_vars] in Htr, Hlog, Hthrow.
  exists new. split; [exact Htr |].
  destruct o as [[] | e | code].
  - left. split; [reflexivity |].
    rewrite count_mcp_log, Hlog, length_exchanges. apply Hret. reflexivity.
  - destruct (Hthrow e eq_refl) as (_ & Hnone). congruence.
  - right. rewrite (Hexit code eq_refl). reflexivity.
Qed.

End Planning.

Section Handshake.
Context `{P : Platform}.

Ltac quiet_side :=
  unfold quiet; norm;
  split; [reflexivity | split; [reflexivity | eexists; split; [trace_ext | reflexivity]]].

Ltac chain :=
  repeat match goal with
  | R : run_of ?s0 ?x ?acc, H : run_of ?a ?b ?cs |- _ =>
      lazymatch a with s0 => fail | _ => idtac end;
      let Q := fresh "Q" in
      assert (Q : quiet x a) by quiet_side;
      let R' := fresh "R" in
      pose proof (run_of_trans _ _ _ _ _ (run_of_quiet _ _ _ _ R Q) H) as R';
      clear R H Q
  end.

Ltac wp_call ::=
  lazymatch goal with
  | |- wp (mcpCall _ _ _) _ _ =>
      eapply wp_conseq; [ apply mcpCall_run | ];
      intros ? ? [(? & ? & ->) | (? & ? & ? & ? & ? & ->)]
  end.

Lemma initializeSession_run (s : st vars) :
  wp initializeSession
     (fun o s' => exists cs, run_of s s' cs /\
        (length cs <= 2)%nat /\
        (forall v, o = Ret v ->
           length cs = 2%nat /\ exists err, get_prop v "error" = inr err /\ truthy err = false) /\
        (forall c, nth_error cs 0 = Some c ->
           (exists v err, decode_reply (c_reply c) = Ret v /\
                          get_prop v "error" = inr err /\ truthy err = true) ->
           length cs = 1%nat /\ exists e, o = Throw e)) s.
Proof.
  pose proof (run_of_refl s) as R0.
  unfold initializeSession.
  wp_go.
  all: chain.
  all: match goal with
       | R : run_of ?s0 ?x ?acc |- exists cs, run_of ?s0 ?leaf cs /\ _ =>
           exists acc; split; [ apply (run_of_quiet _ _ _ _ R); quiet_side | ]
       end.
  all: cbn [app length nth_error]; (split; [lia |]); split.
  all: lazymatch goal with
       | |- forall v, _ = Ret v -> _ =>
           intros v Hv;
           first [ discriminate Hv
                 | injection Hv as <-; split; [reflexivity | eexists; split; eassumption] ]
       | |- _ =>
           intros c Hc (v & err & Hd & Hg & Ht); cbn in Hc;
           first [ discriminate Hc | injection Hc as <- ];
           first [ split; [reflexivity | eexists; reflexivity]
                 | exfalso; congruence ]
       end.
Qed.

(** [X12] [initializeSession] sends [notifications/initialized] only after
    an answer to [initialize] that carries no error: when that answer
    has a truthy [error], it throws after the one request; and when it
    returns, both requests have been sent and the result it returns
    has no error. *)
Theorem initializeSession_stops_on_error (s s' : st vars) o :
  initializeSession s = (o, s') ->
  exists new,
    trace (outside s') = (trace (outside s) ++ new)%list /\
    (length (mcp_log new) <= 2)%nat /\
    (forall v, o = Ret v ->
       length (mcp_log new) = 2%nat /\
       exists err, get_prop v "error" = inr err /\ truthy err = false) /\
    (forall rq rp v err,
       nth_error (mcp_log new) 0 = Some (rq, rp) ->
       decode_reply rp = Ret v -> get_prop v "error" = inr err -> truthy err = true ->
       length (mcp_log new) = 1%nat /\ exists e, o = Throw e).
Proof.
  intros Hrun.
  destruct (wp_run _ _ _ _ _ (initializeSession_run s) Hrun)
    as (cs & (_ & _ & new & Htr & Hlog) & Hlen & Hret & Herr).
  exists new. split; [exact Htr |]. rewrite Hlog, length_exchanges.
  split; [exact Hlen |]. split; [exact Hret |].
  intros rq rp v err Hk Hd Hg Ht.
  destruct (nth_exchanges _ _ _ _ _ _ Hk) as (c & Hc & _ & ->).
  apply (Herr c Hc). eauto.
Qed.

End Handshake.

(** * Further properties of the command line *)

Section Arguments.
Context `{P : Platform}.

Lemma split_cons_head c s : exists w ws, split c s = w :: ws.
Proof.
  induction s as [| a s IH]; cbn [split]; [eauto |].
  destruct (Ascii.eqb a c); [eauto |]. destruct IH as (w & ws & ->). eauto.
Qed.

(** Joining what [split] gave with the separator gives the text
    back. *)
Lemma join_split c s : join (String c EmptyString) (split c s) = s.
Proof.
  induction s as [| a s IH]; [reflexivity |]. cbn [split].
  destruct (split_cons_head c s) as (w & ws & Hs). rewrite Hs in IH |- *.
  destruct (Ascii.eqb a c) eqn:E.
  - apply Ascii.eqb_eq in E. subst a.
    change (join (String c EmptyString) (EmptyString :: w :: ws))
      with (String c (join (String c EmptyString) (w :: ws))).
    rewrite IH. reflexivity.
  - destruct ws as [| w' ws]; cbn [join] in IH |- *.
    + subst w. reflexivity.
    + cbn [append]. rewrite <- IH. reflexivity.
Qed.

Lemma split_first c k v :
  includes k (String c EmptyString) = false ->
  split c (k ++ String c v) = k :: split c v.
Proof.
  induction k as [| a k IH]; intros Hk.
  - simpl. rewrite Ascii.eqb_refl. reflexivity.
  - cbn [includes] in Hk. apply orb_false_elim in Hk as [Ha Hk].
    simpl in Ha. simpl.
    destruct (Ascii.eqb a c) eqn:E.
    + apply Ascii.eqb_eq in E. subst a.
      destruct (ascii_dec c c) as [_ | n]; [| contradiction].
      destruct k; discriminate Ha.
    + rewrite (IH Hk). reflexivity.
Qed.

Lemma includes_sep k c v : includes (k ++ String c v) (String c EmptyString) = true.
Proof.
  induction k as [| a k IH]; simpl.
  - destruct (ascii_dec c c) as [_ | n]; [| contradiction].
    destruct v; reflexivity.
  - simpl in IH. rewrite IH. apply orb_true_r.
Qed.

(** [X13] A word [key:value] sets [key] to everything after the first colon,
    further colons included: the parts that [split] made are joined
    back without loss. *)
Theorem parseArgs_key_value tool k v rest :
  includes k ":" = false ->
  startsWith (k ++ ":" ++ v) "--" = false ->
  parseArgs (tool :: (k ++ ":" ++ v) :: rest) =
    (VStr tool, VObj (parseArgs_loop rest (assign_param k (parse_or_raw (VStr v)) []))).
Proof.
  intros Hk Hdash. cbn [parseArgs parseArgs_loop]. rewrite Hdash.
  change (k ++ ":" ++ v) with (k ++ String ":"%char v).
  rewrite includes_sep, (split_first _ _ _ Hk), join_split. reflexivity.
Qed.




End Arguments.

(** * Further properties of the Authorizer *)

Section Listening.
Context `{P : Platform}.
Import Authorizer.






End Listening.

Section Serving.
Context `{P : Platform}.
Import Authorizer.

Ltac wp_call ::=
  lazymatch goal with
  | |- wp (respond _ _ _) _ _ => unfold respond
  | |- wp server_close _ _ => unfold server_close
  | |- wp (exchangeCode _ _ _) _ _ => unfold exchangeCode
  | |- wp (response_json _) _ _ => unfold response_json
  end.

Ltac served_side :=
  unfold served; norm;
  split; [trace_ext | split; [reflexivity | split; [reflexivity |]]];
  cbn; repeat split; lia.

Lemma listener_serves state pkce clientId req (s : st unit) :
  wp (callback_listener state pkce clientId req)
     (fun o s' => exists evs r,
        served 1 s s' evs /\ o = Ret r /\
        count is_close evs = match r with Some _ => 1%nat | None => 0%nat end /\
        (r = None -> count is_fetch evs = 0%nat) /\
        (forall x, r = Some x -> exchanged clientId pkce evs (settled x))) s.
Proof.
  unfold callback_listener.
  wp_go; eexists _, _;
    (split; [served_side | split; [reflexivity | split; [reflexivity | split]]]);
    try (intros Hr; discriminate Hr); try (intros _; reflexivity).
  all: intros x Hx; try discriminate Hx; injection Hx as <-.
  all: split.
  all: try (intros rq rp Hin; cbn in Hin;
      repeat match goal with
      | H : _ \/ _ |- _ => destruct H
      | H : False |- _ => destruct H
      | H : _ = EFetch _ _ |- _ => first [discriminate H | injection H as <- <-]
      end; eexists; reflexivity).
  all: intros v Hv; unfold settled in Hv; try discriminate Hv.
  all: injection Hv as <-; eexists _, _, _; (split; [left; reflexivity |]);
       bools; repeat split; try eassumption; congruence.
Qed.

Lemma served_trans n1 n2 (s s1 s2 : st unit) e1 e2 :
  served n1 s s1 e1 -> count is_fetch e1 = 0%nat ->
  served n2 s1 s2 e2 ->
  served (n1 + n2) s s2 (e1 ++ e2).
Proof.
  intros (Ht1 & Hf1 & He1 & Hc1 & Hk1 & Hr1 & Hw1) Hz (Ht2 & Hf2 & He2 & Hc2 & Hk2 & Hr2 & Hw2).
  unfold served. rewrite !count_app, forallb_app, Hw1, Hw2, Ht2, Ht1, app_assoc.
  repeat split; try congruence; lia.
Qed.

Lemma served_more n m (s s' : st unit) evs :
  served n s s' evs -> (n <= m)%nat -> served m s s' evs.
Proof.
  intros (? & ? & ? & ? & ? & ? & ?) Hle. unfold served. repeat split; auto; lia.
Qed.

Lemma await_serves state pkce clientId reqs : forall (s : st unit),
  wp (await_callback state pkce clientId reqs)
     (fun o s' => exists evs,
        served (length reqs) s s' evs /\
        count is_close evs = 1%nat /\
        (forall c, o <> Exit c) /\
        exchanged clientId pkce evs o) s.
Proof.
  induction reqs as [| req reqs IH]; intros s; cbn [await_callback].
  - wp_go. eexists. split; [served_side | split; [reflexivity | split; [discriminate |]]].
    split; [intros rq rp [Hin | []]; discriminate Hin | intros v Hv; discriminate Hv].
  - apply wp_bind. eapply wp_conseq; [apply listener_serves |].
    intros o s1 (e1 & r & Hs1 & -> & Hclose & Hquiet & Hex).
    destruct r as [[v | e] |].
    + apply wp_ret. exists e1.
      split; [apply (served_more 1); [exact Hs1 | cbn; lia] |].
      split; [exact Hclose | split; [discriminate | exact (Hex _ eq_refl)]].
    + apply wp_throw. exists e1.
      split; [apply (served_more 1); [exact Hs1 | cbn; lia] |].
      split; [exact Hclose | split; [discriminate | exact (Hex _ eq_refl)]].
    + eapply wp_conseq; [apply IH |]. intros o s2 (e2 & Hs2 & Hclose2 & Hexit & Hex2).
      exists (e1 ++ e2)%list. split; [| split; [| split; [exact Hexit |]]].
      * apply (served_trans 1 (length reqs) s s1 s2); auto.
      * rewrite count_app. lia.
      * destruct Hex2 as [Hrq Hret]. split.
        -- intros rq rp Hin. apply in_app_or in Hin as [Hin | Hin]; [| eauto].
           pose proof (not_counted is_fetch _ _ (Hquiet eq_refl) Hin) as Hno.
           discriminate Hno.
        -- intros v Hv. destruct (Hret v Hv) as (code & rr & tokens & Hin & Hrest).
           exists code, rr, tokens. split; [apply in_or_app; right; exact Hin | exact Hrest].
Qed.


End Serving.

Section Flow.
Context `{P : Platform}.
Import Authorizer.

Lemma serving_counts evs :
  forallb is_serving evs = true ->
  count is_write evs = 0%nat /\ count is_mkdir evs = 0%nat /\
  count is_exec evs = 0%nat /\ count is_listen evs = 0%nat /\
  ~ In success_line evs.
Proof.
  induction evs as [| e evs IH]; intros H; cbn [forallb] in H.
  - repeat split; auto.
  - apply andb_prop in H as [He H]. destruct (IH H) as (? & ? & ? & ? & ?).
    rewrite !count_cons.
    destruct e; try discriminate He; cbn; repeat split; auto;
      intros [Hx | Hx]; first [discriminate Hx | contradiction].
Qed.

Lemma set_fs_same (w : world) : set_fs (fs w) w = w.
Proof. destruct w. reflexivity. Qed.

Lemma wp_mkdirSync path Q (s : st unit) :
  (forall f', made path (fs (outside s)) = Some f' ->
     Q (Ret tt) (St (globals s) (set_fs f' (emit (EMkdir path) (outside s))))) ->
  (forall e, made path (fs (outside s)) = None ->
     Q (Throw e) (St (globals s) (emit (EMkdir path) (outside s)))) ->
  wp (mkdirSync path) Q s.
Proof.
  intros H1 H2. unfold wp, mkdirSync, log_event, bind, get_world, put_world, ret, throw.
  cbn [fst snd outside globals fs emit set_trace]. unfold made in *.
  destruct (fs (outside s) !! path) as [[rd wr d |] |] eqn:E; cbn [fst snd].
  - apply H2. reflexivity.
  - specialize (H1 _ eq_refl).
    replace (set_fs (fs (outside s)) (emit (EMkdir path) (outside s)))
      with (emit (EMkdir path) (outside s)) in H1; [exact H1 |].
    symmetry. apply (set_fs_same (emit (EMkdir path) (outside s))).
  - apply H1. reflexivity.
Qed.

Ltac wp_call ::=
  lazymatch goal with
  | |- wp (respond _ _ _) _ _ => unfold respond
  | |- wp server_close _ _ => unfold server_close
  | |- wp (response_json _) _ _ => unfold response_json
  | |- wp registerClient _ _ => unfold registerClient
  | |- wp generatePKCE _ _ => unfold generatePKCE
  | |- wp generateState _ _ => unfold generateState
  | |- wp (randomBytes _) _ _ => unfold randomBytes
  | |- wp (startCallbackServer _ _ _) _ _ => unfold startCallbackServer
  | |- wp (openBrowser _) _ _ => unfold openBrowser
  | |- wp (execSync _) _ _ => unfold execSync
  | |- wp (mkdirSync _) _ _ => apply wp_mkdirSync; intros ? ?
  | |- wp (tokenData _) _ _ => unfold tokenData
  | |- wp (await_callback _ _ _ _) _ _ =>
      eapply wp_conseq; [ apply await_serves | ];
      intros [?|?|?] ? (? & (? & ? & ? & ? & ? & ? & ?) & ? & ? & ? & ?)
  end.

Lemma registration_unusable (s : st unit) :
  wp main
     (fun o s' =>
        unusable (net (outside s) (fetched (outside s))) = true ->
        o = Exit 1 /\
        fs (outside s') = fs (outside s) /\
        exists evs, trace (outside s') = (trace (outside s) ++ evs)%list /\
                    count is_fetch evs = 1%nat /\
                    count is_listen evs = 0%nat /\
                    count is_exec evs = 0%nat) s.
Proof.
  unfold main, unusable.
  wp_go; bools; norm; intros Hbad;
    repeat match goal with
    | H : net _ _ = _ |- _ => rewrite H in Hbad
    | H : rs_ok _ = _ |- _ => rewrite H in Hbad
    | H : JSON_parse _ = _ |- _ => rewrite H in Hbad
    end; cbn in Hbad; try discriminate Hbad.
  all: split; [reflexivity |]; split; [reflexivity |];
       eexists; (split; [trace_ext |]); repeat split; reflexivity.
Qed.

(** [X19] When the registration of the client gets no usable answer (the
    transport fails, the status is not 2xx, or the body does not
    parse), the Authorizer exits with status 1 after that one request:
    it starts no server, opens no browser and writes nothing. *)
Theorem registration_failure_stops (s s' : st unit) o :
  main s = (o, s') ->
  unusable (net (outside s) (fetched (outside s))) = true ->
  o = Exit 1 /\
  fs (outside s') = fs (outside s) /\
  exists evs, trace (outside s') = (trace (outside s) ++ evs)%list /\
              count is_fetch evs = 1%nat /\
              count is_listen evs = 0%nat /\
              count is_exec evs = 0%nat.
Proof.
  intros Hrun Hbad. exact (wp_run _ _ _ _ _ (registration_unusable s) Hrun Hbad).
Qed.

(** [e] is among the events logged. *)
Ltac find_in :=
  repeat (apply in_or_app; first [ left; cbn [In]; left; reflexivity | right ]);
  try (cbn [In]; left; reflexivity).

Ltac served_facts :=
  repeat match goal with
  | H : forallb is_serving ?x = true |- _ =>
      let F := fresh "F" in
      pose proof (serving_counts _ H) as F; clear H;
      destruct F as (? & ? & ? & ? & ?)
  end.

Ltac trace_from :=
  norm;
  repeat match goal with
  | H : trace (outside _) = _ |- _ => rewrite H
  end;
  first [ symmetry; apply app_nil_r | rewrite <- ?app_assoc; reflexivity ].

Lemma flow_writes (s : st unit) :
  wp main
     (fun o s' => exists evs,
        trace (outside s') = (trace (outside s) ++ evs)%list /\
        (forall c, o = Exit c -> c = 1) /\
        (~ In success_line evs ->
         o <> Ret tt /\
         fs (outside s') = fs (outside s) /\
         count is_write evs = 0%nat /\ count is_mkdir evs = 0%nat)) s.
Proof.
  unfold main.
  wp_go; served_facts; norm; (eexists; split; [trace_from | split]).
  all: try (intros c9 Hc; first [discriminate Hc | injection Hc as <-; reflexivity]).
  all: try absurd_null.
  all: try (intros Hno; exfalso; apply Hno; find_in; fail).
  all: intros _; (split; [discriminate |]); split; [congruence |].
  all: rewrite !count_app;
       repeat match goal with
       | H : count _ _ = 0%nat |- _ => rewrite H
       end; split; reflexivity.
Qed.

(** [X20] The Authorizer writes nothing before the authorization has
    succeeded: in a run that never prints ['Authorization successful!'],
    no file is written, no directory is made and the file system is as
    it was, and the run does not complete. *)
Theorem nothing_saved_without_authorization (s s' : st unit) o :
  main s = (o, s') ->
  exists evs,
    trace (outside s') = (trace (outside s) ++ evs)%list /\
    (~ In success_line evs ->
     o <> Ret tt /\
     fs (outside s') = fs (outside s) /\
     count is_write evs = 0%nat /\ count is_mkdir evs = 0%nat).
Proof.
  intros Hrun.
  destruct (wp_run _ _ _ _ _ (flow_writes s) Hrun) as (evs & Htr & _ & Hno).
  exists evs. split; assumption.
Qed.

(** [X21] The script of the Authorizer, with its last-resort handler, ends in
    one of two ways: it completes, or it exits with status 1. *)
Theorem script_completes_or_exits (s s' : st unit) o :
  script s = (o, s') -> o = Ret tt \/ o = Exit 1.
Proof.
  unfold script, try_catch. intros Hrun.
  pose proof (wp_run _ _ _ _ _ (flow_writes s) (surjective_pairing (main s)))
    as (evs & _ & Hexit & _).
  destruct (main s) as [[[] | e | c] s1]; cbn [fst] in Hexit.
  - injection Hrun as <- _. left. reflexivity.
  - unfold bind, console_error, log_event, get_world, put_world, process_exit in Hrun.
    cbn in Hrun. injection Hrun as <- _. right. reflexivity.
  - injection Hrun as <- _. right. rewrite (Hexit c eq_refl). reflexivity.
Qed.

Lemma written_lookup path data f f' :
  written path data f = Some f' -> exists rd, f' !! path = Some (FsFile rd true data).
Proof.
  unfold written. intros H.
  destruct (f !! path) as [[rd [] d |] |]; try discriminate H; injection H as <-;
    eexists; apply lookup_insert_eq.
Qed.

Lemma flow_saves (s : st unit) :
  wp main
     (fun o s' => o = Ret tt ->
        exists evs, trace (outside s') = (trace (outside s) ++ evs)%list /\
                    saved s s' evs) s.
Proof.
  unfold main.
  wp_go; intros Ho; try discriminate Ho.
  all: bools; norm; cbn [verifier challenge] in *.
  all: repeat match goal with
       | H : forall v, Ret ?x = Ret v -> _ |- _ =>
           destruct (H x eq_refl) as (code9 & r9 & tokens9 & Hin9 & Hok9 & Hparse9 & ->);
           clear H
       end.
  all: repeat match goal with
       | H : get_prop (VObj _) _ = _ |- _ =>
           cbn in H; first [discriminate H | injection H as <-]
       end.
  all: repeat match goal with
       | H : env (outside ?x) = _ |- _ => rewrite H in *; clear H
       end.
  all: repeat match goal with
       | H1 : get_prop ?t ?k = inr ?x, H2 : get_prop ?t ?k = inr ?y |- _ =>
           rewrite H1 in H2; injection H2 as <-
       end.
  all: repeat match goal with
       | H : get_prop _ _ = inr _ |- _ => apply prop_of_get in H
       end.
  all: match goal with
       | Hw : written _ _ _ = Some _ |- _ =>
           destruct (written_lookup _ _ _ _ Hw) as (rd9 & Hlook9)
       end.
  all: eexists; split; [trace_from |].
  all: unfold saved, saved_path.
  all: match goal with
       | Hs : JSON_stringify 2 ?td = Some ?d |- _ =>
           eexists _, _, _, _, _, _, _, td, d, rd9
       end.
  all: split; [eassumption |].
  all: split; [eassumption |].
  all: split; [eassumption |].
  all: split;
    [ match goal with H : prop _ "client_id" = _ |- _ => rewrite H end;
      repeat (apply in_or_app; first [ left; eassumption | right ]) | ].
  all: split; [eassumption |].
  all: split; [eassumption |].
  all: split; [symmetry; etransitivity; [eassumption | reflexivity] |].
  all: split; [symmetry; etransitivity; [eassumption | reflexivity] |].
  all: split; [symmetry; etransitivity; [eassumption | reflexivity] |].
  all: split; [eassumption |].
  all: split; [norm; exact Hlook9 | find_in].
Qed.

(** [X22] When the Authorizer completes, the client is the one that the
    registration answered, the tokens are the ones that a 2xx answer to
    the exchange carried, and the token store under [HOME] holds the
    record built from both, written as [JSON.stringify(record, null,
    2)]. *)
Theorem completed_flow_saves_tokens (s s' : st unit) :
  main s = (Ret tt, s') ->
  exists evs, trace (outside s') = (trace (outside s) ++ evs)%list /\ saved s s' evs.
Proof.
  intros Hrun. exact (wp_run _ _ _ _ _ (flow_saves s) Hrun eq_refl).
Qed.

Lemma serving_in evs e : forallb is_serving evs = true -> In e evs -> is_serving e = true.
Proof. intros H Hin. rewrite forallb_forall in H. exact (H e Hin). Qed.

Lemma served_bound clientId v state evs :
  forallb is_serving evs = true ->
  (forall rq rp, In (EFetch rq rp) evs ->
     exists code, rq = exchange_request code clientId v) ->
  Forall (bound_event v state) evs.
Proof.
  intros Hs Hrq. apply List.Forall_forall. intros e Hin.
  pose proof (serving_in _ _ Hs Hin) as He.
  destruct e; try discriminate He; cbn [bound_event]; auto.
  intros _. destruct (Hrq _ _ Hin) as (code & ->). eauto.
Qed.

Lemma flow_binds (s : st unit) :
  wp main
     (fun o s' => exists evs,
        trace (outside s') = (trace (outside s) ++ evs)%list /\
        Forall (bound_event (to_base64url (entropy (outside s) (drawn (outside s))))
                            (to_hex (entropy (outside s) (S (drawn (outside s)))))) evs) s.
Proof.
  unfold main.
  wp_go; norm; cbn [verifier challenge] in *; (eexists; split; [trace_from |]).
  all: repeat (apply Forall_app; split).
  all: try (constructor; [| constructor]; cbn [bound_event];
            first [ exact Logic.I
                  | eexists _, _; reflexivity
                  | intros Hurl; vm_compute in Hurl; discriminate Hurl ]).
  all: match goal with
       | Hs : forallb is_serving ?x = true |- Forall _ ?x =>
           eapply served_bound; [exact Hs | eassumption]
       end.
Qed.

(** [X23] PKCE and the state are bound to the attempt: in every run of the
    Authorizer, the browser is opened on the authorization URL that
    carries the SHA-256 challenge of the verifier drawn for this run
    and the state drawn for it, and whatever is sent to the token
    endpoint is the exchange with that same verifier. *)
Theorem verifier_matches_challenge (s s' : st unit) o :
  main s = (o, s') ->
  exists evs,
    trace (outside s') = (trace (outside s) ++ evs)%list /\
    Forall (bound_event (to_base64url (entropy (outside s) (drawn (outside s))))
                        (to_hex (entropy (outside s) (S (drawn (outside s)))))) evs.
Proof.
  intros Hrun. exact (wp_run _ _ _ _ _ (flow_binds s) Hrun).
Qed.

End Flow.

(** * Further runs on concrete worlds *)

Lemma main_without_arguments_witness :
  exists usage,
    main (P:=node) (invoker_start None None 40000 [] []) =
      (Exit 1, after_events usage (invoker_start None None 40000 [] [])) /\
    length usage = 6%nat.
Proof.
  destruct (main_without_arguments (P:=node) (invoker_start None None 40000 [] []))
    as (usage & Hrun & _ & Hlen); [reflexivity |].
  exists usage. split; assumption.
Defined.

Lemma loadTokens_prefers_cache_witness :
  loadTokens (P:=node) a_start_in_sessions = (Ret a_plain_record, a_start_in_sessions).
Proof.
  apply (loadTokens_prefers_cache (P:=node) a_start_in_sessions a_plain_record_text).
  - reflexivity.
  - vm_compute. discriminate.
  - vm_compute. reflexivity.
Defined.

Lemma loadTokens_returns_witness :
  exists v msgs,
    loadTokens (P:=node) a_start_from_the_store =
      (Ret v, after_events msgs a_start_from_the_store).
Proof.
  destruct (loadTokens_returns (P:=node) a_start_from_the_store home)
    as (v & msgs & Hrun & _); [reflexivity |].
  exists v, msgs. exact Hrun.
Defined.

Lemma refresh_keeps_other_fields_witness :
  exists v,
    fst (refreshTokens (P:=node) a_refresh_for_an_hour) = Ret v /\
    prop v "client_id" = VStr "abc".
Proof.
  pose (r := refreshTokens (P:=node) a_refresh_for_an_hour).
  assert (Hret : exists v, fst r = Ret v) by (vm_compute; eexists; reflexivity).
  destruct Hret as (v & Hv). exists v. split; [exact Hv |].
  assert (Hrun : refreshTokens (P:=node) a_refresh_for_an_hour = (Ret v, snd r)).
  { rewrite <- Hv. apply surjective_pairing. }
  destruct (refresh_keeps_other_fields (P:=node) a_refresh_for_an_hour (snd r) v "client_id"
              Hrun) as (_ & Hk); try discriminate.
  rewrite Hk. reflexivity.
Defined.

Lemma refresh_failure_changes_nothing_witness :
  globals (snd (refreshTokens (P:=node) a_refused_refresh)) = globals a_refused_refresh /\
  fs (outside (snd (refreshTokens (P:=node) a_refused_refresh))) =
    fs (outside a_refused_refresh).
Proof.
  pose (r := refreshTokens (P:=node) a_refused_refresh).
  destruct (refresh_failure_changes_nothing (P:=node) a_refused_refresh (snd r) (fst r)
              (surjective_pairing r)) as (_ & Hg & Hfs & _).
  - vm_compute. reflexivity.
  - split; assumption.
Defined.

Lemma mcpCall_http_error_witness :
  fst (mcpCall (P:=node) "tools/list" (VObj []) false a_failing_call)
    = Throw (Error "MCP call failed: 500 oops") /\
  sessionId (globals (snd (mcpCall (P:=node) "tools/list" (VObj []) false a_failing_call)))
    = VStr "S1".
Proof.
  set (r := mcpCall (P:=node) "tools/list" (VObj []) false a_failing_call).
  destruct (mcpCall_http_error (P:=node) "tools/list" (VObj []) false a_failing_call
              (snd r) (fst r) []
              (mcp_request (P:=node) 1 "tools/list" (VObj []) (VStr "AT1") false VNull)
              a_server_error (surjective_pairing r)) as (Ho & Hsid).
  - vm_compute. reflexivity.
  - reflexivity.
  - reflexivity.
  - split; [rewrite Ho; vm_compute; reflexivity |].
    apply (Hsid "S1"); [reflexivity | discriminate].
Defined.

Lemma mcpCall_json_answer_witness :
  fst (mcpCall (P:=node) "tools/list" (VObj []) false a_minute_before)
    = Ret (VObj [("jsonrpc", VStr "2.0"); ("id", VNum 1); ("result", VObj [])]).
Proof.
  set (r := mcpCall (P:=node) "tools/list" (VObj []) false a_minute_before).
  rewrite (mcpCall_json_answer (P:=node) "tools/list" (VObj []) false a_minute_before
             (snd r) (fst r) []
             (mcp_request (P:=node) 1 "tools/list" (VObj []) (VStr "AT1") false VNull)
             (mkResponse 200 [("content-type", "application/json")] (a_frame "1"))
             (surjective_pairing r)).
  - vm_compute. reflexivity.
  - vm_compute. reflexivity.
  - reflexivity.
  - reflexivity.
  - vm_compute. reflexivity.
Defined.

Lemma mcpCall_counts_witness :
  exists new,
    events_of (mcpCall (P:=node) "tools/list" (VObj []) false less_than_a_minute_before) = new /\
    (count is_token_request new <= 1)%nat /\
    messageId (globals (snd (mcpCall (P:=node) "tools/list" (VObj []) false
                               less_than_a_minute_before))) =
      0 + Z.of_nat (count is_mcp_request new).
Proof.
  pose (r := mcpCall (P:=node) "tools/list" (VObj []) false less_than_a_minute_before).
  destruct (mcpCall_counts (P:=node) "tools/list" (VObj []) false less_than_a_minute_before
              (snd r) (fst r) (surjective_pairing r)) as (new & Htr & Htok & _ & Hmid & _).
  exists new. split; [exact Htr |]. split; [exact Htok | exact Hmid].
Defined.

Lemma mcpCall_uses_current_token_witness :
  assoc "Authorization"
    (rq_headers (mcp_request (P:=node) 1 "tools/list" (VObj []) (VStr "AT2") false VNull))
  = Some "Bearer AT2".
Proof.
  pose (r := mcpCall (P:=node) "tools/list" (VObj []) false less_than_a_minute_before).
  rewrite (mcpCall_uses_current_token (P:=node) "tools/list" (VObj []) false
             less_than_a_minute_before (snd r) (fst r) (events_of r)
             (mcp_request (P:=node) 1 "tools/list" (VObj []) (VStr "AT2") false VNull)
             (an_answer "1") (surjective_pairing r)).
  - vm_compute. reflexivity.
  - vm_compute. reflexivity.
  - vm_compute. right. right. right. left. reflexivity.
  - reflexivity.
Defined.


Lemma main_completes_or_exits_witness :
  exists new,
    events_of (main (P:=node) a_start_in_sessions) = new /\
    ((fst (main (P:=node) a_start_in_sessions) = Ret tt /\
      count is_mcp_request new = 3%nat) \/
     fst (main (P:=node) a_start_in_sessions) = Exit 1).
Proof.
  pose (r := main (P:=node) a_start_in_sessions).
  destruct (main_completes_or_exits (P:=node) (outside a_start_in_sessions)
              (fst r) (snd r) home) as (new & Htr & Hend).
  - reflexivity.
  - apply surjective_pairing.
  - exists new. split; [exact Htr | exact Hend].
Defined.

Lemma initializeSession_stops_on_error_witness :
  exists e, fst (initializeSession (P:=node) a_refused_initialize) = Throw e.
Proof.
  pose (r := initializeSession (P:=node) a_refused_initialize).
  destruct (initializeSession_stops_on_error (P:=node) a_refused_initialize (snd r) (fst r)
              (surjective_pairing r)) as (new & Htr & _ & _ & Herr).
  assert (Hnew : new = events_of r)
    by (apply (app_inv_head (trace (outside a_refused_initialize))); rewrite <- Htr;
        vm_compute; reflexivity).
  assert (Hk : exists x, nth_error (mcp_log new) 0 = Some x)
    by (rewrite Hnew; vm_compute; eexists; reflexivity).
  destruct Hk as ([rq rp] & Hk).
  assert (Hrp : rp = an_error_answer).
  { rewrite Hnew in Hk. vm_compute in Hk. injection Hk as _ <-. vm_compute. reflexivity. }
  subst rp.
  destruct (Herr rq an_error_answer
              (VObj [("jsonrpc", VStr "2.0"); ("id", VNum 1);
                     ("error", VObj [("message", VStr "unsupported")])])
              (VObj [("message", VStr "unsupported")]) Hk) as (_ & He).
  - vm_compute. reflexivity.
  - reflexivity.
  - reflexivity.
  - exact He.
Defined.

Lemma parseArgs_key_value_witness :
  parseArgs (P:=node) ["fetch"; "url:https://cirra.ai/docs"] =
    (VStr "fetch", VObj [("url", VStr "https://cirra.ai/docs")]).
Proof.
  refine (eq_trans (parseArgs_key_value (P:=node) "fetch" "url" "https://cirra.ai/docs" []
                      _ _) _).
  - reflexivity.
  - reflexivity.
  - vm_compute. reflexivity.
Defined.






Lemma registration_failure_stops_witness :
  fst (Authorizer.main (P:=node) a_flow_without_server) = Exit 1.
Proof.
  pose (r := Authorizer.main (P:=node) a_flow_without_server).
  destruct (registration_failure_stops (P:=node) a_flow_without_server (snd r) (fst r)
              (surjective_pairing r)) as (Ho & _).
  - reflexivity.
  - exact Ho.
Defined.

Lemma nothing_saved_without_authorization_witness :
  fs (outside (snd (Authorizer.main (P:=node) a_flow_without_callback))) =
  fs (outside a_flow_without_callback).
Proof.
  pose (r := Authorizer.main (P:=node) a_flow_without_callback).
  destruct (nothing_saved_without_authorization (P:=node) a_flow_without_callback
              (snd r) (fst r) (surjective_pairing r)) as (evs & Htr & Hno).
  assert (Hevs : evs = events_of r)
    by (apply (app_inv_head (trace (outside a_flow_without_callback))); rewrite <- Htr;
        vm_compute; reflexivity).
  destruct Hno as (_ & Hfs & _); [| exact Hfs].
  rewrite Hevs. vm_compute. intuition discriminate.
Defined.

Lemma script_completes_or_exits_witness :
  fst (Authorizer.script (P:=node) a_flow) = Ret tt \/
  fst (Authorizer.script (P:=node) a_flow) = Exit 1.
Proof.
  pose (r := Authorizer.script (P:=node) a_flow).
  exact (script_completes_or_exits (P:=node) a_flow (snd r) (fst r) (surjective_pairing r)).
Defined.

Lemma completed_flow_saves_tokens_witness :
  exists evs,
    events_of (Authorizer.main (P:=node) a_flow) = evs /\
    saved (P:=node) a_flow (snd (Authorizer.main (P:=node) a_flow)) evs.
Proof.
  pose (r := Authorizer.main (P:=node) a_flow).
  assert (Ho : fst r = Ret tt) by (vm_compute; reflexivity).
  assert (Hrun : Authorizer.main (P:=node) a_flow = (Ret tt, snd r))
    by (rewrite <- Ho; apply surjective_pairing).
  destruct (completed_flow_saves_tokens (P:=node) a_flow (snd r) Hrun) as (evs & Htr & Hs).
  exists evs. split; [exact Htr | exact Hs].
Defined.

Lemma verifier_matches_challenge_witness :
  exists evs,
    events_of (Authorizer.main (P:=node) a_flow) = evs /\
    Forall (bound_event (P:=node)
              (to_base64url "0123456789abcdef0123456789abcdef") a_state) evs.
Proof.
  pose (r := Authorizer.main (P:=node) a_flow).
  destruct (verifier_matches_challenge (P:=node) a_flow (snd r) (fst r)
              (surjective_pairing r)) as (evs & Htr & Hb).
  exists evs. split; [exact Htr | exact Hb].
Defined.
